(** * MarketMover Radar: storage, stream manager and indicator engine

    A shallow embedding of three parts of the repository:

    - [Store]: [database/db_manager.py] and [database/schema.py], the
      [DatabaseManager] with its Redis and its SQLite code paths;
    - [Stream]: [data_collectors/websocket_handler.py], the reconnect logic
      of [WebSocketManager];
    - [Trend]: [analysis/trend_detector.py], the four indicator functions of
      [TrendDetector];
    - [Radar]: [update_market_data] of [main.py], the caller that writes the
      collected prices and candles to the store;
    - [Analysis]: [store_analysis_result] and [get_latest_analysis] of
      [database/db_manager.py];
    - [News]: [store_news_data] and [get_news_data] of
      [database/db_manager.py];
    - [Binance]: the stream methods of [BinanceWebSocketClient] in
      [data_collectors/websocket_handler.py].

    Conventions.  Python [int] is [Z]; [time.time()] is an explicit clock
    reading passed to every operation; a Python [dict] used as a record is an
    association list in insertion order; the Redis keyspace and the
    dictionaries of the stream manager are [gmap]s; Python exceptions are the
    [Raise] outcome of a small state-and-exception monad. *)

From Stdlib Require Import ZArith QArith Qabs Lqa Lia List Bool Ascii String Sorted Permutation.
From stdpp Require Import base tactics option list sorting gmap strings pretty.

Close Scope Q_scope.
Local Open Scope Z_scope.

(** ** Python values shared by the three modules *)

Module Py.

(** The JSON-representable scalars the store sees in candle and tick
    records.  A Python [int] is unbounded.  A [float] is carried by its
    [repr]: the store never computes with one, it only passes it on. *)
Inductive pyval :=
  | VInt (z : Z)
  | VStr (s : string)
  | VFloat (repr : string)
  | VBool (b : bool)
  | VNone.

(** A [dict] with string keys, in insertion order, keys unique. *)
Definition pydict := list (string * pyval).

(** [d.get(k)] *)
Fixpoint dict_get (k : string) (d : pydict) : option pyval :=
  match d with
  | [] => None
  | (k', v) :: r => if String.eqb k k' then Some v else dict_get k r
  end.

(** [d.get(k, dflt)] *)
Definition dict_get_default (k : string) (dflt : pyval) (d : pydict) : pyval :=
  match dict_get k d with Some v => v | None => dflt end.

(** [d[k] = v]: an existing key keeps its position, a new key goes last. *)
Fixpoint dict_set (k : string) (v : pyval) (d : pydict) : pydict :=
  match d with
  | [] => [(k, v)]
  | (k', v') :: r =>
      if String.eqb k k' then (k, v) :: r else (k', v') :: dict_set k v r
  end.

(** Exceptions raised by the two database clients. *)
Inductive exn :=
  | IntegrityError   (* sqlite3.IntegrityError: a UNIQUE or NOT NULL constraint failed *)
  | OverflowError    (* sqlite3: Python int too large to convert to SQLite INTEGER *)
  | DataError        (* redis.DataError: a value that redis-py does not encode *)
  | WrongType.       (* redis.ResponseError: WRONGTYPE *)

Inductive res (A : Type) :=
  | Ok (a : A)
  | Raise (e : exn).
Arguments Ok {A} a.
Arguments Raise {A} e.

(** State-and-exception monad: a raised exception keeps the effects that
    happened before it. *)
Definition St (S A : Type) : Type := S -> S * res A.

Definition ret {S A} (a : A) : St S A := fun s => (s, Ok a).

Definition bind {S A B} (m : St S A) (f : A -> St S B) : St S B :=
  fun s =>
    match m s with
    | (s', Ok a) => f a s'
    | (s', Raise e) => (s', Raise e)
    end.

Definition raise {S A} (e : exn) : St S A := fun s => (s, Raise e).

Notation "x <- m ;; k" := (bind m (fun x => k))
  (at level 100, m at next level, right associativity).
Notation "m ;;; k" := (bind m (fun _ => k))
  (at level 100, right associativity).

(** [sorted(l, key=key)] for integer keys: a stable insertion sort. *)
Section Sorted.
Context {A : Type} (leb : A -> A -> bool).

Fixpoint insert_sorted (x : A) (l : list A) : list A :=
  match l with
  | [] => [x]
  | y :: r => if leb x y then x :: y :: r else y :: insert_sorted x r
  end.

Fixpoint isort (l : list A) : list A :=
  match l with
  | [] => []
  | x :: r => insert_sorted x (isort r)
  end.
End Sorted.

Definition py_sorted {A : Type} (key : A -> Z) (l : list A) : list A :=
  isort (fun a b => key a <=? key b) l.

End Py.

(** ** A concrete JSON codec for flat records *)

Module Json.
Import Py.

(** The double quote and the backslash. *)
Definition dquote : ascii := Ascii false true false false false true false false.
Definition bslash : ascii := Ascii false false true true true false true false.

Fixpoint escape (s : string) : string :=
  match s with
  | EmptyString => EmptyString
  | String c r =>
      if (Ascii.eqb c dquote || Ascii.eqb c bslash)%bool
      then String bslash (String c (escape r))
      else String c (escape r)
  end.

Definition quoted (s : string) : string :=
  String dquote (escape s +:+ String dquote EmptyString).

Definition dump_val (v : pyval) : string :=
  match v with
  | VInt z => pretty z
  | VStr s => quoted s
  | VFloat r => r
  | VBool true => "true"
  | VBool false => "false"
  | VNone => "null"
  end.

Fixpoint dump_items (d : pydict) : string :=
  match d with
  | [] => EmptyString
  | [(k, v)] => quoted k +:+ ": " +:+ dump_val v
  | (k, v) :: r => quoted k +:+ ": " +:+ dump_val v +:+ ", " +:+ dump_items r
  end.

(** [json.dumps(d)] with the default separators. *)
Definition json_dumps (d : pydict) : string :=
  "{" +:+ dump_items d +:+ "}".

(** Reads a string body up to its closing quote; returns the body and the
    rest of the input. *)
Fixpoint parse_string (s acc : string) : string * string :=
  match s with
  | EmptyString => (acc, EmptyString)
  | String c r =>
      if Ascii.eqb c dquote then (acc, r)
      else if Ascii.eqb c bslash then
        match r with
        | EmptyString => (acc, EmptyString)
        | String c' r' => parse_string r' (acc +:+ String c' EmptyString)
        end
      else parse_string r (acc +:+ String c EmptyString)
  end.

Definition digit_of (c : ascii) : option Z :=
  let n := Z.of_nat (nat_of_ascii c) in
  if (48 <=? n) && (n <=? 57) then Some (n - 48) else None.

Fixpoint parse_digits (s : string) (acc : Z) : Z * string :=
  match s with
  | EmptyString => (acc, EmptyString)
  | String c r =>
      match digit_of c with
      | Some dgt => parse_digits r (10 * acc + dgt)
      | None => (acc, s)
      end
  end.

(** The characters of a JSON number, and the longest prefix made of them. *)
Definition number_char (c : ascii) : bool :=
  match digit_of c with
  | Some _ => true
  | None =>
      Ascii.eqb c "-"%char || Ascii.eqb c "+"%char || Ascii.eqb c "."%char
      || Ascii.eqb c "e"%char || Ascii.eqb c "E"%char
  end.

Fixpoint take_number (s : string) : string * string :=
  match s with
  | EmptyString => (EmptyString, EmptyString)
  | String c r =>
      if number_char c
      then let '(tok, rest) := take_number r in (String c tok, rest)
      else (EmptyString, s)
  end.

(** An integer literal: an optional minus sign, then digits only. *)
Definition int_of_token (tok : string) : option Z :=
  let digits z body :=
    match parse_digits body 0 with
    | (n, EmptyString) => Some (z * n)
    | _ => None
    end in
  match tok with
  | EmptyString => None
  | String "-" EmptyString => None
  | String "-" body => digits (-1) body
  | _ => digits 1 tok
  end.

(** [s] begins with the literal [lit]: the rest of [s]. *)
Fixpoint after_literal (lit s : string) : option string :=
  match lit, s with
  | EmptyString, _ => Some s
  | String a lit', String b s' =>
      if Ascii.eqb a b then after_literal lit' s' else None
  | String _ _, EmptyString => None
  end.

Definition parse_value (s : string) : option (pyval * string) :=
  match s with
  | EmptyString => None
  | String c r =>
      if Ascii.eqb c dquote then
        let '(body, rest) := parse_string r EmptyString in Some (VStr body, rest)
      else if number_char c then
        let '(tok, rest) := take_number s in
        match int_of_token tok with
        | Some n => Some (VInt n, rest)
        | None => Some (VFloat tok, rest)
        end
      else
        match after_literal "true" s, after_literal "false" s, after_literal "null" s with
        | Some rest, _, _ => Some (VBool true, rest)
        | _, Some rest, _ => Some (VBool false, rest)
        | _, _, Some rest => Some (VNone, rest)
        | _, _, _ => None
        end
  end.

Fixpoint parse_members (fuel : nat) (s : string) : pydict :=
  match fuel with
  | O => []
  | S fuel' =>
      match s with
      | String c r =>
          if Ascii.eqb c dquote then
            let '(k, rest) := parse_string r EmptyString in
            match rest with
            | String ":" (String " " rest2) =>
                match parse_value rest2 with
                | Some (v, String "," (String " " rest3)) =>
                    (k, v) :: parse_members fuel' rest3
                | Some (v, _) => [(k, v)]
                | None => []
                end
            | _ => []
            end
          else []
      | EmptyString => []
      end
  end.

(** [json.loads(s)] on the output of [json_dumps]. *)
Definition json_loads (s : string) : pydict :=
  match s with
  | String "{" r => parse_members (String.length r) r
  | _ => []
  end.

End Json.

(** ** The store: [database/db_manager.py] over Redis and SQLite *)

Module Store.
Import Py.

(** *** The Redis server, as far as the manager uses it

    One keyspace; a key holds a hash, a sorted set or a set, and optionally
    an expiry deadline (in seconds of the clock).  A key whose deadline has
    passed is absent for every command.

    The server counts a deadline in milliseconds from the moment of the
    [EXPIRE] and drops the key strictly after it.  With a clock read in
    whole seconds, a key is certainly alive while the clock reads less than
    the deadline and certainly gone once it reads more; at the second of the
    deadline itself it is taken to be alive. *)

Inductive rvalue :=
  | RHash (h : gmap string string)
  | RZset (z : gmap string Z)
  | RSet (s : gset string).

Record rentry := REntry { rval : rvalue; rdeadline : option Z }.

Abbreviation redis := (gmap string rentry).

Definition expired (now : Z) (e : rentry) : bool :=
  match rdeadline e with
  | Some d => d <? now
  | None => false
  end.

Definition rlookup (now : Z) (key : string) (r : redis) : option rentry :=
  match r !! key with
  | Some e => if expired now e then None else Some e
  | None => None
  end.

(** How redis-py encodes a field value: the text of a number, a string as
    it is; [None] and a [bool] are refused with [DataError]. *)
Definition redis_encode (v : pyval) : option string :=
  match v with
  | VInt z => Some (pretty z)
  | VStr s => Some s
  | VFloat r => Some r
  | VBool _ | VNone => None
  end.

(** The fields of a mapping, encoded; nothing if a value is refused. *)
Fixpoint encode_mapping {A : Type} (encode : A -> option string)
    (mapping : list (string * A)) : option (list (string * string)) :=
  match mapping with
  | [] => Some []
  | (k, v) :: rest =>
      match encode v, encode_mapping encode rest with
      | Some text, Some fields => Some ((k, text) :: fields)
      | _, _ => None
      end
  end.

Definition hash_update (fields : list (string * string)) (h : gmap string string)
  : gmap string string :=
  fold_left (fun acc kv => <[fst kv := snd kv]> acc) fields h.

(** [hset(key, mapping=mapping)]: redis-py encodes the whole mapping, and
    refuses an empty one, before it sends [HSET key field value ...]. *)
Definition hset {A : Type} (encode : A -> option string)
    (now : Z) (key : string) (mapping : list (string * A)) : St redis unit :=
  fun r =>
    match encode_mapping encode mapping with
    | None | Some [] => (r, Raise DataError)
    | Some fields =>
        match rlookup now key r with
        | None => (<[key := REntry (RHash (hash_update fields ∅)) None]> r, Ok tt)
        | Some (REntry (RHash h) d) =>
            (<[key := REntry (RHash (hash_update fields h)) d]> r, Ok tt)
        | Some (REntry _ _) => (r, Raise WrongType)
        end
    end.

(** [EXPIRE key seconds] *)
Definition expire (now : Z) (key : string) (seconds : Z) : St redis unit :=
  fun r =>
    match rlookup now key r with
    | None => (r, Ok tt)
    | Some (REntry v _) =>
        if seconds <=? 0 then (delete key r, Ok tt)
        else (<[key := REntry v (Some (now + seconds))]> r, Ok tt)
    end.

(** [ZADD key score member]: a member already present only changes score.
    The scores written are clock readings, which the doubles of a sorted set
    hold exactly. *)
Definition zadd (now : Z) (key member : string) (score : Z) : St redis unit :=
  fun r =>
    match rlookup now key r with
    | None => (<[key := REntry (RZset {[member := score]}) None]> r, Ok tt)
    | Some (REntry (RZset z) d) =>
        (<[key := REntry (RZset (<[member := score]> z)) d]> r, Ok tt)
    | Some (REntry _ _) => (r, Raise WrongType)
    end.

(** Order of [ZREVRANGE]: highest score first, equal scores in descending
    lexicographic order of the members. *)
Definition zrev_leb (a b : string * Z) : bool :=
  (snd b <? snd a) || ((snd a =? snd b) && String.leb (fst b) (fst a)).

(** Index arithmetic of the range commands: inclusive bounds, a negative
    index counts from the end. *)
Definition zrange_slice {A : Type} (start stop : Z) (l : list A) : list A :=
  let llen := Z.of_nat (length l) in
  let start1 := if start <? 0 then llen + start else start in
  let stop1 := if stop <? 0 then llen + stop else stop in
  let start2 := if start1 <? 0 then 0 else start1 in
  if (stop1 <? start2) || (llen <=? start2) then []
  else
    let stop2 := if llen <=? stop1 then llen - 1 else stop1 in
    take (Z.to_nat (stop2 - start2 + 1)) (drop (Z.to_nat start2) l).

(** [ZREVRANGE key start stop WITHSCORES] *)
Definition zrevrange (now : Z) (key : string) (start stop : Z) (r : redis)
  : res (list (string * Z)) :=
  match rlookup now key r with
  | None => Ok []
  | Some (REntry (RZset z) _) =>
      Ok (zrange_slice start stop (isort zrev_leb (map_to_list z)))
  | Some (REntry _ _) => Raise WrongType
  end.

(** [SADD key member] *)
Definition sadd (now : Z) (key member : string) : St redis unit :=
  fun r =>
    match rlookup now key r with
    | None => (<[key := REntry (RSet {[member]}) None]> r, Ok tt)
    | Some (REntry (RSet s) d) => (<[key := REntry (RSet ({[member]} ∪ s)) d]> r, Ok tt)
    | Some (REntry _ _) => (r, Raise WrongType)
    end.

(** [SMEMBERS key] *)
Definition smembers (now : Z) (key : string) (r : redis) : res (gset string) :=
  match rlookup now key r with
  | None => Ok ∅
  | Some (REntry (RSet s) _) => Ok s
  | Some (REntry _ _) => Raise WrongType
  end.

(** [HGETALL key] *)
Definition hgetall (now : Z) (key : string) (r : redis) : res (gmap string string) :=
  match rlookup now key r with
  | None => Ok ∅
  | Some (REntry (RHash h) _) => Ok h
  | Some (REntry _ _) => Raise WrongType
  end.

(** *** The SQLite table [crypto_data] of [database/schema.py]

    One connection is used throughout, and on the thread that opened it, so
    a row is visible to the reads that follow its [INSERT]; [commit()] is not
    modelled.  (From any other thread [sqlite3] refuses every call with
    [ProgrammingError].) *)

Record crypto_row := CryptoRow {
  row_id : Z;
  row_symbol : string;
  row_interval : string;
  row_price : pyval;
  row_volume : pyval;
  row_high : pyval;
  row_low : pyval;
  row_timestamp : Z;
  row_data_json : string
}.

Record sqlite := Sqlite {
  crypto_data : list crypto_row;   (* rows in insertion order *)
  crypto_data_seq : Z              (* AUTOINCREMENT: largest id handed out *)
}.

(** [UNIQUE(symbol, interval, timestamp)] *)
Definition same_key (symbol interval : string) (timestamp : Z) (row : crypto_row) : bool :=
  String.eqb (row_symbol row) symbol && String.eqb (row_interval row) interval
  && (row_timestamp row =? timestamp).

(** What [sqlite3] binds to an [INTEGER]: the 64-bit range. *)
Definition fits_int64 (z : Z) : bool := (- 2 ^ 63 <=? z) && (z <? 2 ^ 63).

(** A parameter of [cursor.execute]: an [int] outside the 64-bit range
    raises [OverflowError] when the parameters are bound. *)
Definition binds (v : pyval) : bool :=
  match v with
  | VInt z => fits_int64 z
  | _ => true
  end.

(** [None] is bound as [NULL], and so is the float NaN. *)
Definition is_null (v : pyval) : bool :=
  match v with
  | VNone => true
  | VFloat r => String.eqb r "nan"
  | _ => false
  end.

(** [INSERT INTO crypto_data (...) VALUES (...)]: the parameters are bound,
    then the four [NOT NULL] value columns and the [UNIQUE] key are checked. *)
Definition insert_crypto_data (symbol interval : string)
    (price volume high low : pyval) (timestamp : Z) (data_json : string)
  : St sqlite unit :=
  fun db =>
    if negb (forallb binds [price; volume; high; low])
    then (db, Raise OverflowError)
    else if existsb is_null [price; volume; high; low]
    then (db, Raise IntegrityError)
    else if existsb (same_key symbol interval timestamp) (crypto_data db)
    then (db, Raise IntegrityError)
    else
      let id := crypto_data_seq db + 1 in
      (Sqlite (crypto_data db ++
               [CryptoRow id symbol interval price volume high low timestamp data_json])
              id,
       Ok tt).

(** [SELECT * FROM crypto_data WHERE symbol = ? AND interval = ?
    ORDER BY timestamp DESC LIMIT ?]; a negative [LIMIT] is no limit.  The
    limit is taken within the 64-bit range that [sqlite3] binds. *)
Definition select_crypto_data (symbol interval : string) (limit : Z) (db : sqlite)
  : list crypto_row :=
  let rows :=
    filter (fun row => row_symbol row = symbol ∧ row_interval row = interval)
           (crypto_data db) in
  let ordered := isort (fun a b => row_timestamp b <=? row_timestamp a) rows in
  if limit <? 0 then ordered else take (Z.to_nat limit) ordered.

(** *** [DatabaseManager] *)

Record DatabaseManager := Manager {
  use_redis : bool;
  redis_client : redis;
  sqlite_conn : sqlite
}.

(** [__init__]: Redis when configured and reachable, otherwise SQLite with
    freshly created tables. *)
Definition init (USE_REDIS redis_reachable : bool) : DatabaseManager :=
  Manager (USE_REDIS && redis_reachable) ∅ (Sqlite [] 0).

Definition on_redis {A : Type} (m : St redis A) : St DatabaseManager A :=
  fun db =>
    let '(r, a) := m (redis_client db) in
    (Manager (use_redis db) r (sqlite_conn db), a).

Definition on_sqlite {A : Type} (m : St sqlite A) : St DatabaseManager A :=
  fun db =>
    let '(s, a) := m (sqlite_conn db) in
    (Manager (use_redis db) (redis_client db) s, a).

(** The retention table of [store_crypto_data], keyed by interval. *)
Definition ttl_multiplier : list (string * Z) :=
  [ ("1m", 60 * 24);
    ("5m", 60 * 24 * 3);
    ("15m", 60 * 24 * 7);
    ("1h", 60 * 24 * 30);
    ("4h", 60 * 24 * 90);
    ("1d", 60 * 24 * 365) ].

Fixpoint assoc_get (k : string) (l : list (string * Z)) : option Z :=
  match l with
  | [] => None
  | (k', v) :: r => if String.eqb k k' then Some v else assoc_get k r
  end.

(** [ttl_multiplier.get(interval, 60 * 24 * 7)] *)
Definition ttl_of (interval : string) : Z :=
  match assoc_get interval ttl_multiplier with
  | Some v => v
  | None => 60 * 24 * 7
  end.

Definition crypto_key (symbol interval : string) : string :=
  "crypto:" +:+ symbol +:+ ":" +:+ interval.

Definition ts_key (symbol interval : string) : string :=
  "ts:crypto:" +:+ symbol +:+ ":" +:+ interval.

Section Codec.
(** [json.dumps] and [json.loads] *)
Variable json_dumps : pydict -> string.
Variable json_loads : string -> pydict.

(** [store_crypto_data(symbol, interval, data)], called when the clock
    reads [now]. *)
Definition store_crypto_data (now : Z) (symbol interval : string) (data : pydict)
  : St DatabaseManager unit :=
  fun db =>
    let key := crypto_key symbol interval in
    let timestamp := now in
    let data_with_timestamp := dict_set "timestamp" (VInt timestamp) data in
    if use_redis db then
      (on_redis (hset redis_encode now key data_with_timestamp) ;;;
       let ttl := ttl_of interval in
       on_redis (expire now key ttl) ;;;
       let ts_key := ts_key symbol interval in
       on_redis (zadd now ts_key (json_dumps data) timestamp) ;;;
       on_redis (expire now ts_key ttl)) db
    else
      on_sqlite
        (insert_crypto_data symbol interval
           (dict_get_default "price" (VInt 0) data)
           (dict_get_default "volume" (VInt 0) data)
           (dict_get_default "high" (VInt 0) data)
           (dict_get_default "low" (VInt 0) data)
           timestamp (json_dumps data)) db.

(** The sort key [x["timestamp"]] of the records built below. *)
Definition timestamp_of (x : pydict) : Z :=
  match dict_get "timestamp" x with
  | Some (VInt z) => z
  | _ => 0
  end.

(** [get_crypto_data(symbol, interval, limit)], called when the clock
    reads [now]. *)
Definition get_crypto_data (now : Z) (symbol interval : string) (limit : Z)
    (db : DatabaseManager) : res (list pydict) :=
  if use_redis db then
    let ts_key := ts_key symbol interval in
    match zrevrange now ts_key 0 (limit - 1) (redis_client db) with
    | Ok result =>
        let data_list :=
          map (fun '(data_json, timestamp) =>
                 dict_set "timestamp" (VInt timestamp) (json_loads data_json))
              result in
        Ok (py_sorted timestamp_of data_list)
    | Raise e => Raise e
    end
  else
    let rows := select_crypto_data symbol interval limit (sqlite_conn db) in
    let data_list :=
      map (fun row =>
             dict_set "timestamp" (VInt (row_timestamp row))
                      (json_loads (row_data_json row)))
          rows in
    Ok (py_sorted timestamp_of data_list).

(** A call of [store_crypto_data] as data, and a history of such calls.
    A call that raises keeps whatever it had already written; the callers
    log the exception and go on. *)
Record write := Write {
  w_clock : Z;
  w_symbol : string;
  w_interval : string;
  w_data : pydict
}.

Definition apply_write (db : DatabaseManager) (w : write) : DatabaseManager :=
  fst (store_crypto_data (w_clock w) (w_symbol w) (w_interval w) (w_data w) db).

Definition after_writes (db : DatabaseManager) (ws : list write) : DatabaseManager :=
  fold_left apply_write ws db.

End Codec.

(** *** Vocabulary for statements about histories *)

(** A value that both clients take: a string, a float other than NaN, or
    an integer within 64 bits. *)
Definition plain (v : pyval) : bool :=
  match v with
  | VInt z => fits_int64 z
  | VStr _ => true
  | VFloat r => negb (String.eqb r "nan")
  | VBool _ | VNone => false
  end.


(** A record that redis-py encodes: no value is a [bool] or [None]. *)
Definition encodable_record (data : pydict) : bool :=
  forallb (fun kv => match redis_encode (snd kv) with Some _ => true | None => false end)
          data.




End Store.

(** ** The stream manager: [data_collectors/websocket_handler.py]

    [WebSocketManager] runs one thread per connection.  The threads and the
    caller interleave at two points only: while a connection is open (the
    thread sits in [run_forever]) and while [_on_close_wrapper] sleeps before
    it reconnects.  The model is a labelled transition system whose labels
    are the calls of the public methods and the two events that resume a
    thread. *)

Module Stream.

(** The dictionaries of [WebSocketManager.__init__].  A connection is
    identified with the thread that runs it; a [threading.Event] is its
    flag.  The [callbacks] dictionary only serves message dispatch and is
    left out. *)
Record manager := Mgr {
  connections : gmap string nat;
  stop_events : gmap string bool;
  reconnect_intervals : gmap string Z
}.

Inductive phase :=
  | Running                   (* inside [ws.run_forever()] *)
  | ReconnectWait (secs : Z)  (* inside [time.sleep(interval)] of [_on_close_wrapper] *)
  | Finished.

Record thread := Thread { t_name : string; t_phase : phase }.

(** What an observer of the manager sees, oldest first. *)
Inductive event :=
  | Attempt (name : string)      (* a new [WebSocketApp] starts [run_forever] *)
  | CloseCall (name : string).   (* [close_connection(name)] was called *)

Record state := State {
  mgr : manager;
  threads : list thread;
  log : list event
}.

Inductive label :=
  | AddConnection (name : string) (reconnect_interval : Z)
  | CloseConnection (name : string)
  | CloseAll
  | SocketClosed (tid : nat)     (* [run_forever] ends and calls [on_close] *)
  | SleepElapsed (tid : nat).    (* [time.sleep] returns *)

Definition initial : state := State (Mgr ∅ ∅ ∅) [] [].

(** [_start_connection_thread]: the new thread creates its [WebSocketApp],
    registers it under [name] and enters [run_forever]. *)
Definition start_connection_thread (name : string) (s : state) : state :=
  let tid := length (threads s) in
  State (Mgr (<[name := tid]> (connections (mgr s)))
             (stop_events (mgr s))
             (reconnect_intervals (mgr s)))
        (threads s ++ [Thread name Running])
        (log s ++ [Attempt name]).

(** [close_connection(name)].  The call [connections[name].close()] ends
    [run_forever] in the connection's thread; the thread notices it at its
    next [SocketClosed]. *)
Definition close_connection (name : string) (s : state) : state :=
  let m := mgr s in
  let s1 :=
    match connections m !! name with
    | Some _ =>
        let stops :=
          match stop_events m !! name with
          | Some _ => <[name := true]> (stop_events m)   (* [.set()] *)
          | None => stop_events m
          end in
        State (Mgr (delete name (connections m)) stops (reconnect_intervals m))
              (threads s) (log s)
    | None => s
    end in
  State (mgr s1) (threads s1) (log s1 ++ [CloseCall name]).

(** [add_connection(name, url, on_message, subscription_msg, reconnect_interval)] *)
Definition add_connection (name : string) (reconnect_interval : Z) (s : state) : state :=
  let s1 :=
    match connections (mgr s) !! name with
    | Some _ => close_connection name s
    | None => s
    end in
  let m := mgr s1 in
  let s2 :=
    State (Mgr (connections m)
               (<[name := false]> (stop_events m))
               (<[name := reconnect_interval]> (reconnect_intervals m)))
          (threads s1) (log s1) in
  start_connection_thread name s2.

(** [close_all()] *)
Definition close_all (s : state) : state :=
  let names := map fst (map_to_list (connections (mgr s))) in
  let s1 := fold_left (fun acc name => close_connection name acc) names s in
  State (Mgr ∅ ∅ ∅) (threads s1) (log s1).

Definition set_phase (tid : nat) (p : phase) (s : state) : state :=
  State (mgr s) (alter (fun t => Thread (t_name t) p) tid (threads s)) (log s).

(** [_on_close_wrapper] up to and including the call of [time.sleep]: the
    stop event is read here, before the sleep. *)
Definition on_close_wrapper_begin (tid : nat) (s : state) : state :=
  match threads s !! tid with
  | Some (Thread name Running) =>
      match stop_events (mgr s) !! name with
      | Some false =>
          let interval :=
            match reconnect_intervals (mgr s) !! name with
            | Some i => i
            | None => 30
            end in
          set_phase tid (ReconnectWait interval) s
      | _ => set_phase tid Finished s
      end
  | _ => s
  end.

(** [_on_close_wrapper] after [time.sleep] has returned: the thread starts
    the next connection and ends. *)
Definition on_close_wrapper_resume (tid : nat) (s : state) : state :=
  match threads s !! tid with
  | Some (Thread name (ReconnectWait _)) =>
      start_connection_thread name (set_phase tid Finished s)
  | _ => s
  end.

Definition step (s : state) (l : label) : state :=
  match l with
  | AddConnection name i => add_connection name i s
  | CloseConnection name => close_connection name s
  | CloseAll => close_all s
  | SocketClosed tid => on_close_wrapper_begin tid s
  | SleepElapsed tid => on_close_wrapper_resume tid s
  end.

Definition run (ls : list label) : state := fold_left step ls initial.

(** No [Attempt name] is logged after a [CloseCall name]. *)
Fixpoint no_attempt_after_close (name : string) (closed : bool) (evs : list event) : bool :=
  match evs with
  | [] => true
  | Attempt n :: r =>
      if String.eqb n name && closed then false
      else no_attempt_after_close name closed r
  | CloseCall n :: r =>
      no_attempt_after_close name (closed || String.eqb n name) r
  end.

End Stream.

(** ** The indicator engine: [analysis/trend_detector.py]

    Floating-point numbers are modelled by exact rationals extended with the
    two infinities and NaN, with the IEEE rules for the special values
    (signed zeros are not distinguished).  Rounding is not modelled: a
    statement that rests on the outcome of a comparison between computed
    values is made for inputs on which the float64 computation is exact, see
    [whole_closes] below. *)

Module Trend.
Local Open Scope Q_scope.

Inductive fnum :=
  | Fin (q : Q)
  | PInf
  | NInf
  | NaN.

Definition Qltb (x y : Q) : bool := (Qnum x * QDen y <? Qnum y * QDen x)%Z.
Definition Qzero (x : Q) : bool := (Qnum x =? 0)%Z.

Definition is_nan (a : fnum) : bool :=
  match a with NaN => true | _ => false end.

Definition fneg (a : fnum) : fnum :=
  match a with
  | Fin x => Fin (- x)
  | PInf => NInf
  | NInf => PInf
  | NaN => NaN
  end.

Definition fadd (a b : fnum) : fnum :=
  match a, b with
  | NaN, _ | _, NaN => NaN
  | Fin x, Fin y => Fin (x + y)
  | PInf, NInf | NInf, PInf => NaN
  | PInf, _ | _, PInf => PInf
  | NInf, _ | _, NInf => NInf
  end.

Definition fsub (a b : fnum) : fnum := fadd a (fneg b).

(** An infinity of the sign of [x] times the sign [pos]; NaN for zero. *)
Definition signed_inf (pos : bool) (x : Q) : fnum :=
  if Qzero x then NaN
  else if Bool.eqb (Qltb 0 x) pos then PInf else NInf.

Definition fmul (a b : fnum) : fnum :=
  match a, b with
  | NaN, _ | _, NaN => NaN
  | Fin x, Fin y => Fin (x * y)
  | Fin x, PInf | PInf, Fin x => signed_inf true x
  | Fin x, NInf | NInf, Fin x => signed_inf false x
  | PInf, PInf | NInf, NInf => PInf
  | PInf, NInf | NInf, PInf => NInf
  end.

Definition fdiv (a b : fnum) : fnum :=
  match a, b with
  | NaN, _ | _, NaN => NaN
  | Fin x, Fin y => if Qzero y then signed_inf true x else Fin (x / y)
  | Fin _, PInf | Fin _, NInf => Fin 0
  | PInf, Fin y => if Qltb y 0 then NInf else PInf
  | NInf, Fin y => if Qltb y 0 then PInf else NInf
  | PInf, PInf | PInf, NInf | NInf, PInf | NInf, NInf => NaN
  end.

(** [a < b]; every comparison with NaN is false. *)
Definition flt (a b : fnum) : bool :=
  match a, b with
  | NaN, _ | _, NaN => false
  | Fin x, Fin y => Qltb x y
  | NInf, NInf | PInf, _ => false
  | NInf, _ | Fin _, PInf => true
  | Fin _, NInf => false
  end.

Definition fgt (a b : fnum) : bool := flt b a.

(** [a <= b] and [a >= b] *)
Definition fle (a b : fnum) : bool :=
  match a, b with
  | NaN, _ | _, NaN => false
  | _, _ => negb (flt b a)
  end.

Definition fge (a b : fnum) : bool := fle b a.

Definition fabs (a : fnum) : fnum :=
  match a with
  | Fin x => Fin (Qabs x)
  | PInf | NInf => PInf
  | NaN => NaN
  end.

(** The builtin [min(a, b)]: [b] if [b < a], else [a]. *)
Definition py_min (a b : fnum) : fnum := if flt b a then b else a.

Definition of_nat (n : nat) : fnum := Fin (inject_Z (Z.of_nat n)).

(** *** Series *)

Definition series := list fnum.

(** [s.iloc[i]], a negative [i] counting from the end.  Every use below is
    guarded by a length test that keeps the index in range. *)
Definition iloc (i : Z) (s : series) : fnum :=
  if (i <? 0)%Z then nth (Z.to_nat (Z.of_nat (length s) + i)) s NaN
  else nth (Z.to_nat i) s NaN.

Definition fsum (s : series) : fnum := fold_left fadd s (Fin 0).

(** Mean of a full window: NaN as soon as an observation is missing. *)
Definition fmean (w : series) : fnum :=
  if existsb is_nan w then NaN else fdiv (fsum w) (of_nat (length w)).

(** The [window] observations ending at position [i], if there are that many. *)
Definition window_at (window i : nat) (s : series) : option series :=
  if (i + 1 <? window)%nat then None
  else Some (take window (drop (i + 1 - window) s)).

Definition rolling (f : series -> fnum) (window : nat) (s : series) : series :=
  map (fun i => match window_at window i s with
                | Some w => f w
                | None => NaN
                end)
      (seq 0 (length s)).

(** [s.rolling(window=window).mean()] *)
Definition rolling_mean (window : nat) (s : series) : series :=
  rolling fmean window s.

(** [s.max()] and [s.min()], which skip NaN. *)
Definition fmax_skipna (s : series) : fnum :=
  fold_left (fun acc x => if is_nan x then acc
                          else if is_nan acc then x
                          else if flt acc x then x else acc) s NaN.

Definition fmin_skipna (s : series) : fnum :=
  fold_left (fun acc x => if is_nan x then acc
                          else if is_nan acc then x
                          else if flt x acc then x else acc) s NaN.

(** [s.mean()], which skips NaN. *)
Definition mean_skipna (s : series) : fnum :=
  let obs := filter (fun x => is_nan x = false) s in
  fdiv (fsum obs) (of_nat (length obs)).

(** [s.diff()] and [s.shift(1)] *)
Definition shift1 (s : series) : series :=
  match s with
  | [] => []
  | _ => NaN :: removelast s
  end.

Definition zip_with (f : fnum -> fnum -> fnum) (a b : series) : series :=
  map (fun p => f (fst p) (snd p)) (combine a b).

Definition diff (s : series) : series := zip_with fsub s (shift1 s).

(** [s.ewm(span=span, adjust=False).mean()] *)
Definition ewm_mean (span : Z) (s : series) : series :=
  let alpha := Fin (2 / (inject_Z span + 1)) in
  match s with
  | [] => []
  | x0 :: r =>
      rev (fst (fold_left
                  (fun '(acc, prev) x =>
                     let y := fadd (fmul (fsub (Fin 1) alpha) prev) (fmul alpha x) in
                     (y :: acc, y))
                  r ([x0], x0)))
  end.

Section Sqrt.
(** The square root of the floating-point unit, on non-negative rationals. *)
Variable sqrtQ : Q -> Q.

Definition fsqrt (a : fnum) : fnum :=
  match a with
  | Fin x => if Qltb x 0 then NaN else Fin (sqrtQ x)
  | PInf => PInf
  | NInf | NaN => NaN
  end.

(** Sample variance and covariance with [ddof=1] over NaN-free data. *)
Definition covariance (a b : series) : fnum :=
  let ma := fdiv (fsum a) (of_nat (length a)) in
  let mb := fdiv (fsum b) (of_nat (length b)) in
  fdiv (fsum (zip_with (fun x y => fmul (fsub x ma) (fsub y mb)) a b))
       (fsub (of_nat (length a)) (Fin 1)).

(** [s.std()]: NaN dropped, [ddof=1], NaN below two observations. *)
Definition std (s : series) : fnum :=
  let obs := filter (fun x => is_nan x = false) s in
  if (length obs <=? 1)%nat then NaN else fsqrt (covariance obs obs).

(** A full window's [std].  pandas updates the variance of a rolling window
    incrementally, which can leave a rounding residue where the exact
    variance is zero; here the variance of each window is exact. *)
Definition window_std (w : series) : fnum :=
  if existsb is_nan w then NaN else std w.

(** [np.corrcoef(a, b)[0, 1]] *)
Definition corrcoef (a b : series) : fnum :=
  let c := fdiv (fdiv (covariance a b) (fsqrt (covariance a a)))
                (fsqrt (covariance b b)) in
  if flt c (Fin (-1)) then Fin (-1) else if flt (Fin 1) c then Fin 1 else c.
End Sqrt.

(** *** Candles and reports *)

(** One row of the OHLCV frame.  All columns are present and finite. *)
Record candle := Candle {
  timestamp : Z;
  open : Q;
  high : Q;
  low : Q;
  close : Q;
  volume : Q
}.

Definition column (f : candle -> Q) (data : list candle) : series :=
  map (fun c => Fin (f c)) data.

(** Closes that are whole numbers of magnitude at most [2 ^ 31].  Sums and
    differences of up to [2 ^ 20] of them are integers below [2 ^ 53], which
    float64 holds exactly whatever the order of the additions and removals
    of a rolling window; the quotient of such a sum by the window length is
    correctly rounded, and two distinct sums give two distinct quotients, in
    the order of the sums. *)
Definition whole_closes (data : list candle) : Prop :=
  Forall (fun c => exists z : Z, close c = inject_Z z /\ (Z.abs z <= 2 ^ 31)%Z) data.

(** A value of a result dictionary. *)
Inductive value :=
  | Num (x : fnum)
  | Str (s : string).

Definition report := list (string * value).

Fixpoint lookup_report (k : string) (r : report) : option value :=
  match r with
  | [] => None
  | (k', v) :: rest => if String.eqb k k' then Some v else lookup_report k rest
  end.

(** [df.tail(n)] *)
Definition tail {A : Type} (n : nat) (l : list A) : list A :=
  drop (length l - n) l.

(** [x if not pd.isna(x) else dflt] *)
Definition nan_to (dflt : Q) (x : fnum) : fnum :=
  if is_nan x then Fin dflt else x.

(** *** [detect_price_trends(data, window=5)] *)
Definition detect_price_trends (data : list candle) (window : nat) : report :=
  if (length data <? window)%nat || (length data =? 0)%nat then
    [("trend", Str "unknown"); ("strength", Num (Fin 0));
     ("support", Num (Fin 0)); ("resistance", Num (Fin 0))]
  else
    let closes := column close data in
    let sma := rolling_mean window closes in
    let '(trend, strength) :=
      if (window <? length data)%nat then
        let last_sma := iloc (-1) sma in
        let prev_sma := iloc (- Z.of_nat window) sma in
        if fgt last_sma prev_sma then
          ("uptrend",
           if fgt prev_sma (Fin 0)
           then py_min (Fin 1) (fmul (fdiv (fsub last_sma prev_sma) prev_sma) (Fin 5))
           else Fin (1 # 2))
        else if flt last_sma prev_sma then
          ("downtrend",
           if fgt prev_sma (Fin 0)
           then py_min (Fin 1) (fmul (fdiv (fsub prev_sma last_sma) prev_sma) (Fin 5))
           else Fin (1 # 2))
        else ("sideways", Fin (1 # 10))
      else ("unknown", Fin 0) in
    let recent_data := tail 20 data in
    let resistance := fmax_skipna (column high recent_data) in
    let support := fmin_skipna (column low recent_data) in
    let last_close := iloc (-1) closes in
    let resistance_distance :=
      if fgt last_close (Fin 0)
      then fmul (fdiv (fsub resistance last_close) last_close) (Fin 100)
      else Fin 0 in
    let support_distance :=
      if fgt last_close (Fin 0)
      then fmul (fdiv (fsub last_close support) last_close) (Fin 100)
      else Fin 0 in
    [("trend", Str trend); ("strength", Num strength);
     ("last_close", Num last_close); ("support", Num support);
     ("resistance", Num resistance);
     ("support_distance", Num support_distance);
     ("resistance_distance", Num resistance_distance)].

(** *** [detect_momentum(data)] *)

(** [df.sort_values('timestamp')].  pandas sorts with quicksort, which is
    not stable: rows with equal timestamps come out in an order that it does
    not specify.  Here they keep their order; a statement that depends on
    the order of the rows is made for distinct timestamps. *)
Definition sort_values_timestamp (data : list candle) : list candle :=
  Py.py_sorted timestamp data.

(** [delta.where(delta > 0, 0)] and [-delta.where(delta < 0, 0)] *)
Definition gains (delta : series) : series :=
  map (fun d => if fgt d (Fin 0) then d else Fin 0) delta.

Definition losses (delta : series) : series :=
  map (fun d => fneg (if flt d (Fin 0) then d else Fin 0)) delta.

(** [100 - (100 / (1 + rs))] with [rs = avg_gain / avg_loss], elementwise. *)
Definition rsi_series (closes : series) : series :=
  let delta := diff closes in
  let avg_gain := rolling_mean 14 (gains delta) in
  let avg_loss := rolling_mean 14 (losses delta) in
  let rs := zip_with fdiv avg_gain avg_loss in
  map (fun x => fsub (Fin 100) (fdiv (Fin 100) (fadd (Fin 1) x))) rs.

Definition detect_momentum (data : list candle) : report :=
  if (length data <? 14)%nat then
    [("rsi", Num (Fin 0)); ("momentum", Num (Fin 0))]
  else
    let df := sort_values_timestamp data in
    let closes := column close df in
    let rsi := rsi_series closes in
    let momentum :=
      if fgt (iloc (-10) closes) (Fin 0)
      then fdiv (fsub (iloc (-1) closes) (iloc (-10) closes)) (iloc (-10) closes)
      else Fin 0 in
    let ema12 := ewm_mean 12 closes in
    let ema26 := ewm_mean 26 closes in
    let macd := zip_with fsub ema12 ema26 in
    let signal := ewm_mean 9 macd in
    let histogram := zip_with fsub macd signal in
    let momentum_trend :=
      if fgt (iloc (-1) rsi) (Fin 70) then "overbought"
      else if flt (iloc (-1) rsi) (Fin 30) then "oversold"
      else if fgt (iloc (-1) rsi) (Fin 50) && fle (iloc (-2) rsi) (Fin 50)
           then "bullish_crossover"
      else if flt (iloc (-1) rsi) (Fin 50) && fge (iloc (-2) rsi) (Fin 50)
           then "bearish_crossover"
      else "neutral" in
    let macd_trend :=
      if fgt (iloc (-1) macd) (iloc (-1) signal)
         && fle (iloc (-2) macd) (iloc (-2) signal) then "bullish_crossover"
      else if flt (iloc (-1) macd) (iloc (-1) signal)
              && fge (iloc (-2) macd) (iloc (-2) signal) then "bearish_crossover"
      else if fgt (iloc (-1) macd) (Fin 0) then "bullish"
      else if flt (iloc (-1) macd) (Fin 0) then "bearish"
      else "neutral" in
    [("rsi", Num (nan_to 50 (iloc (-1) rsi)));
     ("macd", Num (nan_to 0 (iloc (-1) macd)));
     ("macd_signal", Num (nan_to 0 (iloc (-1) signal)));
     ("macd_histogram", Num (nan_to 0 (iloc (-1) histogram)));
     ("momentum", Num momentum);
     ("momentum_trend", Str momentum_trend);
     ("macd_trend", Str macd_trend)].

(** The loop of [detect_volume_trends]: for each period whose previous close
    is positive, the absolute relative price change and the volume. *)
Fixpoint price_volume_pairs (data : list candle) : list (fnum * fnum) :=
  match data with
  | c0 :: r =>
      match r with
      | c1 :: _ =>
          (if Qltb 0 (close c0)
           then [(Fin (Qabs (close c1 - close c0) / close c0), Fin (volume c1))]
           else [])
          ++ price_volume_pairs r
      | [] => []
      end
  | [] => []
  end.

Section Detectors.
Variable sqrtQ : Q -> Q.

(** *** [detect_volume_trends(data, window=5)] *)
Definition detect_volume_trends (data : list candle) (window : nat) : report :=
  if (length data <? window)%nat || (length data =? 0)%nat then
    [("trend", Str "unknown"); ("strength", Num (Fin 0))]
  else
    let volumes := column volume data in
    let volume_sma := rolling_mean window volumes in
    let '(trend, strength) :=
      if (window <? length data)%nat then
        let last_vol_sma := iloc (-1) volume_sma in
        let prev_vol_sma := iloc (- Z.of_nat window) volume_sma in
        if fgt last_vol_sma (fmul prev_vol_sma (Fin (12 # 10))) then
          ("increasing",
           if fgt prev_vol_sma (Fin 0)
           then py_min (Fin 1) (fdiv (fsub last_vol_sma prev_vol_sma) prev_vol_sma)
           else Fin (1 # 2))
        else if flt last_vol_sma (fmul prev_vol_sma (Fin (8 # 10))) then
          ("decreasing",
           if fgt prev_vol_sma (Fin 0)
           then py_min (Fin 1) (fdiv (fsub prev_vol_sma last_vol_sma) prev_vol_sma)
           else Fin (1 # 2))
        else ("stable", Fin (1 # 10))
      else ("unknown", Fin 0) in
    let pairs := price_volume_pairs data in
    let price_changes := map fst pairs in
    let vols := map snd pairs in
    let correlation :=
      if (5 <? length price_changes)%nat && (5 <? length vols)%nat
      then nan_to 0 (corrcoef sqrtQ price_changes vols)
      else Fin 0 in
    [("trend", Str trend); ("strength", Num strength);
     ("avg_volume", Num (mean_skipna volumes));
     ("price_volume_correlation", Num correlation)].

(** [df['close'].pct_change().dropna()] *)
Definition pct_change (s : series) : series :=
  zip_with (fun x prev => fsub (fdiv x prev) (Fin 1)) s (shift1 s).

Definition dropna (s : series) : series :=
  filter (fun x => is_nan x = false) s.

(** The true range column [df['tr']]: the row-wise maximum of high-low,
    |high - previous close| and |low - previous close|, NaN skipped. *)
Definition true_range (data : list candle) : series :=
  let prev_close := shift1 (column close data) in
  let hl := zip_with fsub (column high data) (column low data) in
  let hc := map fabs (zip_with fsub (column high data) prev_close) in
  let lc := map fabs (zip_with fsub (column low data) prev_close) in
  map (fun t => fmax_skipna [fst (fst t); snd (fst t); snd t])
      (combine (combine hl hc) lc).

(** *** [detect_volatility(data)] *)
Definition detect_volatility (data : list candle) : report :=
  if (length data <? 5)%nat then
    [("volatility", Num (Fin 0)); ("atr", Num (Fin 0))]
  else
    let closes := column close data in
    let returns := dropna (pct_change closes) in
    let volatility := fmul (std sqrtQ returns) (Fin (sqrtQ 252)) in
    let tr := true_range data in
    let atr := iloc (-1) (rolling_mean 14 tr) in
    let sma20 := iloc (-1) (rolling_mean 20 closes) in
    let std20 := iloc (-1) (rolling (window_std sqrtQ) 20 closes) in
    let upper_band := fadd sma20 (fmul std20 (Fin 2)) in
    let lower_band := fsub sma20 (fmul std20 (Fin 2)) in
    let last_close := iloc (-1) closes in
    let bb_position :=
      if fgt (fsub upper_band lower_band) (Fin 0)
      then fdiv (fsub last_close lower_band) (fsub upper_band lower_band)
      else Fin (1 # 2) in
    let recent_vol := iloc (-1) (rolling_mean 5 tr) in
    let older_vol :=
      if (19 <=? length data)%nat then iloc (-5) (rolling_mean 14 tr)
      else recent_vol in
    let vol_trend :=
      if fgt recent_vol (fmul older_vol (Fin (12 # 10))) then "increasing"
      else if flt recent_vol (fmul older_vol (Fin (8 # 10))) then "decreasing"
      else "stable" in
    [("volatility", Num (nan_to 0 volatility));
     ("atr", Num (nan_to 0 atr));
     ("bollinger_width",
      Num (if fgt sma20 (Fin 0)
           then fdiv (fsub upper_band lower_band) sma20 else Fin 0));
     ("bollinger_position", Num bb_position);
     ("volatility_trend", Str vol_trend)].

(** *** [analyze_all_trends(data)] *)
Record all_trends := AllTrends {
  price : report;
  volume_trends : report;
  momentum : report;
  volatility : report
}.

Definition analyze_all_trends (data : list candle) : all_trends :=
  AllTrends (detect_price_trends data 5) (detect_volume_trends data 5)
            (detect_momentum data) (detect_volatility data).
End Detectors.

(** A square root that is exact on the squares of rationals and rounds
    down to the grid of the denominator otherwise. *)
Definition sqrt_down (x : Q) : Q :=
  Z.sqrt (Qnum x * QDen x) # Qden x.

End Trend.

(** ** The periodic update: [update_market_data] of [main.py] *)

Module Radar.
Import Py Store.

(** One value of the dictionary built by [collect_all_crypto_data]: the
    price record, which is [{}] when the price request failed, and the
    candle lists by interval. *)
Record asset_data := AssetData {
  ad_price : pydict;
  ad_ohlc : list (string * list pydict)
}.

(** The arguments of the calls of [store_crypto_data] that the loops of
    [update_market_data] make, in the order of the calls. *)
Definition store_calls (market_data : list (string * asset_data))
  : list (string * string * pydict) :=
  flat_map
    (fun '(symbol, data) =>
       (match ad_price data with
        | [] => []                                   (* [if data.get('price')] *)
        | _ :: _ => [(symbol, "1m"%string, ad_price data)]
        end)
       ++ flat_map
            (fun '(interval, ohlc_data) =>
               map (fun candle => (symbol, interval, candle)) ohlc_data)
            (ad_ohlc data))
    market_data.

Section Update.
Variable json_dumps : pydict -> string.

(** The calls run one after the other; call number [n] of the update reads
    the clock as [clock n].  The first exception leaves the loops. *)
Fixpoint store_each (clock : nat -> Z) (n : nat)
    (calls : list (string * string * pydict)) : St DatabaseManager unit :=
  match calls with
  | [] => ret tt
  | (symbol, interval, data) :: rest =>
      store_crypto_data json_dumps (clock n) symbol interval data ;;;
      store_each clock (S n) rest
  end.

(** [update_market_data()], given what [collect_all_crypto_data] returned:
    [True], or [False] from the [except] branch. *)
Definition update_market_data (clock : nat -> Z)
    (market_data : list (string * asset_data))
  : DatabaseManager -> DatabaseManager * bool :=
  fun db =>
    match store_each clock 0 (store_calls market_data) db with
    | (db', Ok _) => (db', true)
    | (db', Raise _) => (db', false)
    end.

(** The calls as writes of a history. *)
Fixpoint writes_of (clock : nat -> Z) (n : nat)
    (calls : list (string * string * pydict)) : list write :=
  match calls with
  | [] => []
  | (symbol, interval, data) :: rest =>
      Write (clock n) symbol interval data :: writes_of clock (S n) rest
  end.

End Update.

End Radar.

(** ** Analysis results: [store_analysis_result] and [get_latest_analysis]
       of [database/db_manager.py] *)

Module Analysis.
Import Py Store.

(** A value of an analysis report: what [json] represents.  A [float] is
    carried by its [repr], as in [Py.pyval]. *)
#[warnings="-register-all"] Inductive jval :=
  | JInt (z : Z)
  | JStr (s : string)
  | JFloat (repr : string)
  | JBool (b : bool)
  | JNull
  | JList (l : list jval)
  | JDict (d : list (string * jval)).

(** The argument [analysis_data]: a [dict] in insertion order. *)
Definition report := list (string * jval).

(** [d.get(k, dflt)] *)
Fixpoint report_get (k : string) (dflt : jval) (d : report) : jval :=
  match d with
  | [] => dflt
  | (k', v) :: r => if String.eqb k k' then v else report_get k dflt r
  end.

(** [{**d, k: v}] *)
Fixpoint report_set (k : string) (v : jval) (d : report) : report :=
  match d with
  | [] => [(k, v)]
  | (k', v') :: r =>
      if String.eqb k k' then (k, v) :: r else (k', v') :: report_set k v r
  end.

(** What the calls can raise: an exception of a database client as in
    [Py.exn]; the refusal of [sqlite3] to bind a parameter, raised before the
    statement runs (a list or a dictionary is an unsupported type, an [int]
    outside 64 bits overflows); and the two failures of reading a stored
    document back. *)
Inductive error :=
  | DbError (e : exn)
  | BindingError
  | JSONDecodeError
  | TypeError.

Inductive outcome (A : Type) :=
  | Done (a : A)
  | Failed (e : error).
Arguments Done {A} a.
Arguments Failed {A} e.

(** The SQLite table [analysis_results] of [database/schema.py]. *)
Record analysis_row := AnalysisRow {
  a_analysis_id : string;
  a_timestamp : Z;
  a_title : pyval;
  a_summary : pyval;
  a_trends : string;
  a_data_json : string
}.

(** The manager together with the table [analysis_results] of its SQLite
    connection. *)
Record database := Database {
  manager : DatabaseManager;
  analysis_results : list analysis_row   (* rows in insertion order *)
}.

(** [sqlite3] binds this parameter of [cursor.execute]: numbers within 64
    bits, strings and [None] are bound, a list or a dictionary is refused. *)
Definition bindable (v : jval) : bool :=
  match v with
  | JInt z => fits_int64 z
  | JStr _ | JFloat _ | JBool _ | JNull => true
  | JList _ | JDict _ => false
  end.

(** The value that a [NOT NULL] column takes from a parameter of
    [cursor.execute], if the statement accepts it: a number within 64 bits
    or a string is stored ([True] and [False] as 1 and 0); a parameter that
    is not [bindable] is refused when it is bound, and [None] is bound as
    [NULL], which the column refuses. *)
Definition bind_parameter (v : jval) : option pyval :=
  match v with
  | JInt z => if fits_int64 z then Some (VInt z) else None
  | JStr s => Some (VStr s)
  | JFloat r => Some (VFloat r)
  | JBool b => Some (VInt (if b then 1 else 0))
  | JNull | JList _ | JDict _ => None
  end.

Definition timeline : string := "analysis:timeline".

Section Codec.
(** [json.dumps], and [json.loads] with [None] for [JSONDecodeError]. *)
Variable json_dumps : jval -> string.
Variable json_loads : string -> option jval.

(** The loop that prepares the Redis mapping: lists and dictionaries are
    replaced by their JSON text, every other value stays as it is. *)
Definition redis_mapping (analysis_with_timestamp : report) : pydict :=
  map (fun '(k, v) =>
         (k, match v with
             | JList _ | JDict _ => VStr (json_dumps v)
             | JInt z => VInt z
             | JStr s => VStr s
             | JFloat r => VFloat r
             | JBool b => VBool b
             | JNull => VNone
             end))
      analysis_with_timestamp.

(** [store_analysis_result(analysis_data)], called when the clock reads
    [now], a reading of [int(time.time())] and as such within 64 bits. *)
Definition store_analysis_result (now : Z) (analysis_data : report)
  : database -> database * outcome unit :=
  fun db =>
    let timestamp := now in
    let analysis_id := "analysis_" +:+ pretty timestamp in
    if use_redis (manager db) then
      let key := "analysis:" +:+ analysis_id in
      let analysis_with_timestamp :=
        report_set "timestamp" (JInt timestamp) analysis_data in
      let mapping := redis_mapping analysis_with_timestamp in
      match (on_redis (hset redis_encode now key mapping) ;;;
             on_redis (expire now key (60 * 60 * 24 * 30)) ;;;
             on_redis (zadd now timeline analysis_id timestamp)) (manager db) with
      | (m, Ok _) => (Database m (analysis_results db), Done tt)
      | (m, Raise e) => (Database m (analysis_results db), Failed (DbError e))
      end
    else
      let title := report_get "title" (JStr EmptyString) analysis_data in
      let summary := report_get "summary" (JStr EmptyString) analysis_data in
      match bind_parameter title, bind_parameter summary with
      | Some title, Some summary =>
          if existsb (fun row => String.eqb (a_analysis_id row) analysis_id)
                     (analysis_results db)                 (* [analysis_id TEXT UNIQUE] *)
          then (db, Failed (DbError IntegrityError))
          else
            (Database (manager db)
               (analysis_results db ++
                [AnalysisRow analysis_id timestamp title summary
                   (json_dumps (report_get "trends" (JList []) analysis_data))
                   (json_dumps (JDict analysis_data))]),
             Done tt)
      | _, _ =>
          if forallb bindable [title; summary]
          then (db, Failed (DbError IntegrityError))   (* [NOT NULL] *)
          else (db, Failed BindingError)
      end.

(** The loop over the fields read from Redis: a value that parses as JSON
    is replaced by what it parses to, any other stays a string. *)
Definition parse_field (v : string) : jval :=
  match json_loads v with
  | Some j => j
  | None => JStr v
  end.

(** [get_latest_analysis()], called when the clock reads [now].  The
    returned [dict] is a finite map: dictionaries are compared up to the
    order of their keys. *)
Definition get_latest_analysis (now : Z) (db : database)
  : outcome (option (gmap string jval)) :=
  if use_redis (manager db) then
    match zrevrange now timeline 0 0 (redis_client (manager db)) with
    | Raise e => Failed (DbError e)
    | Ok [] => Done None
    | Ok ((analysis_id, _) :: _) =>
        match hgetall now ("analysis:" +:+ analysis_id) (redis_client (manager db)) with
        | Raise e => Failed (DbError e)
        | Ok analysis_data => Done (Some (parse_field <$> analysis_data))
        end
    end
  else
    (* [ORDER BY timestamp DESC LIMIT 1] *)
    match isort (fun a b => a_timestamp b <=? a_timestamp a) (analysis_results db) with
    | [] => Done None
    | row :: _ =>
        match json_loads (a_data_json row) with
        | None => Failed JSONDecodeError
        | Some (JDict d) =>
            Done (Some (<["timestamp"%string := JInt (a_timestamp row)]>
                          (list_to_map (rev d))))
        | Some _ => Failed TypeError
        end
    end.

End Codec.

End Analysis.

(** ** A JSON codec for report values: [json.dumps] and [json.loads] on
       ASCII documents *)

Module JsonValue.
Import Py Analysis.

Fixpoint join (sep : string) (parts : list string) : string :=
  match parts with
  | [] => EmptyString
  | [part] => part
  | part :: rest => part +:+ sep +:+ join sep rest
  end.

(** [json.dumps(v)] with the default separators.  The floats that have no
    JSON literal are written as Python writes them. *)
Fixpoint dumps (v : jval) : string :=
  match v with
  | JInt z => pretty z
  | JStr s => Json.quoted s
  | JFloat r =>
      if String.eqb r "nan" then "NaN"
      else if String.eqb r "inf" then "Infinity"
      else if String.eqb r "-inf" then "-Infinity"
      else r
  | JBool true => "true"
  | JBool false => "false"
  | JNull => "null"
  | JList l => "[" +:+ join ", " (map dumps l) +:+ "]"
  | JDict d =>
      "{" +:+ join ", " (map (fun '(k, x) => Json.quoted k +:+ ": " +:+ dumps x) d)
          +:+ "}"
  end.

(** Space, tab, line feed and carriage return. *)
Definition is_space (c : ascii) : bool :=
  let n := nat_of_ascii c in
  Nat.eqb n 32 || Nat.eqb n 9 || Nat.eqb n 10 || Nat.eqb n 13.

Fixpoint skip_spaces (s : string) : string :=
  match s with
  | String c r => if is_space c then skip_spaces r else s
  | EmptyString => s
  end.

Fixpoint span_digits (s : string) : string * string :=
  match s with
  | String c r =>
      match Json.digit_of c with
      | Some _ => let '(digits, rest) := span_digits r in (String c digits, rest)
      | None => (EmptyString, s)
      end
  | EmptyString => (EmptyString, EmptyString)
  end.

(** The exponent of a number, if any, and nothing after it. *)
Definition exponent_ok (s : string) : bool :=
  match s with
  | EmptyString => true
  | String c r =>
      if Ascii.eqb c "e" || Ascii.eqb c "E" then
        let digits :=
          match r with
          | String sign r' =>
              if Ascii.eqb sign "+" || Ascii.eqb sign "-" then r' else r
          | EmptyString => r
          end in
        match span_digits digits with
        | (String _ _, EmptyString) => true
        | _ => false
        end
      else false
  end.

(** A number token: an optional minus sign, an integer part without a
    leading zero, then optionally a fraction and an exponent.  An integer
    literal gives the integer, any other the float, carried as it is
    written. *)
Definition number_of_token (tok : string) : option jval :=
  let body := match tok with String "-" body => body | _ => tok end in
  match span_digits body with
  | (EmptyString, _) => None
  | (String first more as whole, rest) =>
      if Ascii.eqb first "0" && negb (String.eqb more EmptyString) then None
      else
        match rest with
        | EmptyString => option_map JInt (Json.int_of_token tok)
        | String "." fraction =>
            match span_digits fraction with
            | (String _ _, rest') => if exponent_ok rest' then Some (JFloat tok) else None
            | (EmptyString, _) => None
            end
        | _ => if exponent_ok rest then Some (JFloat tok) else None
        end
  end.

Definition hex_of (c : ascii) : option nat :=
  let n := nat_of_ascii c in
  if (48 <=? n)%nat && (n <=? 57)%nat then Some (n - 48)%nat
  else if (65 <=? n)%nat && (n <=? 70)%nat then Some (n - 55)%nat
  else if (97 <=? n)%nat && (n <=? 102)%nat then Some (n - 87)%nat
  else None.

(** The body of a string up to its closing quote, with the escapes of JSON;
    a control character, an unknown escape or a missing quote is an error.
    An escape [\uXXXX] is read when it names an ASCII character. *)
Fixpoint string_body (s acc : string) : option (string * string) :=
  match s with
  | EmptyString => None
  | String c r =>
      if Ascii.eqb c Json.dquote then Some (acc, r)
      else if (nat_of_ascii c <? 32)%nat then None
      else if Ascii.eqb c Json.bslash then
        match r with
        | String e r' =>
            let plain (c' : ascii) := string_body r' (acc +:+ String c' EmptyString) in
            if Ascii.eqb e Json.dquote then plain Json.dquote
            else if Ascii.eqb e Json.bslash then plain Json.bslash
            else if Ascii.eqb e "/" then plain "/"%char
            else if Ascii.eqb e "b" then plain (ascii_of_nat 8)
            else if Ascii.eqb e "f" then plain (ascii_of_nat 12)
            else if Ascii.eqb e "n" then plain (ascii_of_nat 10)
            else if Ascii.eqb e "r" then plain (ascii_of_nat 13)
            else if Ascii.eqb e "t" then plain (ascii_of_nat 9)
            else if Ascii.eqb e "u" then
              match r' with
              | String h1 (String h2 (String h3 (String h4 r''))) =>
                  match hex_of h1, hex_of h2, hex_of h3, hex_of h4 with
                  | Some 0%nat, Some 0%nat, Some a, Some b =>
                      if (a <? 8)%nat
                      then string_body r'' (acc +:+ String (ascii_of_nat (16 * a + b)) EmptyString)
                      else None
                  | _, _, _, _ => None
                  end
              | _ => None
              end
            else None
        | EmptyString => None
        end
      else string_body r (acc +:+ String c EmptyString)
  end.

(** One value at the head of the input, and the rest of the input.  The
    fuel bounds the depth of the calls; each call reads a character. *)
Fixpoint value (fuel : nat) (s : string) {struct fuel} : option (jval * string) :=
  match fuel with
  | O => None
  | S fuel =>
      match skip_spaces s with
      | EmptyString => None
      | String c r as input =>
          if Ascii.eqb c Json.dquote then
            match string_body r EmptyString with
            | Some (body, rest) => Some (JStr body, rest)
            | None => None
            end
          else if Ascii.eqb c "[" then
            match skip_spaces r with
            | String "]" rest => Some (JList [], rest)
            | _ => elements fuel r []
            end
          else if Ascii.eqb c "{" then
            match skip_spaces r with
            | String "}" rest => Some (JDict [], rest)
            | _ => members fuel r []
            end
          else
            match Json.after_literal "true" input, Json.after_literal "false" input,
                  Json.after_literal "null" input, Json.after_literal "NaN" input,
                  Json.after_literal "Infinity" input,
                  Json.after_literal "-Infinity" input with
            | Some rest, _, _, _, _, _ => Some (JBool true, rest)
            | _, Some rest, _, _, _, _ => Some (JBool false, rest)
            | _, _, Some rest, _, _, _ => Some (JNull, rest)
            | _, _, _, Some rest, _, _ => Some (JFloat "nan", rest)
            | _, _, _, _, Some rest, _ => Some (JFloat "inf", rest)
            | _, _, _, _, _, Some rest => Some (JFloat "-inf", rest)
            | _, _, _, _, _, _ =>
                let '(tok, rest) := Json.take_number input in
                match number_of_token tok with
                | Some v => Some (v, rest)
                | None => None
                end
            end
      end
  end
with elements (fuel : nat) (s : string) (acc : list jval) {struct fuel}
  : option (jval * string) :=
  match fuel with
  | O => None
  | S fuel =>
      match value fuel s with
      | Some (v, rest) =>
          match skip_spaces rest with
          | String "," rest' => elements fuel rest' (acc ++ [v])
          | String "]" rest' => Some (JList (acc ++ [v]), rest')
          | _ => None
          end
      | None => None
      end
  end
with members (fuel : nat) (s : string) (acc : report) {struct fuel}
  : option (jval * string) :=
  match fuel with
  | O => None
  | S fuel =>
      match skip_spaces s with
      | String c r =>
          if Ascii.eqb c Json.dquote then
            match string_body r EmptyString with
            | Some (k, rest) =>
                match skip_spaces rest with
                | String ":" rest' =>
                    match value fuel rest' with
                    | Some (v, rest'') =>
                        (* a repeated key keeps its place and takes the later value *)
                        match skip_spaces rest'' with
                        | String "," rest3 => members fuel rest3 (report_set k v acc)
                        | String "}" rest3 => Some (JDict (report_set k v acc), rest3)
                        | _ => None
                        end
                    | None => None
                    end
                | _ => None
                end
            | None => None
            end
          else None
      | EmptyString => None
      end
  end.

(** [json.loads(s)], [None] for [JSONDecodeError]: one value and nothing
    but spaces after it. *)
Definition loads (s : string) : option jval :=
  match value (S (String.length s)) s with
  | Some (v, rest) =>
      match skip_spaces rest with
      | EmptyString => Some v
      | String _ _ => None
      end
  | None => None
  end.

End JsonValue.

(** ** News items: [store_news_data] and [get_news_data] of
       [database/db_manager.py]

    [get_news_data] is modelled for its default filter arguments,
    [category=None] and [asset=None]. *)

Module News.
Import Py Store Analysis.

(** What the calls can raise. *)
Inductive failure :=
  | Db (e : exn)       (* an exception of a database client *)
  | Binding            (* sqlite3 refuses to bind a parameter *)
  | PyTypeError        (* TypeError: a value that is not iterable or takes no item *)
  | BadJson            (* json.JSONDecodeError *)
  | BadInt.            (* ValueError from int() *)

Inductive result (A : Type) :=
  | Returned (a : A)
  | Raised (f : failure).
Arguments Returned {A} a.
Arguments Raised {A} f.

(** The SQLite tables [news_data], [news_categories] and [news_assets] of
    [database/schema.py].  A [TEXT] column holds the text of what was bound
    to it. *)
Record news_row := NewsRow {
  n_news_id : string;
  n_source : string;
  n_title : pyval;
  n_content : pyval;
  n_url : pyval;
  n_timestamp : Z;
  n_data_json : string
}.

Record database := Database {
  manager : DatabaseManager;
  news_data_table : list news_row;                   (* rows in insertion order *)
  news_categories_table : list (string * string);    (* (news_id, category) *)
  news_assets_table : list (string * string)         (* (news_id, asset) *)
}.

(** How redis-py encodes a value of the item, a key of a sorted set or a
    member of a set: numbers and strings are encoded, every other value is
    refused with [DataError].  For these values the text is also what [str]
    and an f-string give. *)
Definition news_encode (v : jval) : option string :=
  match v with
  | JInt z => Some (pretty z)
  | JStr s => Some s
  | JFloat r => Some r
  | JBool _ | JNull | JList _ | JDict _ => None
  end.

(** The text that a [TEXT] column holds for a bound value; a float is taken
    in its [repr]. *)
Definition column_text (v : pyval) : string :=
  match v with
  | VInt z => pretty z
  | VStr s => s
  | VFloat r => r
  | VBool b => if b then "1" else "0"
  | VNone => EmptyString
  end.

(** The characters of a string, each as a string. *)
Fixpoint characters (s : string) : list string :=
  match s with
  | EmptyString => []
  | String c r => String c EmptyString :: characters r
  end.

(** [for x in v]: the items of a list, the characters of a string, the keys
    of a dictionary; any other value is not iterable. *)
Definition iterate (v : jval) : option (list jval) :=
  match v with
  | JList l => Some l
  | JStr s => Some (map JStr (characters s))
  | JDict d => Some (map (fun kv => JStr (fst kv)) d)
  | JInt _ | JFloat _ | JBool _ | JNull => None
  end.

(** [d.get(k)] *)
Fixpoint report_lookup (k : string) (d : report) : option jval :=
  match d with
  | [] => None
  | (k', v) :: r => if String.eqb k k' then Some v else report_lookup k r
  end.

Definition with_manager (m : DatabaseManager) (db : database) : database :=
  Database m (news_data_table db) (news_categories_table db) (news_assets_table db).

(** One loop of the Redis path: [SADD prefix{name} news_id] for each name. *)
Fixpoint sadd_each (now : Z) (prefix : string) (names : list string) (news_id : string)
  : St DatabaseManager unit :=
  match names with
  | [] => ret tt
  | name :: rest =>
      on_redis (sadd now (prefix +:+ name) news_id) ;;;
      sadd_each now prefix rest news_id
  end.

(** The names that a loop of the Redis path goes through.  The loop is
    reached after [hset] has taken the item, whose values are then numbers
    and strings: a string gives its characters and a number is not iterable;
    a missing key gives the empty default. *)
Definition index_names (v : option jval) : option (list string) :=
  match v with
  | None => Some []
  | Some (JStr s) => Some (characters s)
  | Some _ => None
  end.

(** One loop of the SQLite path: [INSERT INTO table (news_id, value)] for
    each item, under [NOT NULL] and [UNIQUE(news_id, value)].  The rows
    inserted before an exception stay in the open transaction. *)
Fixpoint insert_each (news_id : string) (items : list jval)
    (table : list (string * string)) : list (string * string) * result unit :=
  match items with
  | [] => (table, Returned tt)
  | item :: rest =>
      if negb (bindable item) then (table, Raised Binding)
      else
        match bind_parameter item with
        | None => (table, Raised (Db IntegrityError))            (* [NOT NULL] *)
        | Some v =>
            let row := (news_id, column_text v) in
            if existsb (fun r => String.eqb (fst r) (fst row) && String.eqb (snd r) (snd row))
                       table
            then (table, Raised (Db IntegrityError))             (* [UNIQUE] *)
            else insert_each news_id rest (table ++ [row])
        end
  end.

Definition timeline : string := "news:timeline".

Section Codec.
(** [json.dumps], and [json.loads] with [None] for [JSONDecodeError]. *)
Variable json_dumps : jval -> string.
Variable json_loads : string -> option jval.

(** [store_news_data(source, news_data)], called when the clock reads
    [now]. *)
Definition store_news_data (now : Z) (source : string) (news_data : report)
  : database -> database * result unit :=
  fun db =>
    let timestamp := now in
    let news_id :=
      report_get "id" (JStr (source +:+ "_" +:+ pretty timestamp)) news_data in
    if use_redis (manager db) then
      let news_with_timestamp :=
        report_set "source" (JStr source)
          (report_set "timestamp" (JInt timestamp) news_data) in
      match news_encode news_id with
      | None =>
          (* the identifier is a value of the mapping, which [hset] refuses
             before any command is sent *)
          (db, Raised (Db DataError))
      | Some id =>
          let key := "news:" +:+ id in
          match (on_redis (hset news_encode now key news_with_timestamp) ;;;
                 on_redis (expire now key (60 * 60 * 24 * 7)) ;;;
                 on_redis (zadd now timeline id timestamp)) (manager db) with
          | (m, Raise e) => (with_manager m db, Raised (Db e))
          | (m, Ok _) =>
              match index_names (report_lookup "categories" news_data) with
              | None => (with_manager m db, Raised PyTypeError)
              | Some categories =>
                  match sadd_each now "news:category:" categories id m with
                  | (m, Raise e) => (with_manager m db, Raised (Db e))
                  | (m, Ok _) =>
                      match index_names (report_lookup "related_assets" news_data) with
                      | None => (with_manager m db, Raised PyTypeError)
                      | Some assets =>
                          match sadd_each now "news:asset:" assets id m with
                          | (m, Raise e) => (with_manager m db, Raised (Db e))
                          | (m, Ok _) => (with_manager m db, Returned tt)
                          end
                      end
                  end
              end
          end
      end
    else
      let title := report_get "title" (JStr EmptyString) news_data in
      let content := report_get "content" (JStr EmptyString) news_data in
      let url := report_get "url" (JStr EmptyString) news_data in
      if negb (forallb bindable [news_id; title; content; url])
      then (db, Raised Binding)
      else
        match bind_parameter news_id, bind_parameter title,
              bind_parameter content, bind_parameter url with
        | Some id, Some title, Some content, Some url =>
            let id := column_text id in
            if existsb (fun row => String.eqb (n_news_id row) id) (news_data_table db)
            then (db, Raised (Db IntegrityError))              (* [news_id TEXT UNIQUE] *)
            else
              let rows :=
                news_data_table db ++
                [NewsRow id source title content url timestamp
                         (json_dumps (JDict news_data))] in
              match iterate (report_get "categories" (JList []) news_data) with
              | None =>
                  (Database (manager db) rows (news_categories_table db) (news_assets_table db),
                   Raised PyTypeError)
              | Some categories =>
                  match insert_each id categories (news_categories_table db) with
                  | (cats, Raised f) =>
                      (Database (manager db) rows cats (news_assets_table db), Raised f)
                  | (cats, Returned _) =>
                      match iterate (report_get "related_assets" (JList []) news_data) with
                      | None => (Database (manager db) rows cats (news_assets_table db),
                                 Raised PyTypeError)
                      | Some assets =>
                          match insert_each id assets (news_assets_table db) with
                          | (asts, outcome) =>
                              (Database (manager db) rows cats asts, outcome)
                          end
                      end
                  end
              end
        | _, _, _, _ => (db, Raised (Db IntegrityError))       (* [NOT NULL] *)
        end.

(** [l[:limit]] *)
Definition up_to {A : Type} (limit : Z) (l : list A) : list A :=
  if limit <? 0 then take (length l - Z.to_nat (- limit)) l
  else take (Z.to_nat limit) l.

(** [int(text)] on the text of an integer, which is all that
    [store_news_data] writes under [timestamp]. *)
Definition py_int (text : string) : option Z :=
  match text with
  | String "+" digits => if String.eqb digits EmptyString then None
                         else match digits with
                              | String "-" _ => None
                              | _ => Json.int_of_token digits
                              end
  | _ => Json.int_of_token text
  end.

(** The conversions that the Redis path applies to one hash. *)
Definition convert (fields : gmap string string) : result (gmap string jval) :=
  let item : gmap string jval := JStr <$> fields in
  match (match fields !! "timestamp" with
         | None => Returned item
         | Some text =>
             match py_int text with
             | Some z => Returned (<["timestamp" := JInt z]> item)
             | None => Raised BadInt
             end
         end) with
  | Raised f => Raised f
  | Returned item =>
      match (match fields !! "categories" with
             | None => Returned item
             | Some text =>
                 match json_loads text with
                 | Some v => Returned (<["categories" := v]> item)
                 | None => Raised BadJson
                 end
             end) with
      | Raised f => Raised f
      | Returned item =>
          match fields !! "related_assets" with
          | None => Returned item
          | Some text =>
              match json_loads text with
              | Some v => Returned (<["related_assets" := v]> item)
              | None => Raised BadJson
              end
          end
      end
  end.

(** The loop of the Redis path over the identifiers: a hash that is gone
    is skipped. *)
Fixpoint load_each (now : Z) (news_ids : list string) (r : redis)
  : result (list (gmap string jval)) :=
  match news_ids with
  | [] => Returned []
  | news_id :: rest =>
      match hgetall now ("news:" +:+ news_id) r with
      | Raise e => Raised (Db e)
      | Ok fields =>
          match (if decide (fields = ∅) then Returned None
                 else match convert fields with
                      | Returned item => Returned (Some item)
                      | Raised f => Raised f
                      end) with
          | Raised f => Raised f
          | Returned item =>
              match load_each now rest r with
              | Raised f => Raised f
              | Returned items =>
                  Returned (match item with Some i => i :: items | None => items end)
              end
          end
      end
  end.

(** The sort key [x.get("timestamp", 0)] on the Redis path, where the field
    is an integer when it is there. *)
Definition timestamp_key (item : gmap string jval) : Z :=
  match item !! "timestamp" with
  | Some (JInt z) => z
  | _ => 0
  end.

(** [text.split(",")] *)
Fixpoint split_comma (text : string) (current : string) : list string :=
  match text with
  | EmptyString => [current]
  | String c rest =>
      if Ascii.eqb c ","
      then current :: split_comma rest EmptyString
      else split_comma rest (current +:+ String c EmptyString)
  end.

(** [GROUP_CONCAT(DISTINCT value)] over the rows of one identifier: [None]
    for [NULL], when there is no row.  SQLite does not specify the order of
    the values; here it is the order of insertion. *)
Definition group_concat (news_id : string) (table : list (string * string))
  : option string :=
  match map snd (filter (fun r => fst r = news_id) table) with
  | [] => None
  | values => Some (JsonValue.join "," values)
  end.

(** What the SQLite path makes of one row of the result. *)
Definition of_row (row : news_row) (categories related_assets : option string)
  : result (gmap string jval) :=
  match json_loads (n_data_json row) with
  | None => Raised BadJson
  | Some (JDict d) =>
      let item : gmap string jval :=
        <["timestamp" := JInt (n_timestamp row)]> (list_to_map (rev d)) in
      let item :=
        match categories with
        | Some (String _ _ as text) =>
            <["categories" := JList (map JStr (split_comma text EmptyString))]> item
        | _ => item
        end in
      let item :=
        match related_assets with
        | Some (String _ _ as text) =>
            <["related_assets" := JList (map JStr (split_comma text EmptyString))]> item
        | _ => item
        end in
      Returned item
  | Some _ => Raised PyTypeError
  end.

Fixpoint of_rows (rows : list news_row) (db : database)
  : result (list (gmap string jval)) :=
  match rows with
  | [] => Returned []
  | row :: rest =>
      match of_row row (group_concat (n_news_id row) (news_categories_table db))
                   (group_concat (n_news_id row) (news_assets_table db)) with
      | Raised f => Raised f
      | Returned item =>
          match of_rows rest db with
          | Raised f => Raised f
          | Returned items => Returned (item :: items)
          end
      end
  end.

(** [get_news_data(limit)], called when the clock reads [now].  A returned
    [dict] is a finite map.  On the SQLite path the limit is taken within
    the 64-bit range that [sqlite3] binds, a negative [LIMIT] is no limit,
    and rows with equal timestamps, whose order SQLite does not specify,
    come in the order of insertion. *)
Definition get_news_data (now : Z) (limit : Z) (db : database)
  : result (list (gmap string jval)) :=
  if use_redis (manager db) then
    match zrevrange now timeline 0 (limit - 1) (redis_client (manager db)) with
    | Raise e => Raised (Db e)
    | Ok news_with_ts =>
        let news_ids := up_to limit (map fst news_with_ts) in
        match load_each now news_ids (redis_client (manager db)) with
        | Raised f => Raised f
        | Returned items =>
            (* [sorted(..., reverse=True)] keeps the order of equal keys *)
            Returned (isort (fun a b => timestamp_key b <=? timestamp_key a) items)
        end
    end
  else
    let ordered := isort (fun a b => n_timestamp b <=? n_timestamp a) (news_data_table db) in
    let rows := if limit <? 0 then ordered else take (Z.to_nat limit) ordered in
    of_rows rows db.

End Codec.

End News.

(** ** The Binance client: [BinanceWebSocketClient] of
       [data_collectors/websocket_handler.py] *)

Module Binance.

(** [str.lower()] on ASCII letters; every other character is kept. *)
Definition lower_ascii (c : ascii) : ascii :=
  let n := nat_of_ascii c in
  if (65 <=? n)%nat && (n <=? 90)%nat then ascii_of_nat (n + 32) else c.

Fixpoint lower (s : string) : string :=
  match s with
  | EmptyString => EmptyString
  | String c r => String (lower_ascii c) (lower r)
  end.

(** The fields of the client that the stream methods use; [ws_manager] is
    the manager together with its threads. *)
Record client := Client {
  symbols : list string;
  ws_manager : Stream.state;
  active_streams : gset string
}.

(** One round of the loop over the symbols: a stream whose name is active
    is skipped, any other is added with the default reconnect interval. *)
Definition start_stream (stream_name : string) (c : client) : client :=
  if decide (stream_name ∈ active_streams c) then c
  else Client (symbols c)
              (Stream.add_connection stream_name 30 (ws_manager c))
              ({[stream_name]} ∪ active_streams c).

(** [start_ticker_stream()] *)
Definition start_ticker_stream (c : client) : client :=
  fold_left
    (fun c symbol => start_stream ("ticker_" +:+ lower symbol +:+ "usdt") c)
    (symbols c) c.

(** [start_kline_stream(interval)] *)
Definition start_kline_stream (interval : string) (c : client) : client :=
  fold_left
    (fun c symbol =>
       start_stream ("kline_" +:+ lower symbol +:+ "usdt_" +:+ interval) c)
    (symbols c) c.

(** [stop()] *)
Definition stop (c : client) : client :=
  Client (symbols c) (Stream.close_all (ws_manager c)) ∅.

End Binance.

(** * Proofs about the store *)

Module StoreProofs.
Import Py Store.

(** ** The insertion sort behind [sorted] and the range commands *)

Section Isort.
Context {A : Type} (leb : A -> A -> bool).

Lemma insert_sorted_perm x l : insert_sorted leb x l ≡ₚ x :: l.
Proof.
  induction l as [|y r IH]; simpl; [done|].
  destruct (leb x y); [done|].
  rewrite IH. apply Permutation_swap.
Qed.

Lemma isort_perm l : isort leb l ≡ₚ l.
Proof.
  induction l as [|x r IH]; simpl; [done|].
  by rewrite insert_sorted_perm, IH.
Qed.

Lemma isort_length l : length (isort leb l) = length l.
Proof. apply Permutation_length, isort_perm. Qed.

Lemma isort_elem x l : x ∈ isort leb l ↔ x ∈ l.
Proof. by rewrite isort_perm. Qed.

Hypothesis leb_total : ∀ a b, leb a b = false → leb b a = true.

Lemma insert_sorted_Sorted x l :
  Sorted (λ a b, leb a b = true) l →
  Sorted (λ a b, leb a b = true) (insert_sorted leb x l).
Proof.
  induction 1 as [|y r Hr IH Hhd]; simpl.
  - repeat constructor.
  - destruct (leb x y) eqn:E.
    + constructor; [by constructor|by constructor].
    + constructor; [done|].
      destruct Hhd as [|z r' Hyz]; simpl.
      * constructor. by apply leb_total.
      * destruct (leb x z); constructor; auto.
Qed.

Lemma isort_Sorted l : Sorted (λ a b, leb a b = true) (isort leb l).
Proof.
  induction l as [|x r IH]; simpl; [constructor|].
  by apply insert_sorted_Sorted.
Qed.
End Isort.

(** If [x] beats every other element, it comes first. *)
Lemma isort_head {A} (leb : A → A → bool) (x : A) l :
  leb x x = true →
  (∀ y, y ∈ l → y = x ∨ (leb x y = true ∧ leb y x = false)) →
  x ∈ l → ∃ r, isort leb l = x :: r.
Proof.
  intros Hxx. induction l as [|a l IH]; intros Hall Hin.
  - by apply elem_of_nil in Hin.
  - simpl. destruct (isort leb l) as [|y r] eqn:E.
    + assert (l = []) as ->.
      { apply length_zero_iff_nil. by rewrite <- (isort_length leb), E. }
      apply list_elem_of_singleton in Hin as ->. by eexists.
    + assert (y ∈ l) as Hy.
      { apply (isort_elem leb). rewrite E. left. }
      destruct (Hall a) as [->|[Hxa Hax]]; [left|..].
      * simpl. destruct (Hall y) as [->|[H1 _]]; [by right|..].
        -- rewrite Hxx. by eexists.
        -- rewrite H1. by eexists.
      * assert (x ∈ l) as Hx.
        { apply elem_of_cons in Hin as [->|]; [congruence|done]. }
        destruct IH as [r' Hr']; [intros; apply Hall; by right|done|].
        simplify_eq. simpl. rewrite Hax. by eexists.
Qed.



Lemma py_sorted_perm {A} (key : A → Z) l : py_sorted key l ≡ₚ l.
Proof. apply isort_perm. Qed.

Lemma py_sorted_Sorted {A} (key : A → Z) l :
  Sorted Z.le (map key (py_sorted key l)).
Proof.
  unfold py_sorted.
  assert (Sorted (λ a b, (key a <=? key b) = true) (isort (λ a b, key a <=? key b) l)) as H.
  { apply isort_Sorted. intros a b. rewrite Z.leb_gt, Z.leb_le. lia. }
  induction H as [|x r Hr IH Hhd]; simpl; constructor; [done|].
  destruct Hhd; simpl; constructor. by apply Z.leb_le.
Qed.

(** ** Redis commands on a well-typed keyspace *)

Lemma ttl_of_pos interval : 0 < ttl_of interval.
Proof.
  unfold ttl_of, ttl_multiplier. simpl.
  repeat (destruct (String.eqb interval _); [lia|]). lia.
Qed.

Lemma crypto_key_not_ts_key s i s' i' : crypto_key s i ≠ ts_key s' i'.
Proof. unfold crypto_key, ts_key. simpl. discriminate. Qed.

(** The live sorted set under a key, empty when the key is absent. *)
Definition live_zset (now : Z) (key : string) (r : redis) : gmap string Z :=
  match rlookup now key r with
  | Some (REntry (RZset z) _) => z
  | _ => ∅
  end.

(** Keys of the form [crypto:...] hold hashes, keys [ts:crypto:...] hold
    sorted sets, and there are no other keys. *)
Definition redis_typed (r : redis) : Prop :=
  ∀ k e, r !! k = Some e →
    match rval e with
    | RHash _ => ∃ s i, k = crypto_key s i
    | RZset _ => ∃ s i, k = ts_key s i
    | RSet _ => False
    end.

Lemma redis_typed_empty : redis_typed ∅.
Proof. intros k e H. by rewrite lookup_empty in H. Qed.

Lemma redis_typed_insert_hash r s i h d :
  redis_typed r → redis_typed (<[crypto_key s i := REntry (RHash h) d]> r).
Proof.
  intros Hr k e. rewrite lookup_insert. case_decide; [|by apply Hr].
  intros [= <-]; subst; simpl; eauto.
Qed.

Lemma redis_typed_insert_zset r s i z d :
  redis_typed r → redis_typed (<[ts_key s i := REntry (RZset z) d]> r).
Proof.
  intros Hr k e. rewrite lookup_insert. case_decide; [|by apply Hr].
  intros [= <-]; subst; simpl; eauto.
Qed.

Lemma rlookup_insert_ne now k k' e (r : redis) :
  k ≠ k' → rlookup now k' (<[k := e]> r) = rlookup now k' r.
Proof. intros. unfold rlookup. by rewrite lookup_insert_ne. Qed.

Lemma rlookup_insert_eq now k e (r : redis) :
  rlookup now k (<[k := e]> r) = if expired now e then None else Some e.
Proof. unfold rlookup. by rewrite lookup_insert_eq. Qed.

Lemma rlookup_Some now k (r : redis) e :
  rlookup now k r = Some e → r !! k = Some e ∧ expired now e = false.
Proof.
  unfold rlookup. destruct (r !! k) as [e'|]; [|done].
  destruct (expired now e') eqn:E; [done|]. by intros [= ->].
Qed.

Lemma typed_hash_key r now s i e :
  redis_typed r → rlookup now (crypto_key s i) r = Some e → ∃ h, rval e = RHash h.
Proof.
  intros Hr [H _]%rlookup_Some. apply Hr in H.
  destruct (rval e); [by eexists| |done].
  destruct H as (s' & i' & H). by apply crypto_key_not_ts_key in H.
Qed.

Lemma typed_zset_key r now s i e :
  redis_typed r → rlookup now (ts_key s i) r = Some e → ∃ z, rval e = RZset z.
Proof.
  intros Hr [H _]%rlookup_Some. apply Hr in H.
  destruct (rval e); [|by eexists|done].
  destruct H as (s' & i' & H). symmetry in H. by apply crypto_key_not_ts_key in H.
Qed.

Lemma zrange_slice_nil {A} start stop : @zrange_slice A start stop [] = [].
Proof.
  unfold zrange_slice. simpl.
  destruct (_ || _); [done|]. by destruct (Z.to_nat _), (Z.to_nat _).
Qed.

(** From index 0, a stop of [limit - 1] keeps the first [limit] elements. *)
Lemma zrange_slice_take {A} (limit : Z) (l : list A) :
  1 ≤ limit → zrange_slice 0 (limit - 1) l = take (Z.to_nat limit) l.
Proof.
  intros Hl. unfold zrange_slice. cbv zeta.
  do 2 (change (0 <? 0) with false; cbv iota).
  destruct (limit - 1 <? 0) eqn:E1; [apply Z.ltb_lt in E1; lia|].
  rewrite E1. simpl orb.
  destruct (Z.of_nat (length l) <=? 0) eqn:E0.
  - apply Z.leb_le in E0. destruct l; simpl in *; [|lia]. by destruct (Z.to_nat limit).
  - rewrite drop_0.
    destruct (Z.of_nat (length l) <=? limit - 1) eqn:E2.
    + apply Z.leb_le in E2. rewrite !take_ge; [done|lia..].
    + apply Z.leb_gt in E2. f_equal. lia.
Qed.

Lemma hset_ok {A} (encode : A → option string) now key mapping f fs (r : redis) :
  encode_mapping encode mapping = Some (f :: fs) →
  (∀ e, rlookup now key r = Some e → ∃ h, rval e = RHash h) →
  ∃ h d, hset encode now key mapping r = (<[key := REntry (RHash h) d]> r, Ok tt)
         ∧ expired now (REntry (RHash h) d) = false.
Proof.
  intros Henc Hty. unfold hset. rewrite Henc.
  destruct (rlookup now key r) as [[v d]|] eqn:E.
  - destruct (Hty _ eq_refl) as [h Hh]. simpl in Hh. subst v.
    apply rlookup_Some in E as [_ E]. by eexists _, _.
  - by eexists _, _.
Qed.

Lemma hset_refused {A} (encode : A → option string) now key mapping (r : redis) :
  encode_mapping encode mapping = None →
  hset encode now key mapping r = (r, Raise DataError).
Proof. intros Henc. unfold hset. by rewrite Henc. Qed.

(** redis-py encodes the record that [store_crypto_data] writes at [now]. *)
Definition redis_takes (now : Z) (data : pydict) : bool :=
  match encode_mapping redis_encode (dict_set "timestamp" (VInt now) data) with
  | Some _ => true
  | None => false
  end.

(** The exception that binding or a [NOT NULL] column raises on the four
    value columns of the record, if any. *)
Definition sqlite_refusal (data : pydict) : option exn :=
  let columns := [dict_get_default "price" (VInt 0) data;
                  dict_get_default "volume" (VInt 0) data;
                  dict_get_default "high" (VInt 0) data;
                  dict_get_default "low" (VInt 0) data] in
  if negb (forallb binds columns) then Some OverflowError
  else if existsb is_null columns then Some IntegrityError
  else None.

Lemma dict_set_nonempty k v d : dict_set k v d ≠ [].
Proof. destruct d as [|[k' v'] d]; simpl; [done|]. by destruct (String.eqb k k'). Qed.

Lemma encode_mapping_nonempty {A} (encode : A → option string) mapping fields :
  mapping ≠ [] → encode_mapping encode mapping = Some fields → fields ≠ [].
Proof.
  destruct mapping as [|[k v] rest]; [done|]. intros _. simpl.
  destruct (encode v); [|done]. destruct (encode_mapping encode rest); [|done].
  by intros [= <-].
Qed.

Lemma encode_mapping_Forall {A} (encode : A → option string) mapping :
  Forall (λ kv, is_Some (encode (snd kv))) mapping →
  is_Some (encode_mapping encode mapping).
Proof.
  induction 1 as [|[k v] rest [text Hv] _ [fields IH]]; [by eexists|].
  simpl in *. rewrite Hv, IH. by eexists.
Qed.



Lemma encodes_set k v d :
  is_Some (redis_encode v) →
  Forall (λ kv, is_Some (redis_encode (snd kv))) d →
  Forall (λ kv, is_Some (redis_encode (snd kv))) (dict_set k v d).
Proof.
  intros Hv. induction 1 as [|[k' v'] d Hx Hd IH]; simpl.
  - by constructor.
  - destruct (String.eqb k k'); constructor; done.
Qed.


Lemma encodable_record_redis now data :
  encodable_record data = true → redis_takes now data = true.
Proof.
  intros Hp. unfold redis_takes.
  destruct (encode_mapping_Forall redis_encode (dict_set "timestamp" (VInt now) data))
    as [fields ->]; [|done].
  apply encodes_set; [by eexists|].
  unfold encodable_record in Hp. rewrite forallb_forall in Hp.
  apply Forall_forall. intros kv Hin. apply list_elem_of_In, Hp in Hin.
  destruct (redis_encode (snd kv)); [by eexists|done].
Qed.




Lemma expire_live now key v d seconds (r : redis) :
  rlookup now key r = Some (REntry v d) → 0 < seconds →
  expire now key seconds r = (<[key := REntry v (Some (now + seconds))]> r, Ok tt).
Proof.
  intros E Hs. unfold expire. rewrite E.
  destruct (seconds <=? 0) eqn:E'; [|done]. apply Z.leb_le in E'. lia.
Qed.

Lemma zadd_ok now key member score (r : redis) :
  (∀ e, rlookup now key r = Some e → ∃ z, rval e = RZset z) →
  ∃ d, zadd now key member score r
       = (<[key := REntry (RZset (<[member := score]> (live_zset now key r))) d]> r, Ok tt)
       ∧ expired now (REntry (RZset (<[member := score]> (live_zset now key r))) d) = false.
Proof.
  intros Hty. unfold zadd, live_zset.
  destruct (rlookup now key r) as [[v d]|] eqn:E.
  - destruct (Hty _ eq_refl) as [z Hz]. simpl in Hz. subst v.
    apply rlookup_Some in E as [_ E]. by eexists.
  - by eexists.
Qed.

Section StoreSpec.
Variable json_dumps : pydict -> string.
Variable json_loads : string -> pydict.

(** What a Redis-backed [store_crypto_data] does to a well-typed keyspace
    with a record that redis-py encodes. *)
Lemma store_redis_spec r sq now s i d :
  redis_typed r →
  redis_takes now d = true →
  ∃ r' h,
    store_crypto_data json_dumps now s i d (Manager true r sq)
      = (Manager true r' sq, Ok tt)
    ∧ redis_typed r'
    ∧ r' !! ts_key s i
        = Some (REntry (RZset (<[json_dumps d := now]> (live_zset now (ts_key s i) r)))
                       (Some (now + ttl_of i)))
    ∧ r' !! crypto_key s i = Some (REntry (RHash h) (Some (now + ttl_of i)))
    ∧ (∀ k, k ≠ ts_key s i → k ≠ crypto_key s i → r' !! k = r !! k).
Proof.
  intros Hr Htakes. pose proof (ttl_of_pos i) as Httl.
  pose proof (crypto_key_not_ts_key s i s i) as Hne.
  unfold redis_takes in Htakes.
  destruct (encode_mapping redis_encode (dict_set "timestamp" (VInt now) d))
    as [[|f fs]|] eqn:Henc; [|clear Htakes|done].
  { by apply encode_mapping_nonempty in Henc; [|apply dict_set_nonempty]. }
  destruct (hset_ok redis_encode now (crypto_key s i)
              (dict_set "timestamp" (VInt now) d) f fs r Henc) as (h & d1 & Hh & Hl1).
  { intros e. by apply typed_hash_key. }
  set (r1 := <[crypto_key s i := REntry (RHash h) d1]> r) in *.
  assert (expire now (crypto_key s i) (ttl_of i) r1
          = (<[crypto_key s i := REntry (RHash h) (Some (now + ttl_of i))]> r1, Ok tt)) as He1.
  { apply (expire_live _ _ _ d1); [|done]. unfold r1. by rewrite rlookup_insert_eq, Hl1. }
  set (r2 := <[crypto_key s i := REntry (RHash h) (Some (now + ttl_of i))]> r1) in *.
  assert (rlookup now (ts_key s i) r2 = rlookup now (ts_key s i) r) as Hlk.
  { unfold r2, r1. by rewrite !rlookup_insert_ne. }
  assert (live_zset now (ts_key s i) r2 = live_zset now (ts_key s i) r) as Hlz.
  { unfold live_zset. by rewrite Hlk. }
  destruct (zadd_ok now (ts_key s i) (json_dumps d) now r2) as (d3 & Hz & Hl3).
  { intros e. rewrite Hlk. by apply typed_zset_key. }
  rewrite Hlz in Hz, Hl3.
  set (z' := <[json_dumps d := now]> (live_zset now (ts_key s i) r)) in *.
  set (r3 := <[ts_key s i := REntry (RZset z') d3]> r2) in *.
  assert (expire now (ts_key s i) (ttl_of i) r3
          = (<[ts_key s i := REntry (RZset z') (Some (now + ttl_of i))]> r3, Ok tt)) as He3.
  { apply (expire_live _ _ _ d3); [|done]. unfold r3. by rewrite rlookup_insert_eq, Hl3. }
  eexists _, h. split; [|split; [|split; [|split]]].
  - unfold store_crypto_data, bind, on_redis. simpl.
    rewrite Hh. simpl. fold r1. rewrite He1. simpl. fold r2.
    rewrite Hz. simpl. fold r3. rewrite He3. simpl. reflexivity.
  - unfold r3, r2, r1.
    by repeat first [apply redis_typed_insert_zset | apply redis_typed_insert_hash].
  - by rewrite lookup_insert_eq.
  - unfold r3, r2. rewrite !lookup_insert_ne by done. by rewrite lookup_insert_eq.
  - intros k Hk1 Hk2. unfold r3, r2, r1. by rewrite !lookup_insert_ne.
Qed.

(** A record that redis-py refuses raises before any command is sent. *)
Lemma store_redis_refused r sq now s i d :
  redis_takes now d = false →
  store_crypto_data json_dumps now s i d (Manager true r sq)
  = (Manager true r sq, Raise DataError).
Proof.
  unfold redis_takes. intros Htakes.
  destruct (encode_mapping redis_encode (dict_set "timestamp" (VInt now) d))
    eqn:Henc; [done|].
  unfold store_crypto_data, bind, on_redis. cbn [use_redis redis_client sqlite_conn].
  by rewrite (hset_refused _ _ _ _ _ Henc).
Qed.

(** A SQLite-backed [store_crypto_data]: a record whose value columns are
    bound and not [NULL], under a new natural key, appends a row; any other
    raises and changes nothing. *)
Lemma store_sqlite_spec r sq now s i d :
  store_crypto_data json_dumps now s i d (Manager false r sq)
  = match sqlite_refusal d with
    | Some e => (Manager false r sq, Raise e)
    | None =>
        if existsb (same_key s i now) (crypto_data sq)
        then (Manager false r sq, Raise IntegrityError)
        else (Manager false r
                (Sqlite (crypto_data sq ++
                         [CryptoRow (crypto_data_seq sq + 1) s i
                            (dict_get_default "price" (VInt 0) d)
                            (dict_get_default "volume" (VInt 0) d)
                            (dict_get_default "high" (VInt 0) d)
                            (dict_get_default "low" (VInt 0) d)
                            now (json_dumps d)])
                        (crypto_data_seq sq + 1)),
              Ok tt)
    end.
Proof.
  unfold store_crypto_data, on_sqlite, insert_crypto_data, sqlite_refusal.
  cbn [use_redis redis_client sqlite_conn]. cbv zeta.
  destruct sq as [rows sq]; cbn [crypto_data crypto_data_seq].
  destruct (negb (forallb binds _)); [done|].
  destruct (existsb is_null _); [done|].
  by destruct (existsb _ rows).
Qed.

(** How a record comes back from either backend. *)
Definition decode (p : string * Z) : pydict :=
  dict_set "timestamp" (VInt (snd p)) (json_loads (fst p)).

Lemma get_redis_spec r sq now s i limit :
  redis_typed r →
  get_crypto_data json_loads now s i limit (Manager true r sq)
  = Ok (py_sorted timestamp_of
          (map decode
             (zrange_slice 0 (limit - 1)
                (isort zrev_leb (map_to_list (live_zset now (ts_key s i) r)))))).
Proof.
  intros Hr. unfold get_crypto_data, zrevrange, live_zset. simpl.
  destruct (rlookup now (ts_key s i) r) as [[v d]|] eqn:E.
  - destruct (typed_zset_key _ _ _ _ _ Hr E) as [z Hz]. simpl in Hz. subst v.
    erewrite (map_ext _ decode); [done|by intros []].
  - rewrite map_to_list_empty. simpl. by rewrite zrange_slice_nil.
Qed.

Definition row_pair (row : crypto_row) : string * Z :=
  (row_data_json row, row_timestamp row).

Lemma get_sqlite_spec r sq now s i limit :
  get_crypto_data json_loads now s i limit (Manager false r sq)
  = Ok (py_sorted timestamp_of
          (map decode (map row_pair (select_crypto_data s i limit sq)))).
Proof.
  unfold get_crypto_data. simpl. by rewrite map_map.
Qed.
End StoreSpec.

(** ** States reached by a history of writes *)

Lemma dict_get_set k v d : dict_get k (dict_set k v d) = Some v.
Proof.
  induction d as [|[k' v'] r IH]; simpl.
  - by rewrite String.eqb_refl.
  - destruct (String.eqb k k') eqn:E; simpl; [by rewrite String.eqb_refl|by rewrite E].
Qed.

Section Reachable.
Variable json_dumps : pydict -> string.
Variable json_loads : string -> pydict.

Local Abbreviation store_crypto_data := (store_crypto_data json_dumps).
Local Abbreviation get_crypto_data := (get_crypto_data json_loads).
Local Abbreviation after_writes := (after_writes json_dumps).
Local Abbreviation apply_write := (apply_write json_dumps).
Local Abbreviation decode := (decode json_loads).

Lemma timestamp_of_decode p : timestamp_of (decode p) = snd p.
Proof. unfold timestamp_of, decode. by rewrite dict_get_set. Qed.

Lemma after_writes_snoc db ws w :
  after_writes db (ws ++ [w]) = apply_write (after_writes db ws) w.
Proof. unfold Store.after_writes. by rewrite fold_left_app. Qed.

Lemma on_redis_mode {A} (m : St redis A) db :
  use_redis (fst (on_redis m db)) = use_redis db.
Proof. unfold on_redis. by destruct (m (redis_client db)). Qed.

Lemma bind_mode {A B} (m : St DatabaseManager A) (f : A → St DatabaseManager B) :
  (∀ db, use_redis (fst (m db)) = use_redis db) →
  (∀ a db, use_redis (fst (f a db)) = use_redis db) →
  ∀ db, use_redis (fst (bind m f db)) = use_redis db.
Proof.
  intros Hm Hf db. unfold bind. specialize (Hm db).
  destruct (m db) as [db' [a|e]]; simpl in *; [|done].
  by rewrite Hf.
Qed.

Lemma apply_write_mode db w : use_redis (apply_write db w) = use_redis db.
Proof.
  unfold Store.apply_write, Store.store_crypto_data.
  destruct db as [[] r sq]; cbn [use_redis].
  - transitivity (use_redis (Manager true r sq)); [|done].
    repeat (apply bind_mode; [intros; apply on_redis_mode|intros]).
    apply on_redis_mode.
  - unfold on_sqlite. by destruct (insert_crypto_data _ _ _ _ _ _ _ _ _).
Qed.

Lemma apply_write_typed db w :
  redis_typed (redis_client db) → redis_typed (redis_client (apply_write db w)).
Proof.
  destruct db as [[] r sq]; unfold Store.apply_write; simpl; intros Hr.
  - destruct (redis_takes (w_clock w) (w_data w)) eqn:Htakes.
    + destruct (store_redis_spec json_dumps r sq (w_clock w) (w_symbol w)
                  (w_interval w) (w_data w) Hr Htakes) as (r' & h & -> & Hr' & _).
      done.
    + by rewrite store_redis_refused.
  - rewrite store_sqlite_spec. destruct (sqlite_refusal _); [done|].
    by destruct (existsb _ _).
Qed.

Lemma after_writes_mode db ws : use_redis (after_writes db ws) = use_redis db.
Proof.
  induction ws as [|w ws IH] using rev_ind; [done|].
  by rewrite after_writes_snoc, apply_write_mode.
Qed.

Lemma after_writes_typed db ws :
  redis_typed (redis_client db) → redis_typed (redis_client (after_writes db ws)).
Proof.
  intros Hr. induction ws as [|w ws IH] using rev_ind; [done|].
  rewrite after_writes_snoc. by apply apply_write_typed.
Qed.

Lemma init_typed b1 b2 : redis_typed (redis_client (init b1 b2)).
Proof. apply redis_typed_empty. Qed.

(** Both code paths end in the same two steps. *)
Lemma get_crypto_data_shape db now s i limit :
  redis_typed (redis_client db) →
  ∃ ps, get_crypto_data now s i limit db
        = Ok (py_sorted timestamp_of (map decode ps)).
Proof.
  destruct db as [[] r sq]; simpl; intros Hr.
  - eexists. by apply get_redis_spec.
  - eexists. by apply get_sqlite_spec.
Qed.

(** C2.  After any history of writes, in any order of their clock
    readings and on either backend, [get_crypto_data] returns a list whose
    elements all carry an integer [timestamp] field and which is sorted
    ascending by that field. *)
Theorem get_crypto_data_sorted (USE_REDIS redis_reachable : bool)
    (ws : list write) (now : Z) (symbol interval : string) (limit : Z) :
  ∃ l,
    get_crypto_data now symbol interval limit
      (after_writes (init USE_REDIS redis_reachable) ws) = Ok l
    ∧ Forall (λ x, ∃ t, dict_get "timestamp" x = Some (VInt t)) l
    ∧ Sorted Z.le (map timestamp_of l).
Proof.
  destruct (get_crypto_data_shape
              (after_writes (init USE_REDIS redis_reachable) ws)
              now symbol interval limit) as [ps ->].
  { apply after_writes_typed, init_typed. }
  eexists; split; [done|split].
  - apply Forall_forall. intros x Hx.
    rewrite py_sorted_perm in Hx.
    apply list_elem_of_fmap in Hx as (p & -> & _).
    eexists. apply dict_get_set.
  - apply py_sorted_Sorted.
Qed.
End Reachable.

(** ** Retention *)




Lemma live_zset_live now k (r : redis) z d :
  r !! k = Some (REntry (RZset z) (Some d)) → now ≤ d → live_zset now k r = z.
Proof.
  intros H Hd. unfold live_zset, rlookup, expired. rewrite H. simpl.
  destruct (d <? now) eqn:E; [apply Z.ltb_lt in E; lia|done].
Qed.


Lemma zrev_leb_refl x : zrev_leb x x = true.
Proof.
  unfold zrev_leb. rewrite Z.eqb_refl. simpl.
  destruct (String.leb_total (fst x) (fst x)) as [->| ->]; apply orb_true_r.
Qed.

Lemma zrev_leb_higher m sc m' sc' :
  sc' < sc → zrev_leb (m, sc) (m', sc') = true ∧ zrev_leb (m', sc') (m, sc) = false.
Proof.
  intros H. unfold zrev_leb; simpl. split.
  - apply orb_true_iff. left. by apply Z.ltb_lt.
  - apply orb_false_iff. split; [apply Z.ltb_ge; lia|].
    apply andb_false_iff. left. apply Z.eqb_neq. lia.
Qed.

Section Retention.
Variable json_dumps : pydict -> string.
Variable json_loads : string -> pydict.

Local Abbreviation store_crypto_data := (store_crypto_data json_dumps).
Local Abbreviation get_crypto_data := (get_crypto_data json_loads).
Local Abbreviation after_writes := (after_writes json_dumps).
Local Abbreviation apply_write := (apply_write json_dumps).
Local Abbreviation decode := (decode json_loads).



End Retention.


(** ** Agreement of the two backends *)





Section Agreement.
Variable json_dumps : pydict -> string.
Variable json_loads : string -> pydict.

Local Abbreviation store_crypto_data := (store_crypto_data json_dumps).
Local Abbreviation get_crypto_data := (get_crypto_data json_loads).
Local Abbreviation after_writes := (after_writes json_dumps).
Local Abbreviation apply_write := (apply_write json_dumps).
Local Abbreviation decode := (decode json_loads).








End Agreement.

(** ** The natural key on the SQLite path *)

Definition row_key (row : crypto_row) : string * string * Z :=
  (row_symbol row, row_interval row, row_timestamp row).

Lemma same_key_row_key s i t row :
  same_key s i t row = true ↔ row_key row = (s, i, t).
Proof.
  unfold same_key, row_key. rewrite !andb_true_iff, !String.eqb_eq, Z.eqb_eq.
  split; [intros [[-> ->] ->]; done|intros [= -> -> ->]; done].
Qed.

Section NaturalKey.
Variable json_dumps : pydict -> string.
Variable json_loads : string -> pydict.

Lemma sqlite_keys_unique b1 b2 ws :
  NoDup (map row_key
           (crypto_data (sqlite_conn (after_writes json_dumps (init b1 b2) ws)))).
Proof.
  induction ws as [|w ws IH] using rev_ind; [constructor|].
  rewrite after_writes_snoc.
  pose proof (after_writes_typed json_dumps (init b1 b2) ws (init_typed _ _)) as Hr.
  destruct (after_writes json_dumps (init b1 b2) ws) as [[] r sq];
    unfold apply_write; simpl in *.
  - destruct (redis_takes (w_clock w) (w_data w)) eqn:Htakes;
      [|by rewrite store_redis_refused].
    by destruct (store_redis_spec json_dumps r sq (w_clock w) (w_symbol w)
                   (w_interval w) (w_data w) Hr Htakes) as (r' & h & -> & _).
  - rewrite store_sqlite_spec. destruct (sqlite_refusal _); [done|].
    destruct (existsb _ _) eqn:E; simpl; [done|].
    rewrite map_app. apply NoDup_app. split; [done|]. split; [|by apply NoDup_singleton].
    intros k Hk Hk'. apply list_elem_of_singleton in Hk'. subst k.
    apply list_elem_of_fmap in Hk as (row & Hrow & Hin).
    apply not_true_iff_false in E. apply E.
    apply existsb_exists. exists row. split; [by apply list_elem_of_In|].
    apply same_key_row_key. by rewrite <- Hrow.
Qed.

(** On SQLite no history of writes makes [get_crypto_data] return two
    records with the same timestamp for one series: the [UNIQUE]
    constraint of the schema rejects the second write. *)
Lemma sqlite_one_record_per_key b ws now symbol interval limit :
  ∃ l,
    get_crypto_data json_loads now symbol interval limit
      (after_writes json_dumps (init false b) ws) = Ok l
    ∧ NoDup (map timestamp_of l).
Proof.
  pose proof (sqlite_keys_unique false b ws) as Hk.
  pose proof (after_writes_mode json_dumps (init false b) ws) as Hm.
  destruct (after_writes json_dumps (init false b) ws) as [m r sq].
  simpl in *. subst m. rewrite get_sqlite_spec. eexists; split; [done|].
  rewrite py_sorted_perm, !map_map.
  erewrite map_ext; [|intros row; apply timestamp_of_decode]. simpl.
  unfold select_crypto_data.
  assert (NoDup (map row_timestamp
                   (filter (λ row, row_symbol row = symbol ∧ row_interval row = interval)
                           (crypto_data sq)))) as Hnd.
  { induction (crypto_data sq) as [|row rows IH]; [constructor|].
    simpl in Hk. apply NoDup_cons in Hk as [Hrow Hk].
    rewrite filter_cons. case_decide as Hc; [|by apply IH].
    simpl. apply NoDup_cons. split; [|by apply IH].
    intros Hin. apply Hrow.
    apply list_elem_of_fmap in Hin as (row' & Ht & Hin).
    apply list_elem_of_filter in Hin as [[Hs Hi] Hin].
    apply list_elem_of_fmap. exists row'. split; [|done].
    unfold row_key. destruct Hc. congruence. }
  assert (map row_timestamp
            (isort (λ a b, row_timestamp b <=? row_timestamp a)
               (filter (λ row, row_symbol row = symbol ∧ row_interval row = interval)
                       (crypto_data sq)))
          ≡ₚ map row_timestamp
               (filter (λ row, row_symbol row = symbol ∧ row_interval row = interval)
                       (crypto_data sq))) as Hp.
  { apply Permutation_map, isort_perm. }
  rewrite <- Hp in Hnd.
  destruct (limit <? 0); [done|].
  change (map row_timestamp) with (fmap (M:=list) row_timestamp).
  rewrite fmap_take. eapply sublist_NoDup; [exact Hnd|apply sublist_take].
Qed.
End NaturalKey.

(** ** A stored candle while its key lives, and on SQLite ever after *)



Section Persistence.
Variable json_dumps : pydict -> string.
Variable json_loads : string -> pydict.

Local Abbreviation store_crypto_data := (store_crypto_data json_dumps).
Local Abbreviation get_crypto_data := (get_crypto_data json_loads).
Local Abbreviation after_writes := (after_writes json_dumps).
Local Abbreviation apply_write := (apply_write json_dumps).
Local Abbreviation decode := (decode json_loads).




End Persistence.

(** ** The code at concrete inputs *)

Definition tick (price : Z) : pydict := [("price", VInt price)].

Definition run_redis (ws : list write) : DatabaseManager :=
  after_writes Json.json_dumps (init true true) ws.

Definition run_sqlite (ws : list write) : DatabaseManager :=
  after_writes Json.json_dumps (init false true) ws.

Definition read (now : Z) (symbol interval : string) (limit : Z)
    (db : DatabaseManager) : res (list pydict) :=
  get_crypto_data Json.json_loads now symbol interval limit db.

(** C1 at its failing input.  Two ticks for BTC arrive within the same
    second 100 with different prices.  The Redis path keeps both under
    the timestamp 100; the SQLite path keeps the first only. *)
Theorem redis_same_second_keeps_both :
  read 100 "BTC" "1m" 100
       (run_redis [Write 100 "BTC" "1m" (tick 50000); Write 100 "BTC" "1m" (tick 50001)])
  = Ok [ [("price", VInt 50001); ("timestamp", VInt 100)];
         [("price", VInt 50000); ("timestamp", VInt 100)] ]
  ∧ read 100 "BTC" "1m" 100
       (run_sqlite [Write 100 "BTC" "1m" (tick 50000); Write 100 "BTC" "1m" (tick 50001)])
    = Ok [ [("price", VInt 50000); ("timestamp", VInt 100)] ].
Proof. split; vm_compute; reflexivity. Qed.

(** C10 at its failing input.  A candle that carries its own timestamp 42
    is written at second 100 and again at second 200.  Both paths replace
    the field by the clock reading; SQLite holds two entries, Redis holds
    one, moved to the later second. *)
Theorem redis_same_payload_later_second_moves_entry :
  let candle := [("close", VInt 5); ("timestamp", VInt 42)] in
  let history := [Write 100 "BTC" "1h" candle; Write 200 "BTC" "1h" candle] in
  read 200 "BTC" "1h" 100 (run_sqlite history)
  = Ok [ [("close", VInt 5); ("timestamp", VInt 100)];
         [("close", VInt 5); ("timestamp", VInt 200)] ]
  ∧ read 200 "BTC" "1h" 100 (run_redis history)
    = Ok [ [("close", VInt 5); ("timestamp", VInt 200)] ].
Proof. split; vm_compute; reflexivity. Qed.


(** The other conditions of the agreement theorem are needed as well.
    With [limit = 0] Redis is asked for the range from 0 to -1, the
    whole series, and SQLite for no row. *)
Lemma backends_differ_at_limit_zero :
  read 100 "BTC" "1m" 0 (run_redis [Write 100 "BTC" "1m" (tick 50000)])
  = Ok [ [("price", VInt 50000); ("timestamp", VInt 100)] ]
  ∧ read 100 "BTC" "1m" 0 (run_sqlite [Write 100 "BTC" "1m" (tick 50000)])
    = Ok [].
Proof. split; vm_compute; reflexivity. Qed.

(** A colon in a symbol lets two series share one Redis key. *)
Lemma backends_differ_on_shared_key :
  let history := [Write 100 "A:B" "C" (tick 1); Write 101 "A" "B:C" (tick 2)] in
  read 102 "A" "B:C" 10 (run_redis history)
  = Ok [ [("price", VInt 1); ("timestamp", VInt 100)];
         [("price", VInt 2); ("timestamp", VInt 101)] ]
  ∧ read 102 "A" "B:C" 10 (run_sqlite history)
    = Ok [ [("price", VInt 2); ("timestamp", VInt 101)] ].
Proof. split; vm_compute; reflexivity. Qed.





End StoreProofs.

(** * Proofs about the stream manager *)

Module StreamProofs.
Import Stream.

(** C5 at its failing input.  The stream [ticker_btcusdt] is added, its
    connection drops, and while [_on_close_wrapper] sleeps the caller closes
    the stream.  When the sleep returns the thread starts a new connection
    all the same: the stop event was only read before the sleep. *)
Theorem close_during_reconnect_wait_still_reconnects :
  let name := "ticker_btcusdt"%string in
  let trace :=
    [ AddConnection name 30; SocketClosed 0; CloseConnection name; SleepElapsed 0 ] in
  log (run trace) = [ Attempt name; CloseCall name; Attempt name ]
  ∧ no_attempt_after_close name false (log (run trace)) = false
  ∧ connections (mgr (run trace)) !! name = Some 1%nat.
Proof. repeat split; vm_compute; reflexivity. Qed.

(** In general: whenever a thread is in its reconnect wait, a close of its
    stream followed by the end of the sleep logs a connection attempt after
    the close. *)
Lemma close_during_wait_reconnects (s : state) (tid : nat) (name : string) (secs : Z) :
  threads s !! tid = Some (Thread name (ReconnectWait secs)) →
  log (on_close_wrapper_resume tid (close_connection name s))
  = log s ++ [CloseCall name; Attempt name].
Proof.
  intros Ht. unfold on_close_wrapper_resume, close_connection.
  destruct (connections (mgr s) !! name); simpl; rewrite Ht; simpl;
    by rewrite <- app_assoc.
Qed.

(** The case the code does handle: a close that comes while the connection
    is still running is seen by [_on_close_wrapper], which then ends the
    thread without sleeping or reconnecting. *)
Lemma close_while_running_suppresses_reconnect (s : state) (tid conn : nat)
    (name : string) (flag : bool) :
  threads s !! tid = Some (Thread name Running) →
  connections (mgr s) !! name = Some conn →
  stop_events (mgr s) !! name = Some flag →
  let s' := on_close_wrapper_begin tid (close_connection name s) in
  threads s' !! tid = Some (Thread name Finished)
  ∧ log s' = log s ++ [CloseCall name].
Proof.
  intros Ht Hc He. unfold close_connection, on_close_wrapper_begin.
  rewrite Hc, He. simpl. rewrite Ht, lookup_insert_eq. simpl.
  split; [|done]. rewrite list_lookup_alter_eq, Ht. done.
Qed.

End StreamProofs.

(** * Proofs about the indicator engine *)

Module TrendProofs.
Import Trend.
Local Open Scope Q_scope.

(** ** Arithmetic of the number model *)

Lemma Qltb_lt x y : Qltb x y = true ↔ x < y.
Proof. unfold Qltb, Qlt. apply Z.ltb_lt. Qed.

Lemma Qltb_ge x y : Qltb x y = false ↔ y <= x.
Proof. unfold Qltb, Qle. apply Z.ltb_ge. Qed.

Lemma Qzero_iff x : Qzero x = true ↔ x == 0.
Proof.
  unfold Qzero, Qeq. simpl. rewrite Z.eqb_eq. split; lia.
Qed.

Lemma Qzero_false x : Qzero x = false ↔ ¬ x == 0.
Proof. rewrite <- Qzero_iff. by destruct (Qzero x). Qed.

Lemma of_nat_pos n : (0 < n)%nat → 0 < inject_Z (Z.of_nat n).
Proof. intros. unfold Qlt, inject_Z; simpl. lia. Qed.

(** ** Series of finite numbers *)

Definition Qsum (l : list Q) : Q := fold_left Qplus l 0.

Lemma fold_fadd_Fin l acc :
  fold_left fadd (map Fin l) (Fin acc) = Fin (fold_left Qplus l acc).
Proof. revert acc. induction l as [|x l IH]; intros acc; simpl; [done|apply IH]. Qed.

Lemma fsum_Fin l : fsum (map Fin l) = Fin (Qsum l).
Proof. apply fold_fadd_Fin. Qed.

Lemma existsb_is_nan_Fin l : existsb is_nan (map Fin l) = false.
Proof. induction l; simpl; auto. Qed.

Lemma fmean_Fin l :
  l ≠ [] → fmean (map Fin l) = Fin (Qsum l / inject_Z (Z.of_nat (length l))).
Proof.
  intros Hl. unfold fmean. rewrite existsb_is_nan_Fin, fsum_Fin, length_map.
  unfold of_nat, fdiv.
  replace (Qzero _) with false; [done|].
  symmetry. apply Qzero_false. intros H.
  assert (0 < inject_Z (Z.of_nat (length l))); [|lra].
  apply of_nat_pos. destruct l; simpl; [done|lia].
Qed.

Lemma fold_Qplus_acc l acc : fold_left Qplus l acc == acc + Qsum l.
Proof.
  unfold Qsum. revert acc. induction l as [|x l IH]; intros acc; simpl; [lra|].
  rewrite IH, (IH (0 + x)). lra.
Qed.

Lemma Qsum_cons x l : Qsum (x :: l) == x + Qsum l.
Proof. unfold Qsum at 1. simpl. rewrite fold_Qplus_acc. lra. Qed.

Lemma Qsum_nonneg l : Forall (λ x, 0 <= x) l → 0 <= Qsum l.
Proof.
  induction 1 as [|x l Hx Hl IH]; [unfold Qsum; simpl; lra|].
  rewrite Qsum_cons. lra.
Qed.

(** Pointwise smaller windows have a smaller sum. *)
Lemma Qsum_lt a b :
  a ≠ [] → Forall2 Qlt a b → Qsum a < Qsum b.
Proof.
  intros Ha H. induction H as [|x y a b Hxy Hab IH]; [done|].
  rewrite !Qsum_cons. destruct a as [|x' a].
  - inversion Hab; subst. unfold Qsum; simpl. lra.
  - specialize (IH ltac:(done)). lra.
Qed.

(** ** Positions of a rolling series *)

Lemma nth_rolling f window s i :
  (i < length s)%nat →
  nth i (rolling f window s) NaN
  = match window_at window i s with Some w => f w | None => NaN end.
Proof.
  intros Hi. unfold rolling.
  rewrite (nth_indep _ NaN (match window_at window 0 s with Some w => f w | None => NaN end)).
  2: { rewrite length_map, length_seq. done. }
  rewrite (map_nth (λ i, match window_at window i s with Some w => f w | None => NaN end)
                   (seq 0 (length s)) 0%nat i).
  by rewrite seq_nth.
Qed.

Lemma length_rolling f window s : length (rolling f window s) = length s.
Proof. unfold rolling. by rewrite length_map, length_seq. Qed.

(** [s.iloc[-k]] is position [length s - k]. *)
Lemma iloc_neg (k : nat) s :
  (1 <= k <= length s)%nat →
  iloc (- Z.of_nat k) s = nth (length s - k) s NaN.
Proof.
  intros Hk. unfold iloc.
  destruct (- Z.of_nat k <? 0)%Z eqn:E; [|apply Z.ltb_ge in E; lia].
  f_equal. lia.
Qed.

Lemma window_at_Fin window i l :
  (window <= i + 1)%nat →
  window_at window i (map Fin l)
  = Some (map Fin (take window (drop (i + 1 - window) l))).
Proof.
  intros H. unfold window_at.
  destruct (i + 1 <? window)%nat eqn:E; [apply Nat.ltb_lt in E; lia|].
  by rewrite <- fmap_drop, <- fmap_take.
Qed.

(** ** Results on inputs shorter than the lookback *)

(** Does a result carry the classification ["unknown"]? *)
Definition carries_unknown (r : report) : bool :=
  existsb (fun kv => match snd kv with
                     | Str s => String.eqb s "unknown"
                     | Num _ => false
                     end) r.

Definition flat_candle (t : Z) (c : Q) : candle :=
  Candle t c c c c 1.

Definition three_candles : list candle :=
  [flat_candle 0 1; flat_candle 1 2; flat_candle 2 3].

(** C6 fails as stated: on three candles, fewer than either function
    needs, [detect_momentum] and [detect_volatility] return two zeros and
    no classification. *)
Lemma momentum_and_volatility_lack_unknown :
  detect_momentum three_candles
  = [("rsi", Num (Fin 0)); ("momentum", Num (Fin 0))]
  ∧ carries_unknown (detect_momentum three_candles) = false
  ∧ detect_volatility sqrt_down three_candles
    = [("volatility", Num (Fin 0)); ("atr", Num (Fin 0))]
  ∧ carries_unknown (detect_volatility sqrt_down three_candles) = false.
Proof. repeat split. Qed.

(** C6, as the code has it.  Below their thresholds all four functions
    return a fixed result of zeros; only [detect_price_trends] and
    [detect_volume_trends] add the classification ["unknown"]. *)
Theorem short_input_results (sqrtQ : Q → Q) (data : list candle) (window : nat) :
  ((length data < window)%nat →
     detect_price_trends data window
     = [("trend", Str "unknown"); ("strength", Num (Fin 0));
        ("support", Num (Fin 0)); ("resistance", Num (Fin 0))]
     ∧ detect_volume_trends sqrtQ data window
       = [("trend", Str "unknown"); ("strength", Num (Fin 0))])
  ∧ ((length data < 14)%nat →
     detect_momentum data = [("rsi", Num (Fin 0)); ("momentum", Num (Fin 0))])
  ∧ ((length data < 5)%nat →
     detect_volatility sqrtQ data = [("volatility", Num (Fin 0)); ("atr", Num (Fin 0))]).
Proof.
  split; [intros H; split|split; intros H].
  - unfold detect_price_trends.
    by rewrite (proj2 (Nat.ltb_lt _ _) H).
  - unfold detect_volume_trends.
    by rewrite (proj2 (Nat.ltb_lt _ _) H).
  - unfold detect_momentum. by rewrite (proj2 (Nat.ltb_lt _ _) H).
  - unfold detect_volatility. by rewrite (proj2 (Nat.ltb_lt _ _) H).
Qed.

Lemma short_input_results_witness :
  (detect_price_trends [] 5
   = [("trend", Str "unknown"); ("strength", Num (Fin 0));
      ("support", Num (Fin 0)); ("resistance", Num (Fin 0))]
   ∧ detect_volume_trends sqrt_down [] 5
     = [("trend", Str "unknown"); ("strength", Num (Fin 0))])
  ∧ detect_momentum [] = [("rsi", Num (Fin 0)); ("momentum", Num (Fin 0))]
  ∧ detect_volatility sqrt_down [] = [("volatility", Num (Fin 0)); ("atr", Num (Fin 0))].
Proof.
  destruct (short_input_results sqrt_down [] 5) as (H1 & H2 & H3).
  split; [apply H1; simpl; lia|].
  split; [apply H2; simpl; lia|apply H3; simpl; lia].
Defined.

Lemma column_Fin (f : candle → Q) data : column f data = map Fin (map f data).
Proof. unfold column. by rewrite map_map. Qed.

Lemma StronglySorted_lookup {A} (R : A → A → Prop) (l : list A) i j x y :
  StronglySorted R l → l !! i = Some x → l !! j = Some y → (i < j)%nat → R x y.
Proof.
  intros Hl. revert i j. induction Hl as [|a l Hl IH Ha]; intros i j Hi Hj Hij.
  - by rewrite lookup_nil in Hi.
  - destruct j as [|j]; [lia|]. simpl in Hj. destruct i as [|i]; simpl in Hi.
    + injection Hi as <-. eapply Forall_forall in Ha; [done|].
      by eapply list_elem_of_lookup_2.
    + eapply IH; [done..|lia].
Qed.

(** The two averages [detect_price_trends] compares: over the last
    [window] closes, and over the [window] closes ending [window - 1]
    places earlier. *)
Definition last_window (window : nat) (qs : list Q) : list Q :=
  take window (drop (length qs - window) qs).

Definition prev_window (window : nat) (qs : list Q) : list Q :=
  take window (drop (length qs + 1 - 2 * window) qs).

Definition Qmean (l : list Q) : Q := Qsum l / inject_Z (Z.of_nat (length l)).

Lemma last_sma_Fin window qs :
  (1 <= window <= length qs)%nat →
  iloc (-1) (rolling_mean window (map Fin qs)) = Fin (Qmean (last_window window qs)).
Proof.
  intros H. rewrite (iloc_neg 1) by (unfold rolling_mean; rewrite length_rolling, length_map; lia).
  unfold rolling_mean. rewrite length_rolling, length_map.
  rewrite nth_rolling by (rewrite ?length_map; lia).
  rewrite window_at_Fin by lia.
  replace (length qs - 1 + 1 - window)%nat with (length qs - window)%nat by lia.
  apply fmean_Fin. unfold last_window.
  intros E. apply (f_equal length) in E. rewrite length_take, length_drop in E.
  simpl in E. lia.
Qed.

Lemma prev_sma_Fin window qs :
  (1 <= window)%nat → (2 * window <= length qs + 1)%nat →
  iloc (- Z.of_nat window) (rolling_mean window (map Fin qs))
  = Fin (Qmean (prev_window window qs)).
Proof.
  intros H1 H2.
  rewrite iloc_neg by (unfold rolling_mean; rewrite length_rolling, length_map; lia).
  unfold rolling_mean. rewrite length_rolling, length_map.
  rewrite nth_rolling by (rewrite ?length_map; lia).
  rewrite window_at_Fin by lia.
  replace (length qs - window + 1 - window)%nat
    with (length qs + 1 - 2 * window)%nat by lia.
  apply fmean_Fin. unfold prev_window.
  intros E. apply (f_equal length) in E. rewrite length_take, length_drop in E.
  simpl in E. lia.
Qed.

Lemma window_lengths window qs :
  (1 <= window)%nat → (2 * window <= length qs + 1)%nat →
  length (last_window window qs) = window ∧ length (prev_window window qs) = window.
Proof.
  intros. unfold last_window, prev_window.
  rewrite !length_take, !length_drop. lia.
Qed.

(** Over strictly increasing closes the earlier window is smaller place
    by place, as soon as the two windows are not the same. *)
Lemma windows_pointwise (R : Q → Q → Prop) window qs :
  StronglySorted R qs →
  (2 <= window)%nat → (2 * window <= length qs + 1)%nat →
  Forall2 R (prev_window window qs) (last_window window qs).
Proof.
  intros Hs H1 H2.
  destruct (window_lengths window qs) as [Hl Hp]; [lia..|].
  apply Forall2_same_length_lookup_2; [congruence|].
  intros i x y Hx Hy. unfold prev_window, last_window in *.
  apply lookup_take_Some in Hx as [Hx Hi], Hy as [Hy _].
  rewrite lookup_drop in Hx, Hy.
  eapply StronglySorted_lookup; [done..|lia].
Qed.

(** Both windows lie within the last [2 * window] closes. *)
Lemma windows_of_tail window (qs : list Q) :
  (1 <= window)%nat → (2 * window <= length qs)%nat →
  last_window window (tail (2 * window) qs) = last_window window qs
  ∧ prev_window window (tail (2 * window) qs) = prev_window window qs.
Proof.
  intros H1 H2. unfold last_window, prev_window, tail.
  rewrite !length_drop, !drop_drop. split; do 2 f_equal; lia.
Qed.

Lemma tail_map {A B} (f : A → B) n l : tail n (map f l) = map f (tail n l).
Proof. unfold tail. by rewrite length_map, <- fmap_drop. Qed.

(** Closes that are monotone throughout are monotone over the tail. *)
Lemma Sorted_tail {A} (R : A → A → Prop) n (l : list A) :
  Sorted R l → Sorted R (tail n l).
Proof.
  unfold tail. generalize (length l - n)%nat as k. intros k Hl. revert k.
  induction Hl as [|x l Hl IH Hx]; intros [|k]; simpl; try constructor; auto.
Qed.

Lemma windows_pointwise_tail (R : Q → Q → Prop) window qs :
  Transitive R →
  Sorted R (tail (2 * window) qs) →
  (2 <= window)%nat → (2 * window <= length qs)%nat →
  Forall2 R (prev_window window qs) (last_window window qs).
Proof.
  intros HR Hs H1 H2.
  destruct (windows_of_tail window qs) as [<- <-]; [lia..|].
  apply windows_pointwise; [by apply Sorted_StronglySorted|lia|].
  unfold tail. rewrite length_drop. lia.
Qed.

Lemma Qmean_lt a b :
  a ≠ [] → Forall2 Qlt a b → Qmean a < Qmean b.
Proof.
  intros Ha H. unfold Qmean. rewrite <- (Forall2_length _ _ _ H).
  pose proof (Qsum_lt a b Ha H).
  assert (0 < inject_Z (Z.of_nat (length a))) as Hn.
  { apply of_nat_pos. destruct a; simpl; [done|lia]. }
  apply Qmult_lt_compat_r; [|done]. by apply Qinv_lt_0_compat.
Qed.

Lemma nonempty_of_length {A} (l : list A) n : length l = n → (1 <= n)%nat → l ≠ [].
Proof. intros <- H ->. simpl in H. lia. Qed.

(** The strength of a trend whose averages differ is positive. *)
Lemma strength_positive (hi lo base : Q) :
  lo < hi →
  ∃ q,
    (if fgt (Fin base) (Fin 0)
     then py_min (Fin 1) (fmul (fdiv (fsub (Fin hi) (Fin lo)) (Fin base)) (Fin 5))
     else Fin (1 # 2)) = Fin q ∧ 0 < q.
Proof.
  intros Hlt. unfold fgt, flt.
  destruct (Qltb 0 base) eqn:E.
  - apply Qltb_lt in E. unfold fsub, fneg, fadd, fdiv.
    replace (Qzero base) with false
      by (symmetry; apply Qzero_false; intros H; rewrite H in E; lra).
    unfold fmul, py_min, flt.
    assert (0 < (hi + - lo) / base * 5).
    { apply Qmult_lt_0_compat; [|lra].
      apply Qlt_shift_div_l; [done|]. lra. }
    destruct (Qltb _ 1); eexists; (split; [done|]); [done|lra].
  - eexists; split; [done|]. reflexivity.
Qed.

(** C8, as the code has it.  For a window from 2 to [2 ^ 20] and
    sequences of at least [2 * window] candles whose closes are whole numbers
    of magnitude at most [2 ^ 31], so that float64 computes the moving
    averages without losing their order: closes that increase strictly over
    the last [2 * window] candles (or throughout) are classified [uptrend]
    with a strength above 0, closes that decrease strictly over them are
    classified [downtrend]. *)
Theorem monotone_closes_classified (rising falling : list candle) (window : nat) :
  (2 <= window)%nat →
  (Z.of_nat window <= 2 ^ 20)%Z →
  whole_closes rising →
  whole_closes falling →
  (2 * window <= length rising)%nat →
  (2 * window <= length falling)%nat →
  Sorted Qlt (map close (tail (2 * window) rising)) →
  Sorted (λ x y, y < x) (map close (tail (2 * window) falling)) →
  lookup_report "trend" (detect_price_trends rising window) = Some (Str "uptrend")
  ∧ (∃ q, lookup_report "strength" (detect_price_trends rising window)
          = Some (Num (Fin q)) ∧ 0 < q)
  ∧ lookup_report "trend" (detect_price_trends falling window) = Some (Str "downtrend").
Proof.
  intros Hw _ _ _ Hr Hf Hup Hdown.
  assert (∀ data, (2 * window <= length data)%nat →
            ∃ lastq prevq,
              lastq = Qmean (last_window window (map close data))
              ∧ prevq = Qmean (prev_window window (map close data))
              ∧ detect_price_trends data window
                = let '(trend, strength) :=
                    if fgt (Fin lastq) (Fin prevq) then
                      ("uptrend"%string,
                       if fgt (Fin prevq) (Fin 0)
                       then py_min (Fin 1)
                              (fmul (fdiv (fsub (Fin lastq) (Fin prevq)) (Fin prevq)) (Fin 5))
                       else Fin (1 # 2))
                    else if flt (Fin lastq) (Fin prevq) then
                      ("downtrend"%string,
                       if fgt (Fin prevq) (Fin 0)
                       then py_min (Fin 1)
                              (fmul (fdiv (fsub (Fin prevq) (Fin lastq)) (Fin prevq)) (Fin 5))
                       else Fin (1 # 2))
                    else ("sideways"%string, Fin (1 # 10)) in
                  [("trend"%string, Str trend); ("strength"%string, Num strength);
                   ("last_close"%string, Num (iloc (-1) (column close data)));
                   ("support"%string, Num (fmin_skipna (column low (tail 20 data))));
                   ("resistance"%string, Num (fmax_skipna (column high (tail 20 data))));
                   ("support_distance"%string,
                    Num (if fgt (iloc (-1) (column close data)) (Fin 0)
                         then fmul (fdiv (fsub (iloc (-1) (column close data))
                                               (fmin_skipna (column low (tail 20 data))))
                                         (iloc (-1) (column close data))) (Fin 100)
                         else Fin 0));
                   ("resistance_distance"%string,
                    Num (if fgt (iloc (-1) (column close data)) (Fin 0)
                         then fmul (fdiv (fsub (fmax_skipna (column high (tail 20 data)))
                                               (iloc (-1) (column close data)))
                                         (iloc (-1) (column close data))) (Fin 100)
                         else Fin 0))]) as Hshape.
  { intros data Hn. eexists _, _. split; [reflexivity|]. split; [reflexivity|].
    unfold detect_price_trends.
    replace ((length data <? window)%nat || (length data =? 0)%nat) with false.
    2: { symmetry. apply orb_false_iff. split; [apply Nat.ltb_ge|apply Nat.eqb_neq]; lia. }
    replace (window <? length data)%nat with true by (symmetry; apply Nat.ltb_lt; lia).
    rewrite (column_Fin close).
    rewrite last_sma_Fin, prev_sma_Fin by (rewrite ?length_map; lia).
    reflexivity. }
  assert (∀ data, (2 * window <= length data)%nat →
            prev_window window (map close data) ≠ []
            ∧ last_window window (map close data) ≠ []) as Hne.
  { intros data Hn.
    destruct (window_lengths window (map close data)) as [Hl Hp];
      [lia|rewrite ?length_map; lia|].
    split; eapply nonempty_of_length; first [done|lia]. }
  destruct (Hshape rising Hr) as (lastq & prevq & -> & -> & ->).
  destruct (Hshape falling Hf) as (lastq' & prevq' & -> & -> & ->).
  clear Hshape.
  set (lastq := Qmean (last_window window (map close rising))).
  set (prevq := Qmean (prev_window window (map close rising))).
  set (lastq' := Qmean (last_window window (map close falling))).
  set (prevq' := Qmean (prev_window window (map close falling))).
  assert (prevq < lastq) as Hlt.
  { apply Qmean_lt; [by apply Hne|].
    apply windows_pointwise_tail; [|by rewrite tail_map|lia|rewrite ?length_map; lia].
    intros x y z. apply Qlt_trans. }
  assert (lastq' < prevq') as Hlt'.
  { apply Qmean_lt; [by apply Hne|].
    apply Forall2_flip.
    apply (windows_pointwise_tail (λ x y, y < x));
      [|by rewrite tail_map|lia|rewrite ?length_map; lia].
    intros x y z ??. by eapply Qlt_trans. }
  replace (fgt (Fin lastq) (Fin prevq)) with true by (symmetry; by apply Qltb_lt).
  replace (fgt (Fin lastq') (Fin prevq')) with false by (symmetry; apply Qltb_ge; lra).
  replace (flt (Fin lastq') (Fin prevq')) with true by (symmetry; by apply Qltb_lt).
  destruct (strength_positive lastq prevq prevq Hlt) as (q & Hq & Hpos).
  rewrite Hq. split; [reflexivity|]. split; [|reflexivity].
  exists q. split; [reflexivity|done].
Qed.

Definition rising10 : list candle :=
  map (fun i => Candle (1625097600 + i * 3600)
                       (inject_Z (50000 + 500 * i)) (inject_Z (50100 + 500 * i))
                       (inject_Z (49900 + 500 * i)) (inject_Z (50000 + 500 * i))
                       1000000)
      [0; 1; 2; 3; 4; 5; 6; 7; 8; 9]%Z.

Definition falling10 : list candle :=
  map (fun i => Candle (1625097600 + i * 3600)
                       (inject_Z (54500 - 500 * i)) (inject_Z (54600 - 500 * i))
                       (inject_Z (54400 - 500 * i)) (inject_Z (54500 - 500 * i))
                       1000000)
      [0; 1; 2; 3; 4; 5; 6; 7; 8; 9]%Z.

Lemma monotone_closes_classified_witness :
  lookup_report "trend" (detect_price_trends rising10 5) = Some (Str "uptrend")
  ∧ (∃ q, lookup_report "strength" (detect_price_trends rising10 5)
          = Some (Num (Fin q)) ∧ 0 < q)
  ∧ lookup_report "trend" (detect_price_trends falling10 5) = Some (Str "downtrend").
Proof.
  apply (monotone_closes_classified rising10 falling10 5).
  - lia.
  - simpl. lia.
  - unfold rising10. simpl.
    repeat (constructor; [eexists; split; [reflexivity|simpl; lia]|]). constructor.
  - unfold falling10. simpl.
    repeat (constructor; [eexists; split; [reflexivity|simpl; lia]|]). constructor.
  - simpl. lia.
  - simpl. lia.
  - simpl. repeat constructor.
  - simpl. repeat constructor.
Defined.

(** ** The range of the relative-strength index *)

Definition finite_or_nan (x : fnum) : Prop := x = NaN ∨ ∃ q, x = Fin q.
Definition nonneg (x : fnum) : Prop := ∃ q, x = Fin q ∧ 0 <= q.
Definition nonneg_or_nan (x : fnum) : Prop := x = NaN ∨ nonneg x.
Definition ratio (x : fnum) : Prop := x = NaN ∨ x = PInf ∨ nonneg x.

Lemma Forall_zip_with (PA PB PC : fnum → Prop) f a b :
  (∀ x y, PA x → PB y → PC (f x y)) →
  Forall PA a → Forall PB b → Forall PC (zip_with f a b).
Proof.
  intros Hf Ha. revert b. unfold zip_with.
  induction Ha as [|x a Hx Ha IH]; intros b Hb; [constructor|].
  destruct Hb as [|y b Hy Hb]; [constructor|].
  simpl. constructor; [by apply Hf|by apply IH].
Qed.

Lemma Forall_removelast {A} (P : A → Prop) l : Forall P l → Forall P (removelast l).
Proof.
  induction 1 as [|x l Hx Hl IH]; [constructor|].
  simpl. destruct l; [constructor|]. by constructor.
Qed.

Lemma Forall_finite l : Forall finite_or_nan (map Fin l).
Proof. apply Forall_forall. intros x (q & -> & _)%list_elem_of_fmap. right. by eexists. Qed.




Lemma nonneg_as_list s :
  Forall nonneg s → ∃ qs, s = map Fin qs ∧ Forall (λ q, 0 <= q) qs.
Proof.
  induction 1 as [|x s (q & -> & Hq) Hs (qs & -> & Hqs)].
  - by exists [].
  - exists (q :: qs). split; [done|by constructor].
Qed.

Lemma fmean_nonneg qs :
  Forall (λ q, 0 <= q) qs → nonneg_or_nan (fmean (map Fin qs)).
Proof.
  intros H. destruct qs as [|q qs].
  - left. reflexivity.
  - right. rewrite fmean_Fin by done. eexists. split; [done|].
    apply Qle_shift_div_l; [apply of_nat_pos; simpl; lia|].
    rewrite Qmult_0_l. by apply Qsum_nonneg.
Qed.

Lemma Forall_rolling_mean window s :
  Forall nonneg s → Forall nonneg_or_nan (rolling_mean window s).
Proof.
  intros (qs & -> & Hqs)%nonneg_as_list.
  unfold rolling_mean, rolling. apply Forall_forall.
  intros x (i & -> & _)%list_elem_of_fmap.
  unfold window_at. destruct (i + 1 <? window)%nat; [by left|].
  rewrite <- fmap_drop, <- fmap_take. apply fmean_nonneg.
  apply Forall_take, Forall_drop, Hqs.
Qed.




Lemma iloc_Forall (P : fnum → Prop) i s : P NaN → Forall P s → P (iloc i s).
Proof.
  intros Hd Hs. unfold iloc.
  assert (∀ n, P (nth n s NaN)) as Hn.
  { intros n. destruct (nth_in_or_default n s NaN) as [Hin| ->]; [|done].
    eapply Forall_forall in Hs; [done|]. by apply list_elem_of_In. }
  destruct (i <? 0)%Z; apply Hn.
Qed.


Definition rising20 : list candle :=
  map (fun i => Candle (1625097600 + i * 3600)
                       (inject_Z (50000 + 500 * i)) (inject_Z (50100 + 500 * i))
                       (inject_Z (49900 + 500 * i)) (inject_Z (50000 + 500 * i))
                       1000000)
      [0; 1; 2; 3; 4; 5; 6; 7; 8; 9; 10; 11; 12; 13; 14; 15; 16; 17; 18; 19]%Z.


(** ** The Bollinger position *)


Lemma finite_fsub x y : finite_or_nan x → finite_or_nan y → finite_or_nan (fsub x y).
Proof. intros [->|[a ->]] [->|[b ->]]; simpl; first [by left|right; by eexists]. Qed.




Section Sqrt.
Variable sqrtQ : Q -> Q.





(** The local variables of [detect_volatility] that define the band. *)
Definition sma20 (data : list candle) : fnum :=
  iloc (-1) (rolling_mean 20 (column close data)).
Definition std20 (data : list candle) : fnum :=
  iloc (-1) (rolling (window_std sqrtQ) 20 (column close data)).
Definition upper_band (data : list candle) : fnum :=
  fadd (sma20 data) (fmul (std20 data) (Fin 2)).
Definition lower_band (data : list candle) : fnum :=
  fsub (sma20 data) (fmul (std20 data) (Fin 2)).
Definition last_close (data : list candle) : fnum :=
  iloc (-1) (column close data).






End Sqrt.

(** ** Concrete candles *)

(** C8 fails as stated for the window 1: two rising closes are as many
    as [2 * window], yet the last average is compared with itself. *)
Lemma window_one_is_sideways :
  lookup_report "trend"
    (detect_price_trends [flat_candle 0 1; flat_candle 1 2] 1)
  = Some (Str "sideways").
Proof. reflexivity. Qed.




End TrendProofs.

(** * More about the store: limits, isolation, rejected writes *)

Module StoreEdges.
Import Py Store StoreProofs.

(** ** What one Redis command touches *)

Lemma hset_frame {A} (encode : A → option string) now key mapping (r : redis) k :
  k ≠ key → fst (hset encode now key mapping r) !! k = r !! k.
Proof.
  intros Hk. unfold hset.
  destruct (encode_mapping encode mapping) as [[|f fs]|]; [done| |done].
  destruct (rlookup now key r) as [[[h|z|st] d]|]; simpl;
    rewrite ?lookup_insert_ne; done.
Qed.

Lemma expire_frame now key seconds (r : redis) k :
  k ≠ key → fst (expire now key seconds r) !! k = r !! k.
Proof.
  intros Hk. unfold expire.
  destruct (rlookup now key r) as [[v d]|]; simpl; [|done].
  destruct (seconds <=? 0); simpl;
    rewrite ?lookup_insert_ne, ?lookup_delete_ne; done.
Qed.

Lemma zadd_frame now key member score (r : redis) k :
  k ≠ key → fst (zadd now key member score r) !! k = r !! k.
Proof.
  intros Hk. unfold zadd.
  destruct (rlookup now key r) as [[[h|z|st] d]|]; simpl;
    rewrite ?lookup_insert_ne; done.
Qed.

(** The part of a manager that a read of the Redis key [k] and a read of
    the SQLite series [(s, i)] depend on. *)
Definition same_view (k s i : string) (db db' : DatabaseManager) : Prop :=
  use_redis db' = use_redis db
  ∧ redis_client db' !! k = redis_client db !! k
  ∧ filter (λ row, row_symbol row = s ∧ row_interval row = i)
           (crypto_data (sqlite_conn db'))
    = filter (λ row, row_symbol row = s ∧ row_interval row = i)
             (crypto_data (sqlite_conn db)).

Lemma same_view_refl k s i db : same_view k s i db db.
Proof. done. Qed.

Lemma same_view_trans k s i db1 db2 db3 :
  same_view k s i db1 db2 → same_view k s i db2 db3 → same_view k s i db1 db3.
Proof.
  intros (H1 & H2 & H3) (H4 & H5 & H6).
  split; [congruence|]. split; congruence.
Qed.

Lemma bind_same_view {A B} k s i
    (m : St DatabaseManager A) (f : A → St DatabaseManager B) :
  (∀ db, same_view k s i db (fst (m db))) →
  (∀ a db, same_view k s i db (fst (f a db))) →
  ∀ db, same_view k s i db (fst (bind m f db)).
Proof.
  intros Hm Hf db. unfold bind. specialize (Hm db).
  destruct (m db) as [db' [a|e]]; simpl in *; [|done].
  eapply same_view_trans; [exact Hm|apply Hf].
Qed.

Lemma on_redis_same_view {A} k s i (m : St redis A) :
  (∀ r, fst (m r) !! k = r !! k) →
  ∀ db, same_view k s i db (fst (on_redis m db)).
Proof.
  intros Hm db. unfold on_redis. specialize (Hm (redis_client db)).
  destruct (m (redis_client db)) as [r a]; simpl in *. done.
Qed.

Section Edges.
Variable json_dumps : pydict -> string.
Variable json_loads : string -> pydict.

Local Abbreviation store_crypto_data := (store_crypto_data json_dumps).
Local Abbreviation get_crypto_data := (get_crypto_data json_loads).
Local Abbreviation after_writes := (after_writes json_dumps).
Local Abbreviation apply_write := (apply_write json_dumps).
Local Abbreviation decode := (decode json_loads).

(** A read sees the manager through the Redis key of its series, or
    through the rows of its series. *)
Lemma get_crypto_data_same_view now s i limit db db' :
  same_view (ts_key s i) s i db db' →
  get_crypto_data now s i limit db' = get_crypto_data now s i limit db.
Proof.
  intros (Hm & Hr & Hs). unfold Store.get_crypto_data. rewrite Hm.
  destruct (use_redis db).
  - unfold zrevrange, rlookup. by rewrite Hr.
  - unfold select_crypto_data. by rewrite Hs.
Qed.

Lemma store_crypto_data_same_view now s i d s' i' db :
  ts_key s' i' ≠ ts_key s i →
  same_view (ts_key s i) s i db (fst (store_crypto_data now s' i' d db)).
Proof.
  intros Hk. unfold Store.store_crypto_data.
  assert (Hc : ts_key s i ≠ crypto_key s' i')
    by (intros E; by eapply crypto_key_not_ts_key).
  destruct (use_redis db) eqn:Hmode.
  - repeat (apply bind_same_view; [|intros _]);
      apply on_redis_same_view; intros r;
      first [by apply hset_frame | by apply expire_frame | by apply zadd_frame].
  - unfold on_sqlite, insert_crypto_data.
    destruct (negb (forallb binds _)); [done|].
    destruct (existsb is_null _); [done|].
    destruct (existsb _ _); [done|].
    unfold same_view. cbn [fst use_redis redis_client sqlite_conn crypto_data].
    split; [done|]. split; [done|].
    rewrite filter_app, filter_cons_False, filter_nil, app_nil_r; [done|].
    cbn [row_symbol row_interval]. intros [-> ->]. by apply Hk.
Qed.

(** X1. A write to another series leaves this series as it is.  On
    either backend, for every state of the store and whether or not the
    write raises: after [store_crypto_data] for a series stored under another
    Redis key, [get_crypto_data] returns for this series what it returned
    before. *)
Theorem write_to_other_series_is_invisible
    (db : DatabaseManager) (t now : Z) (symbol interval symbol' interval' : string)
    (data : pydict) (limit : Z) :
  ts_key symbol' interval' ≠ ts_key symbol interval →
  get_crypto_data now symbol interval limit
    (apply_write db (Write t symbol' interval' data))
  = get_crypto_data now symbol interval limit db.
Proof.
  intros Hk. apply get_crypto_data_same_view.
  unfold Store.apply_write. simpl. by apply store_crypto_data_same_view.
Qed.

(** ** The limit *)

Lemma zrange_slice_all {A} (l : list A) : zrange_slice 0 (0 - 1) l = l.
Proof.
  unfold zrange_slice. cbv zeta.
  change (0 <? 0) with false. change (0 - 1 <? 0) with true. cbv iota.
  change (0 <? 0) with false. cbv iota.
  destruct l as [|x l]; [done|].
  set (n := Z.of_nat (length (x :: l))).
  assert (Hn : 1 ≤ n) by (unfold n; simpl; lia).
  replace (n + (0 - 1) <? 0) with false by (symmetry; apply Z.ltb_ge; lia).
  replace (n <=? 0) with false by (symmetry; apply Z.leb_gt; lia).
  replace (n <=? n + (0 - 1)) with false by (symmetry; apply Z.leb_gt; lia).
  cbv iota. simpl orb. cbv iota.
  replace (Z.to_nat (n + (0 - 1) - 0 + 1)) with (length (x :: l)) by (unfold n; lia).
  change (Z.to_nat 0) with 0%nat. rewrite drop_0. apply firstn_all.
Qed.

(** No sorted set of the Redis keyspace has more than [n] members. *)
Definition zsets_within (n : nat) (r : redis) : Prop :=
  ∀ k e z, r !! k = Some e → rval e = RZset z → (size z ≤ n)%nat.

Lemma live_zset_within n now k (r : redis) :
  zsets_within n r → (size (live_zset now k r) ≤ n)%nat.
Proof.
  intros Hr. unfold live_zset.
  destruct (rlookup now k r) as [[[h|z|st] d]|] eqn:E;
    rewrite ?map_size_empty; try lia.
  apply rlookup_Some in E as [E _]. by eapply Hr.
Qed.

Lemma after_writes_within ws :
  zsets_within (length ws) (redis_client (after_writes (init true true) ws)).
Proof.
  induction ws as [|w ws IH] using rev_ind.
  - intros k e z Hk. simpl in Hk. by rewrite lookup_empty in Hk.
  - rewrite after_writes_snoc, length_app. simpl length.
    pose proof (after_writes_typed json_dumps (init true true) ws (init_typed _ _)) as Hty.
    pose proof (after_writes_mode json_dumps (init true true) ws) as Hmode.
    destruct (Store.after_writes json_dumps (init true true) ws) as [m r sq].
    simpl in *. subst m.
    destruct (redis_takes (w_clock w) (w_data w)) eqn:Htakes; cycle 1.
    { unfold Store.apply_write. rewrite store_redis_refused by done. simpl.
      intros k e z Hk Hz. specialize (IH k e z Hk Hz). lia. }
    destruct (store_redis_spec json_dumps r sq (w_clock w) (w_symbol w)
                (w_interval w) (w_data w) Hty Htakes)
      as (r' & h & Hst & _ & Hts & Hck & Hother).
    unfold Store.apply_write. rewrite Hst. simpl.
    intros k e z Hk Hz.
    destruct (decide (k = ts_key (w_symbol w) (w_interval w))) as [->|Hn1].
    { rewrite Hts in Hk. injection Hk as <-. simpl in Hz. injection Hz as <-.
      pose proof (live_zset_within _ (w_clock w)
                    (ts_key (w_symbol w) (w_interval w)) r IH) as Hsz.
      destruct (live_zset (w_clock w) (ts_key (w_symbol w) (w_interval w)) r
                  !! json_dumps (w_data w)) eqn:Hm.
      - rewrite map_size_insert_Some by eauto. lia.
      - rewrite map_size_insert_None by done. lia. }
    destruct (decide (k = crypto_key (w_symbol w) (w_interval w))) as [->|Hn2].
    { rewrite Hck in Hk. injection Hk as <-. done. }
    rewrite Hother in Hk by done. specialize (IH k e z Hk Hz). lia.
Qed.

(** X2. With [limit >= 1], [get_crypto_data] returns at most [limit]
    records, on either backend and after every history of writes. *)
Theorem get_crypto_data_at_most_limit (USE_REDIS redis_reachable : bool)
    (ws : list write) (now : Z) (symbol interval : string) (limit : Z) :
  1 ≤ limit →
  ∃ l,
    get_crypto_data now symbol interval limit
      (after_writes (init USE_REDIS redis_reachable) ws) = Ok l
    ∧ Z.of_nat (length l) ≤ limit.
Proof.
  intros Hl.
  pose proof (after_writes_typed json_dumps (init USE_REDIS redis_reachable) ws
                (init_typed _ _)) as Hty.
  destruct (Store.after_writes json_dumps (init USE_REDIS redis_reachable) ws)
    as [[] r sq]; simpl in Hty.
  - rewrite get_redis_spec by done. eexists. split; [reflexivity|].
    unfold py_sorted. rewrite isort_length, length_map, zrange_slice_take by done.
    rewrite length_take. lia.
  - rewrite get_sqlite_spec. eexists. split; [reflexivity|].
    unfold py_sorted. rewrite isort_length, !length_map.
    unfold select_crypto_data. cbv zeta.
    replace (limit <? 0) with false by (symmetry; apply Z.ltb_ge; lia).
    rewrite length_take. lia.
Qed.

(** X3. The limit zero.  On SQLite [LIMIT 0] returns no record, whatever
    is stored.  On Redis the range [0 .. limit - 1] is then [0 .. -1], the
    whole sorted set: the call returns what it returns for a limit larger
    than the number of writes ever made. *)
Theorem limit_zero_is_nothing_on_sqlite_and_everything_on_redis
    (ws : list write) (now : Z) (symbol interval : string) :
  get_crypto_data now symbol interval 0 (after_writes (init false true) ws) = Ok []
  ∧ ∀ limit, Z.of_nat (length ws) < limit →
      get_crypto_data now symbol interval 0 (after_writes (init true true) ws)
      = get_crypto_data now symbol interval limit (after_writes (init true true) ws).
Proof.
  split.
  - pose proof (after_writes_mode json_dumps (init false true) ws) as Hmode.
    destruct (Store.after_writes json_dumps (init false true) ws) as [m r sq].
    simpl in Hmode. subst m. rewrite get_sqlite_spec.
    unfold select_crypto_data. cbv zeta. change (0 <? 0) with false.
    cbv iota. change (Z.to_nat 0) with 0%nat. by rewrite take_0.
  - intros limit Hl.
    pose proof (after_writes_typed json_dumps (init true true) ws (init_typed _ _)) as Hty.
    pose proof (after_writes_mode json_dumps (init true true) ws) as Hmode.
    pose proof (after_writes_within ws) as Hsz.
    destruct (Store.after_writes json_dumps (init true true) ws) as [m r sq].
    simpl in *. subst m. rewrite !get_redis_spec by done.
    rewrite zrange_slice_all, zrange_slice_take by lia.
    rewrite take_ge; [done|].
    rewrite isort_length, length_map_to_list.
    pose proof (live_zset_within _ now (ts_key symbol interval) r Hsz). lia.
Qed.

(** ** Writes the SQLite schema rejects, rows it keeps *)

(** X4. On SQLite a second record for the same series in the same second
    is rejected: whatever the state and the payloads, after a
    [store_crypto_data] that returned, the next one for the same symbol and
    interval at the same clock reading raises and leaves the database as it
    was.  It raises [OverflowError] if one of its four value columns holds
    an integer outside 64 bits, and [IntegrityError] otherwise. *)
Theorem sqlite_second_write_in_same_second_is_rejected
    (r : redis) (sq : sqlite) (t : Z) (symbol interval : string)
    (data1 data2 : pydict) (db1 : DatabaseManager) :
  store_crypto_data t symbol interval data1 (Manager false r sq) = (db1, Ok tt) →
  store_crypto_data t symbol interval data2 db1
  = (db1,
     Raise (if forallb (λ column, binds (dict_get_default column (VInt 0) data2))
                       ["price"; "volume"; "high"; "low"]%string
            then IntegrityError else OverflowError)).
Proof.
  intros Hst. rewrite store_sqlite_spec in Hst.
  destruct (sqlite_refusal data1); [done|].
  destruct (existsb _ _); [done|]. injection Hst as <-.
  rewrite store_sqlite_spec. unfold sqlite_refusal. cbn [forallb crypto_data].
  destruct (binds (dict_get_default "price" _ data2));
    destruct (binds (dict_get_default "volume" _ data2));
    destruct (binds (dict_get_default "high" _ data2));
    destruct (binds (dict_get_default "low" _ data2)); cbn [andb negb]; try done.
  destruct (existsb is_null _); [done|].
  rewrite existsb_app. cbn [existsb]. unfold same_key at 2.
  cbn [row_symbol row_interval row_timestamp].
  rewrite !String.eqb_refl, Z.eqb_refl. cbn. by rewrite orb_true_r.
Qed.

Lemma apply_write_sqlite_rows r sq w :
  ∃ sq' more,
    apply_write (Manager false r sq) w = Manager false r sq'
    ∧ crypto_data sq' = crypto_data sq ++ more.
Proof.
  unfold Store.apply_write. rewrite store_sqlite_spec.
  destruct (sqlite_refusal _); [exists sq, []; by rewrite app_nil_r|].
  destruct (existsb _ _); cbn [fst].
  - exists sq, []. by rewrite app_nil_r.
  - eexists _, _. split; [reflexivity|]. reflexivity.
Qed.

Lemma after_writes_sqlite_rows ws r sq :
  ∃ sq' more,
    after_writes (Manager false r sq) ws = Manager false r sq'
    ∧ crypto_data sq' = crypto_data sq ++ more.
Proof.
  induction ws as [|w ws IH] using rev_ind.
  - exists sq, []. by rewrite app_nil_r.
  - rewrite after_writes_snoc. destruct IH as (sq1 & more1 & -> & H1).
    destruct (apply_write_sqlite_rows r sq1 w) as (sq2 & more2 & -> & H2).
    exists sq2, (more1 ++ more2). split; [done|].
    by rewrite H2, H1, app_assoc.
Qed.

(** X5. SQLite applies no retention and no later write removes a row: a
    candle whose [store_crypto_data] returned without an exception is among
    the records that [get_crypto_data] returns with a negative limit (no
    limit), for its series, after every later history of writes and at
    every clock reading. *)
Theorem sqlite_keeps_every_stored_candle
    (r : redis) (sq : sqlite) (t : Z) (symbol interval : string) (data : pydict)
    (db1 : DatabaseManager) (ws : list write) (now limit : Z) :
  store_crypto_data t symbol interval data (Manager false r sq) = (db1, Ok tt) →
  limit < 0 →
  ∃ l,
    get_crypto_data now symbol interval limit (after_writes db1 ws) = Ok l
    ∧ dict_set "timestamp" (VInt t) (json_loads (json_dumps data)) ∈ l.
Proof.
  intros Hst Hl. rewrite store_sqlite_spec in Hst.
  destruct (sqlite_refusal _); [done|].
  destruct (existsb _ _); [done|]. injection Hst as <-.
  match goal with |- context [Store.after_writes _ (Manager false r ?s) ws] =>
    destruct (after_writes_sqlite_rows ws r s) as (sq' & more & -> & Hrows) end.
  cbn [crypto_data] in Hrows.
  rewrite get_sqlite_spec. eexists. split; [reflexivity|].
  unfold py_sorted. rewrite isort_elem.
  change (dict_set "timestamp" (VInt t) (json_loads (json_dumps data)))
    with (decode (row_pair (CryptoRow (crypto_data_seq sq + 1) symbol interval
            (dict_get_default "price" (VInt 0) data)
            (dict_get_default "volume" (VInt 0) data)
            (dict_get_default "high" (VInt 0) data)
            (dict_get_default "low" (VInt 0) data) t (json_dumps data)))).
  apply (list_elem_of_fmap_2 decode), (list_elem_of_fmap_2 row_pair).
  unfold select_crypto_data. cbv zeta.
  replace (limit <? 0) with true by (symmetry; apply Z.ltb_lt; lia).
  rewrite isort_elem. apply list_elem_of_filter. split; [done|].
  rewrite Hrows. set_solver.
Qed.

Lemma Sorted_le_NoDup_lt (l : list Z) :
  Sorted Z.le l → NoDup l → Sorted Z.lt l.
Proof.
  intros Hs Hn. apply Sorted_StronglySorted in Hs; [|intros ???; lia].
  induction Hs as [|x l Hs IH Hx]; [constructor|].
  apply NoDup_cons in Hn as [Hx' Hn].
  constructor; [by apply IH|].
  destruct l as [|y l]; constructor.
  apply Forall_cons in Hx as [Hxy _].
  assert (x ≠ y) by (intros ->; apply Hx'; left). lia.
Qed.

(** X6. On SQLite the arrival second identifies a record of a series:
    after every history of writes and for every limit, the records that
    [get_crypto_data] returns have strictly increasing timestamps. *)
Theorem sqlite_series_has_strictly_increasing_timestamps
    (redis_reachable : bool) (ws : list write) (now : Z)
    (symbol interval : string) (limit : Z) :
  ∃ l,
    get_crypto_data now symbol interval limit
      (after_writes (init false redis_reachable) ws) = Ok l
    ∧ Sorted Z.lt (map timestamp_of l).
Proof.
  destruct (sqlite_one_record_per_key json_dumps json_loads redis_reachable ws
              now symbol interval limit) as (l & Hl & Hnd).
  exists l. split; [done|]. apply Sorted_le_NoDup_lt; [|done].
  destruct (get_crypto_data_shape json_loads
              (Store.after_writes json_dumps (init false redis_reachable) ws)
              now symbol interval limit) as (ps & Hps).
  { apply after_writes_typed, init_typed. }
  rewrite Hl in Hps. injection Hps as ->. apply py_sorted_Sorted.
Qed.

(** ** A write after the expiry *)

(** X26. On Redis a write to an expired series starts the series afresh.
    After every history of writes: if at second [t] the key of the series is
    absent, or its deadline lies before [t], then a record without a [bool] or
    [None] value stored at [t] is written without an exception and is, while
    the clock reads less than [t] plus the seconds given to [EXPIRE], the
    only record that [get_crypto_data] returns for the series. *)
Theorem write_after_expiry_restarts_the_series
    (ws : list write) (t now : Z) (symbol interval : string) (data : pydict)
    (limit : Z) :
  rlookup t (ts_key symbol interval)
          (redis_client (after_writes (init true true) ws)) = None →
  encodable_record data = true →
  1 ≤ limit < 2 ^ 63 →
  now < t + ttl_of interval →
  ∃ db',
    store_crypto_data t symbol interval data (after_writes (init true true) ws)
    = (db', Ok tt)
    ∧ get_crypto_data now symbol interval limit db'
      = Ok [dict_set "timestamp" (VInt t) (json_loads (json_dumps data))].
Proof.
  intros Hfree Henc [Hl _] Hnow.
  pose proof (after_writes_typed json_dumps (init true true) ws (init_typed _ _)) as Hty.
  pose proof (after_writes_mode json_dumps (init true true) ws) as Hmode.
  destruct (Store.after_writes json_dumps (init true true) ws) as [m r sq].
  simpl in *. subst m.
  destruct (store_redis_spec json_dumps r sq t symbol interval data Hty
              (encodable_record_redis _ _ Henc))
    as (r' & h & Hst & Hty' & Hts & _).
  exists (Manager true r' sq). split; [done|].
  rewrite get_redis_spec by done.
  assert (Hempty : live_zset t (ts_key symbol interval) r = ∅)
    by (unfold live_zset; by rewrite Hfree).
  rewrite Hempty in Hts.
  rewrite (live_zset_live now _ r' _ _ Hts) by lia.
  rewrite insert_empty, map_to_list_singleton.
  cbn [isort insert_sorted]. rewrite zrange_slice_take by done.
  rewrite take_ge by (simpl; lia). reflexivity.
Qed.

End Edges.
(** ** The periodic update over the two backends *)

Section Update.
Variable json_dumps : pydict -> string.

Local Abbreviation store_crypto_data := (store_crypto_data json_dumps).
Local Abbreviation after_writes := (after_writes json_dumps).
Local Abbreviation store_each := (Radar.store_each json_dumps).
Local Abbreviation update_market_data := (Radar.update_market_data json_dumps).

Lemma store_each_redis clock calls :
  Forall (λ c, encodable_record (snd c) = true) calls →
  ∀ n r sq, redis_typed r →
    store_each clock n calls (Manager true r sq)
    = (after_writes (Manager true r sq) (Radar.writes_of clock n calls), Ok tt).
Proof.
  induction 1 as [|[[s i] d] calls Hd _ IH]; intros n r sq Hty; [done|].
  cbn [Radar.store_each Radar.writes_of]. unfold bind.
  destruct (store_redis_spec json_dumps r sq (clock n) s i d Hty
              (encodable_record_redis _ _ Hd))
    as (r' & h & Hst & Hty' & _).
  rewrite Hst. rewrite IH by done.
  unfold Store.after_writes. cbn [fold_left]. unfold apply_write.
  cbn [w_clock w_symbol w_interval w_data]. by rewrite Hst.
Qed.

(** X7. On Redis [update_market_data] stores everything it was given, as
    long as no record holds a [bool] or [None].  After every history of
    writes, for every collected [market_data] of such records and every run
    of the clock, no call of [store_crypto_data] raises, the function returns
    [True], and the store is the one reached by the history followed by one
    write per price record and per candle. *)
Theorem update_market_data_on_redis_stores_every_record
    (ws : list write) (clock : nat -> Z)
    (market_data : list (string * Radar.asset_data)) :
  Forall (λ call, encodable_record (snd call) = true) (Radar.store_calls market_data) →
  update_market_data clock market_data (after_writes (init true true) ws)
  = (after_writes (init true true)
       (ws ++ Radar.writes_of clock 0 (Radar.store_calls market_data)),
     true).
Proof.
  intros Henc. unfold Radar.update_market_data.
  pose proof (after_writes_typed json_dumps (init true true) ws (init_typed _ _)) as Hty.
  pose proof (after_writes_mode json_dumps (init true true) ws) as Hmode.
  unfold Store.after_writes at 2. rewrite fold_left_app.
  fold (Store.after_writes json_dumps (init true true) ws).
  destruct (Store.after_writes json_dumps (init true true) ws) as [m r sq].
  simpl in Hty, Hmode. subst m. by rewrite store_each_redis.
Qed.

Lemma store_each_sqlite t clock calls :
  (∀ n, clock n = t) →
  ∀ n r sq,
    snd (store_each clock n calls (Manager false r sq)) = Ok tt →
    NoDup (map fst calls)
    ∧ ∀ c, c ∈ calls →
        existsb (same_key (fst (fst c)) (snd (fst c)) t) (crypto_data sq) = false.
Proof.
  intros Hc. induction calls as [|[[s i] d] calls IH]; intros n r sq.
  - simpl. intros _. split; [constructor|]. intros c Hin.
    by apply elem_of_nil in Hin.
  - cbn [Radar.store_each]. unfold bind. rewrite store_sqlite_spec, Hc.
    destruct (sqlite_refusal d); [done|].
    destruct (existsb (same_key s i t) (crypto_data sq)) eqn:E; [done|].
    intros [Hnd Hrest]%IH. cbn [crypto_data map fst] in *. rewrite NoDup_cons.
    split; [split; [|done]|].
    + intros Hin. apply list_elem_of_fmap in Hin as ([[s' i'] d'] & Heq & Hin).
      simpl in Heq. injection Heq as <- <-.
      specialize (Hrest _ Hin). rewrite existsb_app in Hrest.
      apply orb_false_elim in Hrest as [_ Hrest]. simpl in Hrest.
      unfold same_key in Hrest. simpl in Hrest.
      by rewrite !String.eqb_refl, Z.eqb_refl in Hrest.
    + intros c Hin. apply elem_of_cons in Hin as [->|Hin]; [done|].
      specialize (Hrest _ Hin). rewrite existsb_app in Hrest.
      by apply orb_false_elim in Hrest as [Hrest _].
Qed.

(** X8. On SQLite an update made within one second succeeds only if no
    series gets two records.  If the clock reads the same second for every
    call of the update and [update_market_data] returns [True], then the
    collected data holds at most one record per (symbol, interval): the
    second record of a series raises from the [INSERT], the [except] branch
    returns [False] and the remaining records are not stored. *)
Theorem update_market_data_on_sqlite_needs_one_record_per_series
    (r : redis) (sq : sqlite) (t : Z) (clock : nat -> Z)
    (market_data : list (string * Radar.asset_data)) :
  (∀ n, clock n = t) →
  snd (update_market_data clock market_data (Manager false r sq)) = true →
  NoDup (map fst (Radar.store_calls market_data)).
Proof.
  intros Hc. unfold Radar.update_market_data.
  pose proof (store_each_sqlite t clock (Radar.store_calls market_data) Hc 0 r sq) as H.
  destruct (Radar.store_each json_dumps clock 0 (Radar.store_calls market_data)
              (Manager false r sq)) as [db' [[]|e]]; simpl in *; [|done].
  intros _. by apply H.
Qed.

End Update.

(** ** The theorems at concrete inputs *)

Lemma write_to_other_series_is_invisible_witness :
  get_crypto_data Json.json_loads 200 "BTC" "1m" 10
    (apply_write Json.json_dumps (run_redis [Write 100 "BTC" "1m" (tick 50000)])
       (Write 150 "ETH" "1m" (tick 3000)))
  = get_crypto_data Json.json_loads 200 "BTC" "1m" 10
      (run_redis [Write 100 "BTC" "1m" (tick 50000)]).
Proof.
  apply (write_to_other_series_is_invisible Json.json_dumps Json.json_loads).
  simpl. discriminate.
Defined.

Lemma get_crypto_data_at_most_limit_witness :
  ∃ l,
    get_crypto_data Json.json_loads 200 "BTC" "1m" 1
      (after_writes Json.json_dumps (init true true)
         [Write 100 "BTC" "1m" (tick 50000); Write 101 "BTC" "1m" (tick 50001)]) = Ok l
    ∧ Z.of_nat (length l) ≤ 1.
Proof.
  apply (get_crypto_data_at_most_limit Json.json_dumps Json.json_loads true true).
  lia.
Defined.

Lemma sqlite_keeps_every_stored_candle_witness :
  ∃ l,
    get_crypto_data Json.json_loads 1000000000 "BTC" "1m" (-1)
      (after_writes Json.json_dumps
         (fst (store_crypto_data Json.json_dumps 100 "BTC" "1m" (tick 50000)
                 (Manager false ∅ (Sqlite [] 0))))
         [Write 200 "BTC" "1m" (tick 50001)]) = Ok l
    ∧ dict_set "timestamp" (VInt 100)
        (Json.json_loads (Json.json_dumps (tick 50000))) ∈ l.
Proof.
  apply (sqlite_keeps_every_stored_candle Json.json_dumps Json.json_loads
           ∅ (Sqlite [] 0) 100 "BTC" "1m" (tick 50000)).
  - reflexivity.
  - lia.
Defined.

Definition one_asset : list (string * Radar.asset_data) :=
  [("BTC"%string, Radar.AssetData (tick 50000) [("1h"%string, [tick 1])])].

Lemma sqlite_second_write_in_same_second_is_rejected_witness :
  store_crypto_data Json.json_dumps 100 "BTC" "1m" (tick 50001)
    (fst (store_crypto_data Json.json_dumps 100 "BTC" "1m" (tick 50000)
            (Manager false ∅ (Sqlite [] 0))))
  = (fst (store_crypto_data Json.json_dumps 100 "BTC" "1m" (tick 50000)
            (Manager false ∅ (Sqlite [] 0))),
     Raise IntegrityError).
Proof.
  apply (sqlite_second_write_in_same_second_is_rejected Json.json_dumps
           ∅ (Sqlite [] 0) 100 "BTC" "1m" (tick 50000) (tick 50001)).
  reflexivity.
Defined.

Lemma update_market_data_on_redis_stores_every_record_witness :
  Radar.update_market_data Json.json_dumps (fun n => 100 + Z.of_nat n) one_asset
    (after_writes Json.json_dumps (init true true) [])
  = (after_writes Json.json_dumps (init true true)
       ([] ++ Radar.writes_of (fun n => 100 + Z.of_nat n) 0 (Radar.store_calls one_asset)),
     true).
Proof.
  apply (update_market_data_on_redis_stores_every_record Json.json_dumps
           [] (fun n => 100 + Z.of_nat n) one_asset).
  repeat constructor.
Defined.

Lemma update_market_data_on_sqlite_witness :
  NoDup (map fst (Radar.store_calls one_asset)).
Proof.
  apply (update_market_data_on_sqlite_needs_one_record_per_series
           Json.json_dumps ∅ (Sqlite [] 0) 100 (fun _ => 100) one_asset).
  - intros n. reflexivity.
  - vm_compute. reflexivity.
Defined.

Lemma write_after_expiry_restarts_the_series_witness :
  ∃ db',
    store_crypto_data Json.json_dumps 2000 "BTC" "1m" (tick 50001)
      (after_writes Json.json_dumps (init true true) [Write 0 "BTC" "1m" (tick 50000)])
    = (db', Ok tt)
    ∧ get_crypto_data Json.json_loads 2001 "BTC" "1m" 10 db'
      = Ok [dict_set "timestamp" (VInt 2000)
              (Json.json_loads (Json.json_dumps (tick 50001)))].
Proof.
  apply (write_after_expiry_restarts_the_series Json.json_dumps Json.json_loads
           [Write 0 "BTC" "1m" (tick 50000)] 2000 2001 "BTC" "1m" (tick 50001) 10).
  - reflexivity.
  - reflexivity.
  - lia.
  - vm_compute. reflexivity.
Defined.

End StoreEdges.

(** * Proofs about the analysis results *)

Module AnalysisProofs.
Import Py Store StoreProofs Analysis.

Lemma analysis_key_not_timeline id : ("analysis:analysis_" +:+ id)%string ≠ timeline.
Proof. unfold timeline. simpl. discriminate. Qed.

Section Latest.
Variable json_dumps : jval -> string.
Variable json_loads : string -> option jval.

Local Abbreviation store_analysis_result := (store_analysis_result json_dumps).
Local Abbreviation get_latest_analysis := (get_latest_analysis json_loads).

(** The Redis key of the report stored at second [t]. *)
Definition report_key (t : Z) : string := "analysis:" +:+ ("analysis_" +:+ pretty t).

(** The timeline holds only reports of seconds before [t] and has no
    expiry. *)
Definition timeline_before (t : Z) (r : redis) : Prop :=
  match r !! timeline with
  | None => True
  | Some e => ∃ z, e = REntry (RZset z) None ∧ ∀ m sc, z !! m = Some sc → sc < t
  end.

Lemma zrevrange_newest now r z d t id :
  r !! timeline = Some (REntry (RZset (<[id := t]> z)) d) →
  expired now (REntry (RZset (<[id := t]> z)) d) = false →
  (∀ m sc, z !! m = Some sc → sc < t) →
  ∃ sc, zrevrange now timeline 0 0 r = Ok [(id, sc)].
Proof.
  intros Hr Hex Hz. unfold zrevrange, rlookup. rewrite Hr, Hex.
  destruct (isort_head zrev_leb (id, t) (map_to_list (<[id := t]> z)))
    as [rest Hrest].
  - apply zrev_leb_refl.
  - intros [m sc] Hin. apply elem_of_map_to_list in Hin.
    apply lookup_insert_Some in Hin as [[<- <-]|[Hne Hin]]; [by left|right].
    apply zrev_leb_higher. by eapply Hz.
  - apply elem_of_map_to_list, lookup_insert_eq.
  - rewrite Hrest. by exists t.
Qed.

(** The text that Redis holds for a value of the report, if redis-py
    encodes the value: the JSON text of a list or a dictionary, the text of
    a number, a string as it is. *)
Definition stored_text (v : jval) : option string :=
  match v with
  | JList _ | JDict _ => Some (json_dumps v)
  | JInt z => Some (pretty z)
  | JStr s => Some s
  | JFloat r => Some r
  | JBool _ | JNull => None
  end.

(** The value is encoded, and the loop of [get_latest_analysis] reads its
    text back as the value. *)
Definition reads_back (v : jval) : Prop :=
  ∃ text, stored_text v = Some text ∧ parse_field json_loads text = v.

Lemma hash_update_list fields (h : gmap string string) :
  hash_update fields h = list_to_map (rev fields) ∪ h.
Proof.
  unfold hash_update. revert h.
  induction fields as [|[k v] fields IH]; intros h; simpl.
  - by rewrite (left_id_L ∅ (∪)).
  - rewrite IH, list_to_map_app. simpl. rewrite insert_empty.
    by rewrite <- (assoc_L (∪)), <- insert_union_singleton_l.
Qed.

Lemma list_to_map_report_set k v (d : report) :
  (list_to_map (report_set k v d) : gmap string jval) = <[k := v]> (list_to_map d).
Proof.
  induction d as [|[k' v'] d IH]; simpl; [done|].
  destruct (String.eqb k k') eqn:E; simpl.
  - apply String.eqb_eq in E as <-. by rewrite insert_insert_eq.
  - apply String.eqb_neq in E. by rewrite IH, insert_insert_ne.
Qed.

Lemma report_set_nonempty k v (d : report) : report_set k v d ≠ [].
Proof. destruct d as [|[k' v'] d]; simpl; [done|]. by destruct (String.eqb k k'). Qed.

Lemma report_set_keys k v (d : report) :
  NoDup (map fst d) → NoDup (map fst (report_set k v d)).
Proof.
  induction d as [|[k' v'] d IH]; simpl; intros Hnd.
  - apply NoDup_singleton.
  - apply NoDup_cons in Hnd as [Hk Hnd].
    destruct (String.eqb k k') eqn:E; simpl.
    + apply String.eqb_eq in E as <-. by apply NoDup_cons.
    + apply NoDup_cons. split; [|by apply IH].
      apply String.eqb_neq in E. intros Hin. apply Hk.
      clear IH Hnd Hk. induction d as [|[k2 v2] d IH]; simpl in *.
      * apply list_elem_of_singleton in Hin. congruence.
      * destruct (String.eqb k k2) eqn:E2; simpl in *.
        -- apply String.eqb_eq in E2 as <-.
           apply elem_of_cons in Hin as [Hin|Hin]; [congruence|by right].
        -- apply elem_of_cons in Hin as [Hin|Hin]; [subst; by left|right; by apply IH].
Qed.

Lemma report_set_reads_back k v (d : report) :
  reads_back v → Forall (λ kv, reads_back (snd kv)) d →
  Forall (λ kv, reads_back (snd kv)) (report_set k v d).
Proof.
  intros Hv. induction 1 as [|[k' v'] d Hx Hd IH]; simpl.
  - by constructor.
  - destruct (String.eqb k k'); constructor; done.
Qed.

(** What [hset] sends for a report whose values read back. *)
Lemma redis_mapping_fields (d : report) :
  Forall (λ kv, reads_back (snd kv)) d →
  ∃ fields,
    encode_mapping redis_encode (redis_mapping json_dumps d) = Some fields
    ∧ length fields = length d
    ∧ map (prod_map id (parse_field json_loads)) fields = d.
Proof.
  induction 1 as [|[k v] d (text & Htext & Hparse) _ (fields & Henc & Hlen & Hmap)].
  - by exists [].
  - exists ((k, text) :: fields). cbn [redis_mapping map encode_mapping].
    fold (redis_mapping json_dumps d). rewrite Henc. cbn [snd] in Htext, Hparse.
    split; [|split; [simpl; by rewrite Hlen|]].
    + destruct v; simpl in Htext |- *; by simplify_eq.
    + cbn [map]. rewrite Hmap. unfold prod_map at 1. cbn [fst snd id]. by rewrite Hparse.
Qed.

(** X9. On Redis the latest report outlives its content.  Take a store
    whose timeline holds only reports of earlier seconds and in which the
    key of second [t] is free, and a report with distinct keys each of whose
    values redis-py encodes and the reading loop reads back as it was, as it
    does the clock reading.  The report stored at [t] is written without an
    exception; while the clock reads less than thirty days past [t],
    [get_latest_analysis] returns the report with its [timestamp] set to
    [t]; once the clock reads more than that, the call returns an empty
    dictionary,
    not [None]: the report's hash has expired and its entry in the timeline,
    which has no expiry, has not. *)
Theorem latest_analysis_on_redis_is_the_report_then_empty
    (r : redis) (sq : sqlite) (rows : list analysis_row) (t : Z) (data : report) :
  timeline_before t r →
  rlookup t (report_key t) r = None →
  NoDup (map fst data) →
  Forall (λ kv, reads_back (snd kv)) data →
  reads_back (JInt t) →
  ∃ db',
    store_analysis_result t data (Database (Manager true r sq) rows) = (db', Done tt)
    ∧ (∀ now, now < t + 2592000 →
         get_latest_analysis now db'
         = Done (Some (<["timestamp"%string := JInt t]> (list_to_map (rev data)))))
    ∧ (∀ now, t + 2592000 < now →
         get_latest_analysis now db' = Done (Some ∅)).
Proof.
  intros Htl Hfree Hkeys Hvalues Hclock. unfold Analysis.store_analysis_result.
  cbn [manager use_redis]. cbv zeta. fold (report_key t).
  set (stamped := report_set "timestamp" (JInt t) data).
  set (id := ("analysis_" +:+ pretty t)%string).
  destruct (redis_mapping_fields stamped) as (fields & Henc & Hlen & Hmap).
  { by apply report_set_reads_back. }
  assert (Hfields : ∃ f fs, fields = f :: fs).
  { destruct fields as [|f fs]; [|by eexists _, _].
    pose proof (report_set_nonempty "timestamp" (JInt t) data) as Hne.
    fold stamped in Hne. by destruct stamped. }
  destruct Hfields as (f & fs & Hfs).
  set (h := hash_update fields ∅).
  assert (Hh : parse_field json_loads <$> h
               = <["timestamp"%string := JInt t]> (list_to_map (rev data))).
  { unfold h. rewrite hash_update_list, (right_id_L ∅ (∪)).
    rewrite <- list_to_map_fmap.
    change (?f <$> rev fields) with (map f (rev fields)).
    rewrite map_rev, Hmap.
    assert (Hnd : NoDup (map fst stamped)) by (by apply report_set_keys).
    rewrite <- (list_to_map_proper stamped (rev stamped)); [|done|apply Permutation_rev].
    unfold stamped. rewrite list_to_map_report_set. f_equal.
    apply list_to_map_proper; [done|apply Permutation_rev]. }
  assert (Hne : report_key t ≠ timeline) by apply analysis_key_not_timeline.
  (* the three commands *)
  set (r1 := <[report_key t := REntry (RHash h) None]> r).
  assert (E1 : hset redis_encode t (report_key t) (redis_mapping json_dumps stamped) r
               = (r1, Ok tt)).
  { unfold hset. by rewrite Henc, Hfs, <- Hfs, Hfree. }
  set (r2 := <[report_key t := REntry (RHash h) (Some (t + 2592000))]> r1).
  assert (E2 : expire t (report_key t) (60 * 60 * 24 * 30) r1 = (r2, Ok tt)).
  { apply (expire_live _ _ _ None); [|done].
    unfold r1. by rewrite rlookup_insert_eq. }
  assert (Htl2 : r2 !! timeline = r !! timeline).
  { unfold r2, r1. by rewrite !lookup_insert_ne. }
  assert (E3 : ∃ z r3,
             zadd t timeline id t r2 = (r3, Ok tt)
             ∧ r3 !! timeline = Some (REntry (RZset (<[id := t]> z)) None)
             ∧ (∀ m sc, z !! m = Some sc → sc < t)
             ∧ r3 !! report_key t = Some (REntry (RHash h) (Some (t + 2592000)))).
  { unfold zadd, rlookup. rewrite Htl2. unfold timeline_before in Htl.
    destruct (r !! timeline) as [e|] eqn:Er.
    - destruct Htl as (z & -> & Hz). cbn [expired rdeadline].
      exists z. eexists. split; [reflexivity|].
      rewrite lookup_insert_eq. split; [done|]. split; [done|].
      rewrite lookup_insert_ne by done. unfold r2. by rewrite lookup_insert_eq.
    - exists ∅. eexists. split; [reflexivity|].
      rewrite lookup_insert_eq. split; [done|]. split.
      + intros m sc H. by rewrite lookup_empty in H.
      + rewrite lookup_insert_ne by done. unfold r2. by rewrite lookup_insert_eq. }
  destruct E3 as (z & r3 & E3 & Hz3 & Hbelow & Hk3).
  eexists. split.
  { unfold bind, on_redis. cbn [redis_client use_redis sqlite_conn].
    rewrite E1. cbn [redis_client use_redis sqlite_conn].
    rewrite E2. cbn [redis_client use_redis sqlite_conn].
    rewrite E3. reflexivity. }
  assert (Hz : ∀ now, ∃ sc, zrevrange now timeline 0 0 r3 = Ok [(id, sc)]).
  { intros now. by eapply zrevrange_newest. }
  split.
  - intros now Hn. unfold Analysis.get_latest_analysis.
    cbn [manager use_redis redis_client].
    destruct (Hz now) as [sc ->].
    change ("analysis:" +:+ id)%string with (report_key t).
    unfold hgetall, rlookup. rewrite Hk3. cbn [expired rdeadline].
    replace (t + 2592000 <? now) with false by (symmetry; apply Z.ltb_ge; lia).
    by rewrite Hh.
  - intros now Hn. unfold Analysis.get_latest_analysis.
    cbn [manager use_redis redis_client].
    destruct (Hz now) as [sc ->].
    change ("analysis:" +:+ id)%string with (report_key t).
    unfold hgetall, rlookup. rewrite Hk3. cbn [expired rdeadline].
    replace (t + 2592000 <? now) with true by (symmetry; apply Z.ltb_lt; lia).
    by rewrite fmap_empty.
Qed.




(** X11. On SQLite a second report in the same second is not stored.
    After a [store_analysis_result] that returned, the next one at the same
    clock reading raises, [IntegrityError] unless its title or summary
    cannot be bound, and leaves the table as it was: the identifier is
    [analysis_<second>] and the column is [UNIQUE]. *)
Theorem second_analysis_in_same_second_is_not_stored
    (r : redis) (sq : sqlite) (rows : list analysis_row) (t : Z)
    (data1 data2 : report) (db1 : database) :
  store_analysis_result t data1 (Database (Manager false r sq) rows) = (db1, Done tt) →
  ∃ e, store_analysis_result t data2 db1 = (db1, Failed e)
       ∧ (e = DbError IntegrityError ∨ e = BindingError).
Proof.
  unfold Analysis.store_analysis_result. cbn [manager use_redis analysis_results].
  cbv zeta. intros H1.
  assert (Hrefused : ∀ (db : database) title summary,
            ∃ e, (if forallb bindable [title; summary]
                  then (db, Failed (DbError IntegrityError))
                  else (db, @Failed unit BindingError)) = (db, Failed e)
                 ∧ (e = DbError IntegrityError ∨ e = BindingError)).
  { intros db title summary.
    destruct (forallb bindable [title; summary]);
      [exists (DbError IntegrityError)|exists BindingError]; split; auto. }
  destruct (bind_parameter (report_get "title" _ data1)) as [t1|];
    [|by destruct (forallb _ _)].
  destruct (bind_parameter (report_get "summary" _ data1)) as [s1|];
    [|by destruct (forallb _ _)].
  destruct (existsb _ rows); [done|]. injection H1 as <-.
  cbn [manager use_redis analysis_results].
  destruct (bind_parameter (report_get "title" _ data2)) as [t2|];
    [|apply Hrefused].
  destruct (bind_parameter (report_get "summary" _ data2)) as [s2|];
    [|apply Hrefused].
  rewrite existsb_app. cbn [existsb a_analysis_id].
  rewrite String.eqb_refl. cbn [orb]. rewrite orb_true_r.
  exists (DbError IntegrityError). split; [done|by left].
Qed.

End Latest.
(** ** The theorems at concrete inputs *)

Definition daily : report :=
  [("title"%string, JStr "Daily report");
   ("score"%string, JInt 7);
   ("trends"%string, JList [JStr "BTC up"; JStr "ETH flat"])].

Definition empty_redis : database := Database (Manager true ∅ (Sqlite [] 0)) [].
Definition empty_sqlite : database := Database (Manager false ∅ (Sqlite [] 0)) [].

Lemma latest_analysis_on_redis_witness :
  ∃ db',
    store_analysis_result JsonValue.dumps 100 daily empty_redis = (db', Done tt)
    ∧ (∀ now, now < 100 + 2592000 →
         get_latest_analysis JsonValue.loads now db'
         = Done (Some (<["timestamp"%string := JInt 100]> (list_to_map (rev daily)))))
    ∧ (∀ now, 100 + 2592000 < now →
         get_latest_analysis JsonValue.loads now db' = Done (Some ∅)).
Proof.
  apply (latest_analysis_on_redis_is_the_report_then_empty
           JsonValue.dumps JsonValue.loads ∅ (Sqlite [] 0) [] 100 daily).
  - unfold timeline_before. by rewrite lookup_empty.
  - reflexivity.
  - apply (bool_decide_unpack _). vm_compute. reflexivity.
  - repeat constructor; eexists; (split; [reflexivity|vm_compute; reflexivity]).
  - eexists. split; [reflexivity|vm_compute; reflexivity].
Defined.


Lemma second_analysis_in_same_second_witness :
  ∃ e,
    store_analysis_result JsonValue.dumps 100 daily
      (fst (store_analysis_result JsonValue.dumps 100 daily empty_sqlite))
    = (fst (store_analysis_result JsonValue.dumps 100 daily empty_sqlite), Failed e)
    ∧ (e = DbError IntegrityError ∨ e = BindingError).
Proof.
  apply (second_analysis_in_same_second_is_not_stored JsonValue.dumps
           ∅ (Sqlite [] 0) [] 100 daily daily).
  reflexivity.
Defined.

(** ** Where the two backends differ on analysis reports *)

(** The field [k] of what [get_latest_analysis] returns at [now] after
    [store_analysis_result(data)] at second 100 on the empty store [db]. *)
Definition latest_field (k : string) (now : Z) (data : report) (db : database)
  : outcome (option (option jval)) :=
  match get_latest_analysis JsonValue.loads now
          (fst (store_analysis_result JsonValue.dumps 100 data db)) with
  | Done (Some fields) => Done (Some (fields !! k))
  | Done None => Done None
  | Failed e => Failed e
  end.

(** More than thirty days after it was stored, the latest report comes back
    from SQLite as it was and from Redis as an empty dictionary. *)
Lemma analysis_differs_after_thirty_days :
  latest_field "title" (100 + 2592001) daily empty_redis = Done (Some None)
  ∧ latest_field "title" (100 + 2592001) daily empty_sqlite
    = Done (Some (Some (JStr "Daily report"))).
Proof. split; vm_compute; reflexivity. Qed.

(** At once after the write the backends differ on a string that is JSON
    text: Redis returns the number, SQLite the string. *)
Lemma analysis_differs_on_json_text :
  latest_field "title" 100 [("title"%string, JStr "7")] empty_redis
  = Done (Some (Some (JInt 7)))
  ∧ latest_field "title" 100 [("title"%string, JStr "7")] empty_sqlite
    = Done (Some (Some (JStr "7"))).
Proof. split; vm_compute; reflexivity. Qed.

(** A report with a [bool] is refused by redis-py, and nothing is stored;
    SQLite stores and returns it. *)
Lemma analysis_differs_on_bool :
  snd (store_analysis_result JsonValue.dumps 100 [("bullish"%string, JBool true)]
         empty_redis) = Failed (DbError DataError)
  ∧ latest_field "bullish" 100 [("bullish"%string, JBool true)] empty_redis = Done None
  ∧ snd (store_analysis_result JsonValue.dumps 100 [("bullish"%string, JBool true)]
           empty_sqlite) = Done tt
  ∧ latest_field "bullish" 100 [("bullish"%string, JBool true)] empty_sqlite
    = Done (Some (Some (JBool true))).
Proof. repeat split; vm_compute; reflexivity. Qed.

End AnalysisProofs.

(** * Proofs about the news items *)

Module NewsProofs.
Import Py Store StoreProofs Analysis News.

Lemma encode_mapping_refused {A} (encode : A → option string) mapping k v :
  (k, v) ∈ mapping → encode v = None → encode_mapping encode mapping = None.
Proof.
  induction mapping as [|[k' v'] mapping IH]; intros Hin Hv.
  - by apply elem_of_nil in Hin.
  - simpl. apply elem_of_cons in Hin as [[= <- <-]|Hin].
    + by rewrite Hv.
    + rewrite (IH Hin Hv). by destruct (encode v').
Qed.

Lemma report_lookup_set_ne k k' v (d : report) :
  k ≠ k' → report_lookup k (report_set k' v d) = report_lookup k d.
Proof.
  intros Hk. induction d as [|[k2 v2] d IH]; simpl.
  - apply String.eqb_neq in Hk. by rewrite Hk.
  - destruct (String.eqb k' k2) eqn:E; simpl.
    + apply String.eqb_eq in E as <-. apply String.eqb_neq in Hk. by rewrite Hk.
    + by rewrite IH.
Qed.

Lemma report_lookup_elem k v (d : report) :
  report_lookup k d = Some v → (k, v) ∈ d.
Proof.
  induction d as [|[k' v'] d IH]; simpl; [done|].
  destruct (String.eqb k k') eqn:E.
  - apply String.eqb_eq in E as <-. intros [= <-]. left.
  - intros H. right. by apply IH.
Qed.

Section Refused.
Variable json_dumps : jval -> string.

(** X29. On Redis an item with a list of categories is never stored.  The
    collectors give every item a list under [categories]; for such an item,
    in every state of the store, [store_news_data] raises [DataError] from
    [hset], before any command is sent, and leaves the store as it was. *)
Theorem news_item_with_categories_is_refused_on_redis
    (db : database) (now : Z) (source : string) (news_data : report)
    (categories : list jval) :
  use_redis (manager db) = true →
  report_lookup "categories" news_data = Some (JList categories) →
  store_news_data json_dumps now source news_data db = (db, Raised (Db DataError)).
Proof.
  intros Hmode Hcat. unfold store_news_data. rewrite Hmode. cbv zeta.
  destruct (news_encode (report_get "id" _ news_data)) as [id|]; [|done].
  unfold bind, on_redis.
  rewrite hset_refused; [by destruct db as [[mode r sq] rows cats assets]|].
  apply (encode_mapping_refused _ _ "categories" (JList categories)); [|done].
  apply report_lookup_elem. by rewrite !report_lookup_set_ne.
Qed.
End Refused.

(** ** Where the two backends differ on news items *)

Definition empty_redis : database := Database (Manager true ∅ (Sqlite [] 0)) [] [] [].
Definition empty_sqlite : database := Database (Manager false ∅ (Sqlite [] 0)) [] [] [].

(** An item as the RSS collector builds it. *)
Definition collected : report :=
  [("id"%string, JStr "rss_42");
   ("title"%string, JStr "Bitcoin rallies");
   ("description"%string, JStr "Prices rise");
   ("content"%string, JStr "Prices rise");
   ("url"%string, JStr "https://example.org/a");
   ("source"%string, JStr "CoinDesk");
   ("published_at"%string, JStr "2021-07-01T00:00:00Z");
   ("timestamp"%string, JInt 90);
   ("related_assets"%string, JList [JStr "BTC"]);
   ("categories"%string, JList [JStr "market"]);
   ("author"%string, JStr "A. Writer")].

(** An item without lists. *)
Definition headline : report :=
  [("id"%string, JStr "n1"); ("title"%string, JStr "T")].

(** [store_news_data("CoinDesk", item)] at second 100 on the store [db]. *)
Definition stored (item : report) (db : database) : database * result unit :=
  store_news_data JsonValue.dumps 100 "CoinDesk" item db.

(** The field [k] of the items that [get_news_data(50)] returns at [now]. *)
Definition fields_read (k : string) (now : Z) (db : database)
  : result (list (option jval)) :=
  match get_news_data JsonValue.loads now 50 db with
  | Returned items => Returned (map (fun item : gmap string jval => item !! k) items)
  | Raised f => Raised f
  end.

Lemma news_item_with_categories_is_refused_on_redis_witness :
  stored collected empty_redis = (empty_redis, Raised (Db DataError)).
Proof.
  apply (news_item_with_categories_is_refused_on_redis JsonValue.dumps
           empty_redis 100 "CoinDesk" collected [JStr "market"]).
  - reflexivity.
  - reflexivity.
Defined.

(** A collected item is refused by Redis and stored by SQLite, and a read
    that follows returns nothing on Redis and the item on SQLite. *)
Lemma news_differs_on_collected_item :
  snd (stored collected empty_redis) = Raised (Db DataError)
  ∧ fields_read "title" 100 (fst (stored collected empty_redis)) = Returned []
  ∧ snd (stored collected empty_sqlite) = Returned tt
  ∧ fields_read "title" 100 (fst (stored collected empty_sqlite))
    = Returned [Some (JStr "Bitcoin rallies")]
  ∧ fields_read "categories" 100 (fst (stored collected empty_sqlite))
    = Returned [Some (JList [JStr "market"])].
Proof. repeat split; vm_compute; reflexivity. Qed.

(** An item without lists is stored by both.  Redis returns it with the
    [source] it was stored under, SQLite without; seven days later Redis
    returns nothing and SQLite the item. *)
Lemma news_differs_on_source_and_retention :
  snd (stored headline empty_redis) = Returned tt
  ∧ snd (stored headline empty_sqlite) = Returned tt
  ∧ fields_read "source" 100 (fst (stored headline empty_redis))
    = Returned [Some (JStr "CoinDesk")]
  ∧ fields_read "source" 100 (fst (stored headline empty_sqlite)) = Returned [None]
  ∧ fields_read "title" (100 + 604801) (fst (stored headline empty_redis)) = Returned []
  ∧ fields_read "title" (100 + 604801) (fst (stored headline empty_sqlite))
    = Returned [Some (JStr "T")].
Proof. repeat split; vm_compute; reflexivity. Qed.

End NewsProofs.

(** * More about the stream manager: the registry and the threads *)

Module StreamRegistry.
Import Stream.

(** Every registered connection is a thread that was started under the
    name it is registered under. *)
Definition registry_sound (s : state) : Prop :=
  ∀ name tid, connections (mgr s) !! name = Some tid →
    ∃ p, threads s !! tid = Some (Thread name p).

Lemma close_connection_threads name s :
  threads (close_connection name s) = threads s.
Proof. unfold close_connection. by destruct (connections (mgr s) !! name). Qed.

Lemma close_connection_connections name s :
  connections (mgr (close_connection name s)) = delete name (connections (mgr s)).
Proof.
  unfold close_connection.
  destruct (connections (mgr s) !! name) eqn:E; simpl; [done|].
  by rewrite delete_id.
Qed.

Lemma close_connection_sound name s :
  registry_sound s → registry_sound (close_connection name s).
Proof.
  intros Hs n tid. rewrite close_connection_connections, close_connection_threads.
  intros H. apply lookup_delete_Some in H as [_ H]. by apply Hs.
Qed.

Lemma start_connection_thread_sound name s :
  registry_sound s → registry_sound (start_connection_thread name s).
Proof.
  intros Hs n tid. unfold start_connection_thread. simpl. intros H.
  apply lookup_insert_Some in H as [[<- <-]|[Hne H]].
  - exists Running. by rewrite lookup_app_r, Nat.sub_diag.
  - destruct (Hs _ _ H) as [p Hp]. exists p. by apply lookup_app_l_Some.
Qed.

Lemma set_phase_sound tid p s :
  registry_sound s → registry_sound (set_phase tid p s).
Proof.
  intros Hs n tid'. unfold set_phase. simpl. intros H.
  destruct (Hs _ _ H) as [q Hq].
  destruct (decide (tid = tid')) as [->|Hne].
  - exists p. by rewrite list_lookup_alter_eq, Hq.
  - exists q. by rewrite list_lookup_alter_ne.
Qed.

Lemma close_all_threads s : threads (close_all s) = threads s.
Proof.
  unfold close_all. simpl.
  generalize (map fst (map_to_list (connections (mgr s)))). intros names.
  revert s. induction names as [|n names IH]; intros s; [done|].
  simpl. by rewrite IH, close_connection_threads.
Qed.

Lemma step_sound s l : registry_sound s → registry_sound (step s l).
Proof.
  intros Hs. destruct l as [name i|name| |tid|tid]; simpl.
  - unfold add_connection. apply start_connection_thread_sound.
    assert (H1 : registry_sound
                   (match connections (mgr s) !! name with
                    | Some _ => close_connection name s
                    | None => s
                    end))
      by (destruct (connections (mgr s) !! name); [by apply close_connection_sound|done]).
    intros n tid. simpl. apply H1.
  - by apply close_connection_sound.
  - intros n tid. unfold close_all. simpl. intros H.
    by rewrite lookup_empty in H.
  - unfold on_close_wrapper_begin.
    destruct (threads s !! tid) as [[n []]|]; try done.
    destruct (stop_events (mgr s) !! n) as [[]|]; by apply set_phase_sound.
  - unfold on_close_wrapper_resume.
    destruct (threads s !! tid) as [[n []]|]; try done.
    by apply start_connection_thread_sound, set_phase_sound.
Qed.

(** X12. The registry only names threads that were started under that
    name.  After every sequence of calls and thread events, each entry of
    [connections] is the connection of a thread that [_start_connection_thread]
    started under the entry's name. *)
Theorem registered_connections_belong_to_their_name (ls : list label) :
  map_Forall
    (λ name tid, ∃ p, threads (run ls) !! tid = Some (Thread name p))
    (connections (mgr (run ls))).
Proof.
  intros name tid. revert name tid. change (registry_sound (run ls)).
  unfold run. induction ls as [|l ls IH] using rev_ind.
  - intros n tid H. simpl in H. by rewrite lookup_empty in H.
  - rewrite fold_left_app. simpl. by apply step_sound.
Qed.

(** X13. Closing twice is closing once.  After [close_connection(name)]
    the name is not registered, and a second [close_connection(name)]
    changes neither the dictionaries of the manager nor any thread. *)
Theorem close_connection_twice_changes_nothing (s : state) (name : string) :
  let s1 := close_connection name s in
  connections (mgr s1) !! name = None
  ∧ mgr (close_connection name s1) = mgr s1
  ∧ threads (close_connection name s1) = threads s1.
Proof.
  cbv zeta. split; [|split].
  - rewrite close_connection_connections. apply lookup_delete_eq.
  - assert (H : connections (mgr (close_connection name s)) !! name = None)
      by (rewrite close_connection_connections; apply lookup_delete_eq).
    unfold close_connection at 1. rewrite H. by destruct (mgr _).
  - apply close_connection_threads.
Qed.

(** X14. A close that arrives while the connection is open ends the
    stream.  If a thread runs the registered connection of [name] and the
    name has a stop event, then after [close_connection(name)], the end of
    [run_forever] and any later wake-up of the thread, the thread has
    finished, no new connection was started and the name is not registered. *)
Theorem close_of_running_connection_ends_the_stream
    (s : state) (tid conn : nat) (name : string) (flag : bool) :
  threads s !! tid = Some (Thread name Running) →
  connections (mgr s) !! name = Some conn →
  stop_events (mgr s) !! name = Some flag →
  let s' := fold_left step
              [CloseConnection name; SocketClosed tid; SleepElapsed tid] s in
  threads s' !! tid = Some (Thread name Finished)
  ∧ length (threads s') = length (threads s)
  ∧ connections (mgr s') !! name = None.
Proof.
  intros Ht Hc He. cbv zeta. simpl fold_left.
  unfold close_connection, on_close_wrapper_begin. rewrite Hc, He. simpl.
  rewrite Ht, lookup_insert_eq. simpl.
  unfold on_close_wrapper_resume. simpl.
  rewrite list_lookup_alter_eq, Ht. simpl.
  split; [by rewrite list_lookup_alter_eq, Ht|].
  split; [by rewrite length_alter|]. apply lookup_delete_eq.
Qed.

(** X15. After [close_all()] the registry is empty and no open connection
    reconnects.  Whatever the state, [close_all] leaves no entry in
    [connections], and a thread that was inside [run_forever] finishes at the
    end of [run_forever] without sleeping or reconnecting, because the stop
    events were discarded. *)
Theorem close_all_stops_every_open_connection
    (s : state) (tid : nat) (name : string) :
  threads s !! tid = Some (Thread name Running) →
  connections (mgr (close_all s)) = ∅
  ∧ threads (on_close_wrapper_begin tid (close_all s)) !! tid
    = Some (Thread name Finished).
Proof.
  intros Ht. split; [done|].
  unfold on_close_wrapper_begin. rewrite close_all_threads, Ht.
  change (stop_events (mgr (close_all s))) with (∅ : gmap string bool).
  rewrite lookup_empty. unfold set_phase. cbn [threads].
  by rewrite close_all_threads, list_lookup_alter_eq, Ht.
Qed.

(** X16. Re-adding a name can leave two open connections.  [add_connection]
    on a registered name closes the old connection and at once installs a
    fresh stop event under the name.  If the old thread's close callback
    runs after that, it finds the fresh event unset, sleeps and reconnects:
    then the connection started by [add_connection] and the one started by
    the old thread are both open, and only the latter is registered. *)
Theorem readding_a_name_can_leave_two_open_connections
    (s : state) (tid conn : nat) (name : string) (interval : Z) :
  threads s !! tid = Some (Thread name Running) →
  connections (mgr s) !! name = Some conn →
  let s' := fold_left step
              [AddConnection name interval; SocketClosed tid; SleepElapsed tid] s in
  let n := length (threads s) in
  threads s' !! n = Some (Thread name Running)
  ∧ threads s' !! S n = Some (Thread name Running)
  ∧ connections (mgr s') !! name = Some (S n).
Proof.
  intros Ht Hc. cbv zeta. simpl fold_left.
  assert (Hlt : (tid < length (threads s))%nat) by (by eapply lookup_lt_Some).
  set (s1 := add_connection name interval s).
  assert (Hth1 : threads s1 = threads s ++ [Thread name Running]).
  { unfold s1, add_connection. rewrite Hc. unfold start_connection_thread.
    cbn [threads]. by rewrite close_connection_threads. }
  assert (Hst1 : stop_events (mgr s1) !! name = Some false).
  { unfold s1, add_connection, start_connection_thread. cbn [mgr stop_events].
    apply lookup_insert_eq. }
  assert (Hri1 : reconnect_intervals (mgr s1) !! name = Some interval).
  { unfold s1, add_connection, start_connection_thread.
    cbn [mgr reconnect_intervals]. apply lookup_insert_eq. }
  assert (Ht1 : threads s1 !! tid = Some (Thread name Running))
    by (rewrite Hth1; by apply lookup_app_l_Some).
  assert (Hco1 : connections (mgr s1) !! name = Some (length (threads s))).
  { unfold s1, add_connection. rewrite Hc. unfold start_connection_thread.
    cbn [mgr connections threads]. rewrite close_connection_threads.
    apply lookup_insert_eq. }
  clearbody s1.
  assert (E2 : on_close_wrapper_begin tid s1
               = set_phase tid (ReconnectWait interval) s1).
  { unfold on_close_wrapper_begin. by rewrite Ht1, Hst1, Hri1. }
  rewrite E2. set (s2 := set_phase tid (ReconnectWait interval) s1).
  assert (Ht2 : threads s2 !! tid = Some (Thread name (ReconnectWait interval))).
  { unfold s2, set_phase. cbn [threads]. by rewrite list_lookup_alter_eq, Ht1. }
  unfold on_close_wrapper_resume. rewrite Ht2. subst s2.
  unfold start_connection_thread, set_phase. cbn [threads mgr connections].
  rewrite !length_alter, Hth1, length_app. simpl length.
  replace (length (threads s) + 1)%nat with (S (length (threads s))) by lia.
  split; [|split].
  - rewrite lookup_app_l by (rewrite !length_alter, length_app; simpl; lia).
    rewrite !list_lookup_alter_ne by lia.
    by rewrite lookup_app_r, Nat.sub_diag.
  - rewrite lookup_app_r by (rewrite !length_alter, length_app; simpl; lia).
    rewrite !length_alter, length_app. simpl length.
    by replace (S (length (threads s)) - (length (threads s) + 1))%nat with 0%nat by lia.
  - apply lookup_insert_eq.
Qed.

(** ** The theorems at concrete inputs *)

Definition one_stream : state := run [AddConnection "ticker_btcusdt" 30].

Lemma close_of_running_connection_ends_the_stream_witness :
  let s' := fold_left step
              [CloseConnection "ticker_btcusdt"; SocketClosed 0; SleepElapsed 0]
              one_stream in
  threads s' !! 0%nat = Some (Thread "ticker_btcusdt" Finished)
  ∧ length (threads s') = length (threads one_stream)
  ∧ connections (mgr s') !! "ticker_btcusdt"%string = None.
Proof.
  apply (close_of_running_connection_ends_the_stream
           one_stream 0 0 "ticker_btcusdt" false); reflexivity.
Defined.

Lemma close_all_stops_every_open_connection_witness :
  connections (mgr (close_all one_stream)) = ∅
  ∧ threads (on_close_wrapper_begin 0 (close_all one_stream)) !! 0%nat
    = Some (Thread "ticker_btcusdt" Finished).
Proof.
  apply (close_all_stops_every_open_connection one_stream 0 "ticker_btcusdt").
  reflexivity.
Defined.

Lemma readding_a_name_can_leave_two_open_connections_witness :
  let s' := fold_left step
              [AddConnection "ticker_btcusdt" 30; SocketClosed 0; SleepElapsed 0]
              one_stream in
  let n := length (threads one_stream) in
  threads s' !! n = Some (Thread "ticker_btcusdt" Running)
  ∧ threads s' !! S n = Some (Thread "ticker_btcusdt" Running)
  ∧ connections (mgr s') !! "ticker_btcusdt"%string = Some (S n).
Proof.
  apply (readding_a_name_can_leave_two_open_connections
           one_stream 0 0 "ticker_btcusdt" 30); reflexivity.
Defined.

End StreamRegistry.

(** * Proofs about the Binance client *)

Module BinanceProofs.
Import Stream Binance.

Section Loop.
Variable name_of : string -> string.

Definition start_all (names : list string) (c : client) : client :=
  fold_left (fun c symbol => start_stream (name_of symbol) c) names c.

Lemma start_stream_symbols n c : symbols (start_stream n c) = symbols c.
Proof. unfold start_stream. by destruct (decide _). Qed.

Lemma start_stream_active n c :
  active_streams (start_stream n c) = {[n]} ∪ active_streams c.
Proof.
  unfold start_stream. destruct (decide _) as [Hin|]; [|done].
  apply set_eq. intros x. rewrite elem_of_union, elem_of_singleton.
  split; [by right|]. by intros [->|].
Qed.

Lemma start_all_symbols names c : symbols (start_all names c) = symbols c.
Proof.
  revert c. induction names as [|s names IH]; intros c; [done|].
  unfold start_all in *. simpl. by rewrite IH, start_stream_symbols.
Qed.

Lemma start_all_active names c :
  active_streams (start_all names c)
  = list_to_set (map name_of names) ∪ active_streams c.
Proof.
  revert c. induction names as [|s names IH]; intros c.
  - simpl. by rewrite (left_id_L ∅ (∪)).
  - unfold start_all in *. simpl. rewrite IH, start_stream_active.
    by rewrite (assoc_L (∪)), (comm_L (∪) _ {[name_of s]}).
Qed.

Lemma start_all_skips names c :
  (∀ s, s ∈ names → name_of s ∈ active_streams c) → start_all names c = c.
Proof.
  revert c. induction names as [|s names IH]; intros c Hall; [done|].
  unfold start_all in *. simpl.
  assert (E : start_stream (name_of s) c = c).
  { unfold start_stream. destruct (decide _) as [|Hn]; [done|].
    exfalso. apply Hn, Hall. left. }
  rewrite E. apply IH. intros s' Hs'. apply Hall. by right.
Qed.

Lemma start_all_twice c :
  start_all (symbols (start_all (symbols c) c)) (start_all (symbols c) c)
  = start_all (symbols c) c.
Proof.
  apply start_all_skips. intros s Hs. rewrite start_all_symbols in Hs.
  rewrite start_all_active. apply elem_of_union_l, elem_of_list_to_set.
  by apply (list_elem_of_fmap_2 name_of).
Qed.

End Loop.

(** X17. Starting the streams twice starts them once.  Whatever the state
    of the client, a second [start_ticker_stream()] right after the first
    changes nothing, and so does a second [start_kline_stream(interval)]:
    every stream name is then in [active_streams] and is skipped, so no
    connection is closed, re-created or added. *)
Theorem starting_streams_twice_starts_them_once (c : client) (interval : string) :
  start_ticker_stream (start_ticker_stream c) = start_ticker_stream c
  ∧ start_kline_stream interval (start_kline_stream interval c)
    = start_kline_stream interval c.
Proof.
  split.
  - apply (start_all_twice (fun symbol => "ticker_" +:+ lower symbol +:+ "usdt")%string).
  - apply (start_all_twice
             (fun symbol => "kline_" +:+ lower symbol +:+ "usdt_" +:+ interval)%string).
Qed.

End BinanceProofs.

(** * More about the indicator engine: ranges and degenerate inputs *)

Module TrendRanges.
Import Trend TrendProofs.
Local Open Scope Q_scope.

(** ** The verdicts as functions of the two averages *)

(** The branch of [detect_price_trends] under [len(df) > window]. *)
Definition price_verdict (last_sma prev_sma : fnum) : string * fnum :=
  if fgt last_sma prev_sma then
    ("uptrend"%string,
     if fgt prev_sma (Fin 0)
     then py_min (Fin 1) (fmul (fdiv (fsub last_sma prev_sma) prev_sma) (Fin 5))
     else Fin (1 # 2))
  else if flt last_sma prev_sma then
    ("downtrend"%string,
     if fgt prev_sma (Fin 0)
     then py_min (Fin 1) (fmul (fdiv (fsub prev_sma last_sma) prev_sma) (Fin 5))
     else Fin (1 # 2))
  else ("sideways"%string, Fin (1 # 10)).

(** The branch of [detect_volume_trends] under [len(df) > window]. *)
Definition volume_verdict (last_vol_sma prev_vol_sma : fnum) : string * fnum :=
  if fgt last_vol_sma (fmul prev_vol_sma (Fin (12 # 10))) then
    ("increasing"%string,
     if fgt prev_vol_sma (Fin 0)
     then py_min (Fin 1) (fdiv (fsub last_vol_sma prev_vol_sma) prev_vol_sma)
     else Fin (1 # 2))
  else if flt last_vol_sma (fmul prev_vol_sma (Fin (8 # 10))) then
    ("decreasing"%string,
     if fgt prev_vol_sma (Fin 0)
     then py_min (Fin 1) (fdiv (fsub prev_vol_sma last_vol_sma) prev_vol_sma)
     else Fin (1 # 2))
  else ("stable"%string, Fin (1 # 10)).

Definition last_of (window : nat) (s : series) : fnum :=
  iloc (-1) (rolling_mean window s).

Definition prev_of (window : nat) (s : series) : fnum :=
  iloc (- Z.of_nat window) (rolling_mean window s).

Lemma guard_false (data : list candle) (window : nat) :
  (window <= length data)%nat → data ≠ [] →
  (length data <? window)%nat || (length data =? 0)%nat = false.
Proof.
  intros Hw Hd. apply orb_false_iff. split; [by apply Nat.ltb_ge|].
  apply Nat.eqb_neq. destruct data; [done|simpl; lia].
Qed.

Lemma price_trend_and_strength data window :
  (window <= length data)%nat → data ≠ [] →
  let v := if (window <? length data)%nat
           then price_verdict (last_of window (column close data))
                              (prev_of window (column close data))
           else ("unknown"%string, Fin 0) in
  lookup_report "trend" (detect_price_trends data window) = Some (Str (fst v))
  ∧ lookup_report "strength" (detect_price_trends data window) = Some (Num (snd v)).
Proof.
  intros Hw Hd. cbv zeta. unfold detect_price_trends.
  rewrite guard_false by done. unfold price_verdict, last_of, prev_of.
  destruct (window <? length data)%nat; [|done].
  destruct (fgt _ _); [done|]. destruct (flt _ _); done.
Qed.

Lemma volume_trend_and_strength sqrtQ data window :
  (window <= length data)%nat → data ≠ [] →
  let v := if (window <? length data)%nat
           then volume_verdict (last_of window (column volume data))
                               (prev_of window (column volume data))
           else ("unknown"%string, Fin 0) in
  lookup_report "trend" (detect_volume_trends sqrtQ data window) = Some (Str (fst v))
  ∧ lookup_report "strength" (detect_volume_trends sqrtQ data window)
    = Some (Num (snd v)).
Proof.
  intros Hw Hd. cbv zeta. unfold detect_volume_trends.
  rewrite guard_false by done. unfold volume_verdict, last_of, prev_of.
  destruct (window <? length data)%nat; [|done].
  destruct (fgt _ _); [done|]. destruct (flt _ _); done.
Qed.

(** ** Strengths and the correlation stay in range *)

Lemma py_min_one x :
  ratio x → ∃ q, py_min (Fin 1) x = Fin q ∧ 0 <= q <= 1.
Proof.
  intros [->|[->|(q & -> & Hq)]]; try (exists 1; split; [done|lra]).
  unfold py_min, flt. destruct (Qltb q 1) eqn:E.
  - apply Qltb_lt in E. exists q. split; [done|lra].
  - exists 1. split; [done|lra].
Qed.

Lemma Qzero_pos p : 0 < p → Qzero p = false.
Proof. intros H. apply Qzero_false. intros E. rewrite E in H. lra. Qed.

Lemma Qdiv_nonneg a p : 0 <= a → 0 < p → 0 <= a / p.
Proof.
  intros Ha Hp. apply Qle_shift_div_l; [done|]. lra.
Qed.

Lemma ratio_Fin q : 0 <= q → ratio (Fin q).
Proof. intros H. right. right. by exists q. Qed.

Lemma price_verdict_range last prev :
  ∃ q, snd (price_verdict last prev) = Fin q ∧ 0 <= q <= 1.
Proof.
  unfold price_verdict.
  destruct (fgt last prev) eqn:E1; [|destruct (flt last prev) eqn:E2]; cbn [snd].
  - destruct (fgt prev (Fin 0)) eqn:E0; [|exists (1 # 2); split; [done|lra]].
    apply py_min_one.
    destruct prev as [p| | |], last as [l| | |]; simpl in E0, E1; try done.
    + apply Qltb_lt in E0, E1. simpl. rewrite Qzero_pos by done. simpl.
      apply ratio_Fin. apply Qmult_le_0_compat; [|lra].
      apply Qdiv_nonneg; [lra|done].
    + apply Qltb_lt in E0. simpl.
      replace (Qltb p 0) with false by (symmetry; apply Qltb_ge; lra).
      right. by left.
  - destruct (fgt prev (Fin 0)) eqn:E0; [|exists (1 # 2); split; [done|lra]].
    apply py_min_one.
    destruct prev as [p| | |], last as [l| | |]; simpl in E0, E2; try done;
      try (by left).
    + apply Qltb_lt in E0, E2. simpl. rewrite Qzero_pos by done. simpl.
      apply ratio_Fin. apply Qmult_le_0_compat; [|lra].
      apply Qdiv_nonneg; [lra|done].
    + apply Qltb_lt in E0. simpl.
      replace (Qltb p 0) with false by (symmetry; apply Qltb_ge; lra).
      right. by left.
  - exists (1 # 10). split; [done|lra].
Qed.

Lemma volume_verdict_range last prev :
  ∃ q, snd (volume_verdict last prev) = Fin q ∧ 0 <= q <= 1.
Proof.
  unfold volume_verdict.
  destruct (fgt last (fmul prev (Fin (12 # 10)))) eqn:E1;
    [|destruct (flt last (fmul prev (Fin (8 # 10)))) eqn:E2]; cbn [snd].
  - destruct (fgt prev (Fin 0)) eqn:E0; [|exists (1 # 2); split; [done|lra]].
    apply py_min_one.
    destruct prev as [p| | |], last as [l| | |]; simpl in E0, E1; try done.
    + apply Qltb_lt in E0, E1. simpl. rewrite Qzero_pos by done.
      apply ratio_Fin. apply Qdiv_nonneg; [lra|done].
    + apply Qltb_lt in E0. simpl.
      replace (Qltb p 0) with false by (symmetry; apply Qltb_ge; lra).
      right. by left.
  - destruct (fgt prev (Fin 0)) eqn:E0; [|exists (1 # 2); split; [done|lra]].
    apply py_min_one.
    destruct prev as [p| | |], last as [l| | |]; simpl in E0, E2; try done;
      try (by left).
    + apply Qltb_lt in E0, E2. simpl. rewrite Qzero_pos by done.
      apply ratio_Fin. apply Qdiv_nonneg; [lra|done].
    + apply Qltb_lt in E0. simpl.
      replace (Qltb p 0) with false by (symmetry; apply Qltb_ge; lra).
      right. by left.
  - exists (1 # 10). split; [done|lra].
Qed.

(** X18. The strength of a price trend is a number between 0 and 1, for
    every list of candles and every window. *)
Theorem price_trend_strength_within_unit_interval (data : list candle) (window : nat) :
  ∃ q, lookup_report "strength" (detect_price_trends data window) = Some (Num (Fin q))
       ∧ 0 <= q <= 1.
Proof.
  destruct (decide ((window <= length data)%nat ∧ data ≠ [])) as [[Hw Hd]|Hn].
  - destruct (price_trend_and_strength data window Hw Hd) as [_ ->].
    destruct (window <? length data)%nat.
    + destruct (price_verdict_range (last_of window (column close data))
                  (prev_of window (column close data))) as (q & -> & Hq).
      by exists q.
    + exists 0. split; [done|lra].
  - unfold detect_price_trends.
    replace ((length data <? window)%nat || (length data =? 0)%nat) with true.
    { exists 0. split; [done|lra]. }
    symmetry. apply orb_true_iff.
    destruct data as [|c data]; [by right|]. left. apply Nat.ltb_lt.
    destruct (decide (window <= length (c :: data))%nat); [|lia].
    exfalso. apply Hn. done.
Qed.

Lemma corrcoef_range sqrtQ a b :
  ∃ q, nan_to 0 (corrcoef sqrtQ a b) = Fin q ∧ -1 <= q <= 1.
Proof.
  unfold corrcoef. cbv zeta.
  destruct (fdiv _ _) as [c| | |]; simpl.
  - destruct (Qltb c (-1)) eqn:E1; simpl.
    { exists (-1). split; [done|lra]. }
    destruct (Qltb 1 c) eqn:E2; simpl.
    { exists 1. split; [done|lra]. }
    apply Qltb_ge in E1, E2. exists c. split; [done|lra].
  - exists 1. split; [done|lra].
  - exists (-1). split; [done|lra].
  - exists 0. split; [done|lra].
Qed.

(** X19. The strength of a volume trend is a number between 0 and 1 and
    the price-volume correlation a number between -1 and 1, for every list
    of candles with at least [window] and at least one entry, and whatever
    the square root computes. *)
Theorem volume_trend_strength_and_correlation_in_range
    (sqrtQ : Q -> Q) (data : list candle) (window : nat) :
  (window <= length data)%nat → data ≠ [] →
  (∃ q, lookup_report "strength" (detect_volume_trends sqrtQ data window)
        = Some (Num (Fin q)) ∧ 0 <= q <= 1)
  ∧ (∃ q, lookup_report "price_volume_correlation"
            (detect_volume_trends sqrtQ data window) = Some (Num (Fin q))
          ∧ -1 <= q <= 1).
Proof.
  intros Hw Hd. split.
  - destruct (volume_trend_and_strength sqrtQ data window Hw Hd) as [_ ->].
    destruct (window <? length data)%nat.
    + destruct (volume_verdict_range (last_of window (column volume data))
                  (prev_of window (column volume data))) as (q & -> & Hq).
      by exists q.
    + exists 0. split; [done|lra].
  - unfold detect_volume_trends. rewrite guard_false by done.
    match goal with |- context [lookup_report _ (let '(t, s) := ?p in _)] =>
      destruct p as [t s] end.
    cbn [lookup_report String.eqb Ascii.eqb Bool.eqb].
    destruct (_ && _).
    + destruct (corrcoef_range sqrtQ (map fst (price_volume_pairs data))
                  (map snd (price_volume_pairs data))) as (q & -> & Hq).
      by exists q.
    + exists 0. split; [done|lra].
Qed.

(** ** Too little history for an average *)

Lemma rolling_last_short f window s :
  (1 <= length s)%nat → (length s < window)%nat →
  iloc (-1) (rolling f window s) = NaN.
Proof.
  intros H1 H2. change (-1)%Z with (- Z.of_nat 1)%Z.
  rewrite iloc_neg by (rewrite length_rolling; lia).
  rewrite length_rolling, nth_rolling by lia.
  unfold window_at.
  by replace (length s - 1 + 1 <? window)%nat with true
    by (symmetry; apply Nat.ltb_lt; lia).
Qed.

Lemma prev_of_short window s :
  (1 <= window)%nat → (window <= length s)%nat → (length s + 1 < 2 * window)%nat →
  prev_of window s = NaN.
Proof.
  intros H1 H2 H3. unfold prev_of, rolling_mean.
  rewrite iloc_neg by (rewrite length_rolling; lia).
  rewrite length_rolling, nth_rolling by lia.
  unfold window_at.
  by replace (length s - window + 1 <? window)%nat with true
    by (symmetry; apply Nat.ltb_lt; lia).
Qed.

Lemma price_verdict_NaN last : price_verdict last NaN = ("sideways"%string, Fin (1 # 10)).
Proof. unfold price_verdict. by destruct last. Qed.

Lemma volume_verdict_NaN last : volume_verdict last NaN = ("stable"%string, Fin (1 # 10)).
Proof. unfold volume_verdict. by destruct last. Qed.

Lemma length_column f data : length (column f data) = length data.
Proof. apply length_map. Qed.

(** X20. Between [window + 1] and [2 * window - 2] candles the verdict
    does not depend on the prices.  The average [window] periods back does
    not exist yet (it is NaN), every comparison with it is false, and so the
    price trend is [sideways] and the volume trend [stable], both with
    strength 0.1. *)
Theorem history_shorter_than_two_windows_is_sideways
    (sqrtQ : Q -> Q) (data : list candle) (window : nat) :
  (window < length data)%nat → (length data + 1 < 2 * window)%nat →
  lookup_report "trend" (detect_price_trends data window) = Some (Str "sideways")
  ∧ lookup_report "strength" (detect_price_trends data window)
    = Some (Num (Fin (1 # 10)))
  ∧ lookup_report "trend" (detect_volume_trends sqrtQ data window)
    = Some (Str "stable")
  ∧ lookup_report "strength" (detect_volume_trends sqrtQ data window)
    = Some (Num (Fin (1 # 10))).
Proof.
  intros H1 H2.
  assert (Hd : data ≠ []) by (destruct data; [simpl in H1; lia|done]).
  destruct (price_trend_and_strength data window) as [-> ->]; [lia|done|].
  destruct (volume_trend_and_strength sqrtQ data window) as [-> ->]; [lia|done|].
  replace (window <? length data)%nat with true by (symmetry; apply Nat.ltb_lt; lia).
  rewrite !prev_of_short by (rewrite ?length_column; lia).
  by rewrite price_verdict_NaN, volume_verdict_NaN.
Qed.

Lemma length_shift1 s : length (shift1 s) = length s.
Proof.
  destruct s as [|x s]; [done|]. unfold shift1.
  cbn [length]. rewrite removelast_firstn_len, length_take. simpl. lia.
Qed.

Lemma length_zip_with f a b : length (zip_with f a b) = min (length a) (length b).
Proof. unfold zip_with. by rewrite length_map, length_combine. Qed.

Lemma length_true_range data : length (true_range data) = length data.
Proof.
  unfold true_range. cbv zeta.
  rewrite length_map, !length_combine, !length_map, !length_zip_with,
    !length_column, length_shift1, length_column. lia.
Qed.

(** X21. The Bollinger entries need twenty candles and the average true
    range fourteen.  With 5 to 19 candles [detect_volatility] reports the
    position 0.5 and the width 0 whatever the prices, and with 5 to 13
    candles it reports the average true range 0. *)
Theorem bollinger_and_atr_defaults_on_short_history
    (sqrtQ : Q -> Q) (data : list candle) :
  (5 <= length data)%nat → (length data < 20)%nat →
  lookup_report "bollinger_position" (detect_volatility sqrtQ data)
  = Some (Num (Fin (1 # 2)))
  ∧ lookup_report "bollinger_width" (detect_volatility sqrtQ data)
    = Some (Num (Fin 0))
  ∧ ((length data < 14)%nat →
     lookup_report "atr" (detect_volatility sqrtQ data) = Some (Num (Fin 0))).
Proof.
  intros H1 H2. unfold detect_volatility.
  replace (length data <? 5)%nat with false by (symmetry; apply Nat.ltb_ge; lia).
  cbv zeta. cbn [lookup_report String.eqb Ascii.eqb Bool.eqb].
  unfold rolling_mean.
  rewrite !(rolling_last_short _ 20) by (rewrite length_column; lia).
  split; [done|]. split; [done|]. intros H3.
  by rewrite (rolling_last_short _ 14) by (rewrite length_true_range; lia).
Qed.

(** ** Support and resistance *)

Lemma fold_max_Fin l a :
  ∃ m, fold_left (fun acc x => if is_nan x then acc
                               else if is_nan acc then x
                               else if flt acc x then x else acc)
                 (map Fin l) (Fin a) = Fin m
       ∧ (m = a ∨ In m l) ∧ a <= m ∧ Forall (λ x, x <= m) l.
Proof.
  revert a. induction l as [|y l IH]; intros a.
  - exists a. split; [done|]. split; [by left|]. split; [lra|constructor].
  - cbn [map fold_left is_nan flt]. destruct (Qltb a y) eqn:E.
    + apply Qltb_lt in E. destruct (IH y) as (m & -> & Hin & Hle & Hall).
      exists m. split; [done|]. split; [|split; [lra|]].
      * right. destruct Hin as [->|Hin]; [by left|by right].
      * constructor; [lra|done].
    + apply Qltb_ge in E. destruct (IH a) as (m & -> & Hin & Hle & Hall).
      exists m. split; [done|]. split; [|split; [lra|]].
      * destruct Hin as [->|Hin]; [by left|right; by right].
      * constructor; [lra|done].
Qed.

Lemma fold_min_Fin l a :
  ∃ m, fold_left (fun acc x => if is_nan x then acc
                               else if is_nan acc then x
                               else if flt x acc then x else acc)
                 (map Fin l) (Fin a) = Fin m
       ∧ (m = a ∨ In m l) ∧ m <= a ∧ Forall (λ x, m <= x) l.
Proof.
  revert a. induction l as [|y l IH]; intros a.
  - exists a. split; [done|]. split; [by left|]. split; [lra|constructor].
  - cbn [map fold_left is_nan flt]. destruct (Qltb y a) eqn:E.
    + apply Qltb_lt in E. destruct (IH y) as (m & -> & Hin & Hle & Hall).
      exists m. split; [done|]. split; [|split; [lra|]].
      * right. destruct Hin as [->|Hin]; [by left|by right].
      * constructor; [lra|done].
    + apply Qltb_ge in E. destruct (IH a) as (m & -> & Hin & Hle & Hall).
      exists m. split; [done|]. split; [|split; [lra|]].
      * destruct Hin as [->|Hin]; [by left|right; by right].
      * constructor; [lra|done].
Qed.

Lemma fmax_skipna_Fin l :
  l ≠ [] →
  ∃ m, fmax_skipna (map Fin l) = Fin m ∧ In m l ∧ Forall (λ x, x <= m) l.
Proof.
  destruct l as [|a l]; [done|]. intros _. unfold fmax_skipna.
  cbn [map fold_left is_nan].
  destruct (fold_max_Fin l a) as (m & -> & Hin & Hle & Hall).
  exists m. split; [done|]. split.
  - destruct Hin as [->|Hin]; [by left|by right].
  - by constructor.
Qed.

Lemma fmin_skipna_Fin l :
  l ≠ [] →
  ∃ m, fmin_skipna (map Fin l) = Fin m ∧ In m l ∧ Forall (λ x, m <= x) l.
Proof.
  destruct l as [|a l]; [done|]. intros _. unfold fmin_skipna.
  cbn [map fold_left is_nan].
  destruct (fold_min_Fin l a) as (m & -> & Hin & Hle & Hall).
  exists m. split; [done|]. split.
  - destruct Hin as [->|Hin]; [by left|by right].
  - by constructor.
Qed.

Lemma tail_nonempty {A} n (l : list A) : (1 <= n)%nat → l ≠ [] → tail n l ≠ [].
Proof.
  intros Hn Hl. unfold tail. intros E.
  apply (f_equal length) in E. rewrite length_drop in E. simpl in E.
  destruct l; [done|]. simpl in E. lia.
Qed.

(** X22. Support and resistance are the lowest low and the highest high of
    the last twenty candles.  Whenever there are at least [window] candles
    and at least one, [support] is the low of one of the last twenty
    candles and not above the low of any of them, and [resistance] is the
    high of one of them and not below the high of any of them. *)
Theorem support_and_resistance_bound_the_last_twenty_candles
    (data : list candle) (window : nat) :
  (window <= length data)%nat → data ≠ [] →
  ∃ s r,
    lookup_report "support" (detect_price_trends data window) = Some (Num (Fin s))
    ∧ lookup_report "resistance" (detect_price_trends data window) = Some (Num (Fin r))
    ∧ Forall (λ c, s <= low c ∧ high c <= r) (tail 20 data)
    ∧ Exists (λ c, low c = s) (tail 20 data)
    ∧ Exists (λ c, high c = r) (tail 20 data).
Proof.
  intros Hw Hd. unfold detect_price_trends. rewrite guard_false by done.
  match goal with |- context [lookup_report _ (let '(t, s) := ?p in _)] =>
    destruct p as [t st] end.
  cbn [lookup_report String.eqb Ascii.eqb Bool.eqb].
  rewrite !column_Fin.
  assert (Hne : ∀ f : candle → Q, map f (tail 20 data) ≠ []).
  { intros f E. apply (tail_nonempty 20 data); [lia|done|].
    by destruct (tail 20 data). }
  destruct (fmin_skipna_Fin (map low (tail 20 data)) (Hne low)) as (s & -> & Hs & Hsall).
  destruct (fmax_skipna_Fin (map high (tail 20 data)) (Hne high)) as (r & -> & Hr & Hrall).
  exists s, r. split; [done|]. split; [done|].
  rewrite Forall_map in Hsall, Hrall.
  split; [|split].
  - rewrite Forall_forall in Hsall, Hrall. apply Forall_forall. intros c Hc.
    split; [by apply Hsall|by apply Hrall].
  - apply in_map_iff in Hs as (c & Hc & Hin). apply Exists_exists.
    exists c. split; [by apply list_elem_of_In|done].
  - apply in_map_iff in Hr as (c & Hc & Hin). apply Exists_exists.
    exists c. split; [by apply list_elem_of_In|done].
Qed.

(** ** Constant volume *)

Lemma Qsum_const v l : Forall (λ x, x == v) l → Qsum l == inject_Z (Z.of_nat (length l)) * v.
Proof.
  induction 1 as [|x l Hx Hl IH].
  - unfold Qsum. cbn [fold_left length]. change (inject_Z (Z.of_nat 0)) with 0. lra.
  - rewrite Qsum_cons, IH, Hx. cbn [length]. rewrite Nat2Z.inj_succ.
    unfold Z.succ. rewrite inject_Z_plus. change (inject_Z 1) with 1. lra.
Qed.

Lemma Qmean_const v l : l ≠ [] → Forall (λ x, x == v) l → Qmean l == v.
Proof.
  intros Hne Hall. unfold Qmean. rewrite (Qsum_const v) by done.
  assert (0 < inject_Z (Z.of_nat (length l))).
  { apply of_nat_pos. destruct l; [done|simpl; lia]. }
  field. lra.
Qed.

Lemma Forall_take_drop {A} (P : A → Prop) n k (l : list A) :
  Forall P l → Forall P (take n (drop k l)).
Proof. intros H. by apply Forall_take, Forall_drop. Qed.

(** X23. A constant volume is a stable volume.  If all candles have the
    same non-negative volume and there are more than [window] of them, the
    volume trend is [stable] with strength 0.1. *)
Theorem constant_volume_is_stable
    (sqrtQ : Q -> Q) (data : list candle) (window : nat) (v : Q) :
  (1 <= window)%nat → (window < length data)%nat →
  0 <= v → Forall (λ c, volume c == v) data →
  lookup_report "trend" (detect_volume_trends sqrtQ data window) = Some (Str "stable")
  ∧ lookup_report "strength" (detect_volume_trends sqrtQ data window)
    = Some (Num (Fin (1 # 10))).
Proof.
  intros H1 H2 Hv Hall.
  assert (Hd : data ≠ []) by (destruct data; [simpl in H2; lia|done]).
  destruct (volume_trend_and_strength sqrtQ data window) as [-> ->]; [lia|done|].
  replace (window <? length data)%nat with true by (symmetry; apply Nat.ltb_lt; lia).
  assert (Hvols : Forall (λ x, x == v) (map volume data)) by (by apply Forall_map).
  assert (Hlast : last_of window (column volume data)
                  = Fin (Qmean (last_window window (map volume data)))).
  { unfold last_of. rewrite column_Fin. apply last_sma_Fin. rewrite length_map. lia. }
  assert (Hl : Qmean (last_window window (map volume data)) == v).
  { apply Qmean_const; [|by apply Forall_take_drop].
    apply (nonempty_of_length _ window); [|done].
    unfold last_window. rewrite length_take, length_drop, length_map. lia. }
  rewrite Hlast.
  destruct (decide (length data + 1 < 2 * window)%nat) as [Hs|Hs].
  { rewrite prev_of_short by (rewrite ?length_column; lia).
    by rewrite volume_verdict_NaN. }
  assert (Hprev : prev_of window (column volume data)
                  = Fin (Qmean (prev_window window (map volume data)))).
  { unfold prev_of. rewrite column_Fin. apply prev_sma_Fin; [done|].
    rewrite length_map. lia. }
  assert (Hp : Qmean (prev_window window (map volume data)) == v).
  { apply Qmean_const; [|by apply Forall_take_drop].
    apply (nonempty_of_length _ window); [|done].
    unfold prev_window. rewrite length_take, length_drop, length_map. lia. }
  rewrite Hprev. unfold volume_verdict, fgt, fmul, flt.
  replace (Qltb _ (Qmean (last_window window (map volume data)))) with false
    by (symmetry; apply Qltb_ge; rewrite Hl, Hp; lra).
  by replace (Qltb (Qmean (last_window window (map volume data))) _) with false
    by (symmetry; apply Qltb_ge; rewrite Hl, Hp; lra).
Qed.

(** ** The relative strength index on monotone and on flat closes *)

(** The changes from one close to the next. *)
Fixpoint deltas (prev : Q) (qs : list Q) : list Q :=
  match qs with
  | [] => []
  | q :: r => (q + - prev) :: deltas q r
  end.

Definition Qgains (ds : list Q) : list Q :=
  0 :: map (fun d => if Qltb 0 d then d else 0) ds.

Definition Qlosses (ds : list Q) : list Q :=
  (- 0) :: map (fun d => - (if Qltb d 0 then d else 0)) ds.

Lemma diff_tail_Fin q0 qs :
  map (fun p => fsub (fst p) (snd p))
      (combine (map Fin qs) (removelast (Fin q0 :: map Fin qs)))
  = map Fin (deltas q0 qs).
Proof.
  revert q0. induction qs as [|q1 qs IH]; intros q0; [done|].
  cbn [map]. change (removelast (Fin q0 :: Fin q1 :: map Fin qs))
    with (Fin q0 :: removelast (Fin q1 :: map Fin qs)).
  cbn [combine map deltas fst snd]. by rewrite IH.
Qed.

Lemma diff_Fin q0 qs :
  diff (map Fin (q0 :: qs)) = NaN :: map Fin (deltas q0 qs).
Proof.
  unfold diff, zip_with, shift1. cbn [map].
  cbn [combine map fst snd]. by rewrite diff_tail_Fin.
Qed.

Lemma gains_diff q0 qs :
  gains (diff (map Fin (q0 :: qs))) = map Fin (Qgains (deltas q0 qs)).
Proof.
  rewrite diff_Fin. unfold gains, Qgains. cbn [map]. f_equal.
  rewrite !map_map. apply map_ext. intros d. unfold fgt, flt.
  by destruct (Qltb 0 d).
Qed.

Lemma losses_diff q0 qs :
  losses (diff (map Fin (q0 :: qs))) = map Fin (Qlosses (deltas q0 qs)).
Proof.
  rewrite diff_Fin. unfold losses, Qlosses. cbn [map]. f_equal.
  rewrite !map_map. apply map_ext. intros d. unfold flt.
  by destruct (Qltb d 0).
Qed.

Lemma length_deltas q0 qs : length (deltas q0 qs) = length qs.
Proof. revert q0. induction qs as [|q qs IH]; intros q0; [done|]. simpl. by rewrite IH. Qed.

Lemma iloc_last_map (h : fnum → fnum) s :
  s ≠ [] → iloc (-1) (map h s) = h (iloc (-1) s).
Proof.
  intros Hs. unfold iloc. cbn [Z.ltb Z.compare]. rewrite length_map.
  rewrite (nth_indep _ NaN (h NaN)).
  - apply map_nth.
  - rewrite length_map. destruct s; [done|]. simpl length. lia.
Qed.

Lemma iloc_last_zip_with f a b :
  length a = length b → a ≠ [] →
  iloc (-1) (zip_with f a b) = f (iloc (-1) a) (iloc (-1) b).
Proof.
  intros Hl Ha. unfold zip_with, iloc. cbn [Z.ltb Z.compare].
  rewrite length_map, length_combine, <- Hl, Nat.min_id.
  set (n := Z.to_nat (Z.of_nat (length a) + -1)).
  assert (Hn : (n < length a)%nat).
  { unfold n. destruct a; [done|]. simpl length. lia. }
  rewrite (nth_indep _ NaN (f NaN NaN))
    by (rewrite length_map, length_combine; lia).
  change (f NaN NaN) with ((fun p => f (fst p) (snd p)) (NaN, NaN)).
  rewrite map_nth, combine_nth by done. done.
Qed.

(** The last entry of [rsi_series], from the averages of the last fourteen
    gains and losses. *)
Lemma rsi_last q0 qs :
  (14 <= length (q0 :: qs))%nat →
  iloc (-1) (rsi_series (map Fin (q0 :: qs)))
  = fsub (Fin 100)
      (fdiv (Fin 100)
         (fadd (Fin 1)
            (fdiv (Fin (Qmean (last_window 14 (Qgains (deltas q0 qs)))))
                  (Fin (Qmean (last_window 14 (Qlosses (deltas q0 qs)))))))).
Proof.
  intros Hn. unfold rsi_series. cbv zeta.
  rewrite gains_diff, losses_diff.
  assert (Hg : length (Qgains (deltas q0 qs)) = length (q0 :: qs))
    by (unfold Qgains; simpl; by rewrite length_map, length_deltas).
  assert (Hl : length (Qlosses (deltas q0 qs)) = length (q0 :: qs))
    by (unfold Qlosses; simpl; by rewrite length_map, length_deltas).
  assert (Hne : ∀ w l, (14 <= length l)%nat → rolling_mean w (map Fin l) ≠ []).
  { intros w l Hlen E. apply (f_equal length) in E.
    unfold rolling_mean in E. rewrite length_rolling, length_map in E.
    simpl in E. lia. }
  rewrite iloc_last_map.
  2: { intros E. apply (f_equal length) in E.
       rewrite length_zip_with in E. unfold rolling_mean in E.
       rewrite !length_rolling, !length_map, Hg, Hl in E. simpl in E. lia. }
  rewrite iloc_last_zip_with.
  2: { unfold rolling_mean. by rewrite !length_rolling, !length_map, Hg, Hl. }
  2: { apply Hne. lia. }
  by rewrite !last_sma_Fin by lia.
Qed.

Lemma Qsum_zero l : Forall (λ x, x == 0) l → Qsum l == 0.
Proof. intros H. rewrite (Qsum_const 0) by done. lra. Qed.

Lemma Qmean_zero l : Forall (λ x, x == 0) l → Qmean l == 0.
Proof.
  intros H. unfold Qmean. rewrite Qsum_zero by done.
  unfold Qdiv. lra.
Qed.

Lemma Qsum_pos l : Forall (λ x, 0 <= x) l → Exists (λ x, 0 < x) l → 0 < Qsum l.
Proof.
  intros Hall Hex. induction Hex as [x l Hx|x l Hex IH].
  - apply Forall_cons in Hall as [_ Hall]. rewrite Qsum_cons.
    pose proof (Qsum_nonneg l Hall). lra.
  - apply Forall_cons in Hall as [Hx Hall]. rewrite Qsum_cons.
    specialize (IH Hall). lra.
Qed.

Lemma Qmean_pos l : Forall (λ x, 0 <= x) l → Exists (λ x, 0 < x) l → 0 < Qmean l.
Proof.
  intros Hall Hex. unfold Qmean.
  assert (0 < inject_Z (Z.of_nat (length l))).
  { apply of_nat_pos. destruct Hex; simpl; lia. }
  apply Qlt_shift_div_l; [done|]. pose proof (Qsum_pos l Hall Hex). lra.
Qed.

(** A window over the last fourteen entries of [z :: ps] holds an entry of
    [ps]. *)
Lemma last_window_Exists (P : Q → Prop) z ps :
  (13 <= length ps)%nat → Forall P ps → Exists P (last_window 14 (z :: ps)).
Proof.
  intros Hlen Hall. unfold last_window.
  rewrite take_ge by (rewrite length_drop; simpl; lia).
  cbn [length]. replace (S (length ps) - 14)%nat with (length ps - 13)%nat by lia.
  destruct (length ps - 13)%nat as [|k] eqn:E.
  - rewrite drop_0. apply Exists_cons_tl.
    destruct ps as [|p ps]; [simpl in Hlen; lia|].
    apply Forall_cons in Hall as [Hp _]. by apply Exists_cons_hd.
  - cbn [drop]. destruct (drop k ps) as [|p r] eqn:Ed.
    + apply (f_equal length) in Ed. rewrite length_drop in Ed. simpl in Ed. lia.
    + apply Exists_cons_hd.
      rewrite Forall_forall in Hall. apply Hall.
      rewrite <- (take_drop k ps), Ed. apply elem_of_app. right. left.
Qed.

Lemma deltas_pos q0 qs : Sorted Qlt (q0 :: qs) → Forall (λ d, 0 < d) (deltas q0 qs).
Proof.
  revert q0. induction qs as [|q1 qs IH]; intros q0 Hs; [constructor|].
  apply Sorted_inv in Hs as [Hs Hhd]. apply HdRel_inv in Hhd.
  cbn [deltas]. constructor; [lra|by apply IH].
Qed.

Lemma deltas_neg q0 qs :
  Sorted (λ x y, y < x) (q0 :: qs) → Forall (λ d, d < 0) (deltas q0 qs).
Proof.
  revert q0. induction qs as [|q1 qs IH]; intros q0 Hs; [constructor|].
  apply Sorted_inv in Hs as [Hs Hhd]. apply HdRel_inv in Hhd.
  cbn [deltas]. constructor; [lra|by apply IH].
Qed.

Lemma deltas_zero v q0 qs :
  Forall (λ x, x == v) (q0 :: qs) → Forall (λ d, d == 0) (deltas q0 qs).
Proof.
  revert q0. induction qs as [|q1 qs IH]; intros q0 Hs; [constructor|].
  apply Forall_cons in Hs as [H0 Hs]. pose proof Hs as Hs'.
  apply Forall_cons in Hs' as [H1 _].
  cbn [deltas]. constructor; [lra|by apply IH].
Qed.

Lemma momentum_shape data :
  (14 <= length data)%nat →
  let r := rsi_series (column close (sort_values_timestamp data)) in
  lookup_report "rsi" (detect_momentum data) = Some (Num (nan_to 50 (iloc (-1) r)))
  ∧ lookup_report "momentum_trend" (detect_momentum data)
    = Some (Str (if fgt (iloc (-1) r) (Fin 70) then "overbought"
                 else if flt (iloc (-1) r) (Fin 30) then "oversold"
                 else if fgt (iloc (-1) r) (Fin 50) && fle (iloc (-2) r) (Fin 50)
                      then "bullish_crossover"
                 else if flt (iloc (-1) r) (Fin 50) && fge (iloc (-2) r) (Fin 50)
                      then "bearish_crossover"
                 else "neutral")).
Proof.
  intros Hn. cbv zeta. unfold detect_momentum.
  replace (length data <? 14)%nat with false by (symmetry; apply Nat.ltb_ge; lia).
  split; reflexivity.
Qed.

Lemma chronological_closes data :
  (14 <= length data)%nat →
  ∃ q0 qs, map close (sort_values_timestamp data) = q0 :: qs
           ∧ (14 <= length (q0 :: qs))%nat.
Proof.
  intros Hn.
  assert (Hl : length (map close (sort_values_timestamp data)) = length data).
  { rewrite length_map. unfold sort_values_timestamp, Py.py_sorted.
    apply StoreProofs.isort_length. }
  destruct (map close (sort_values_timestamp data)) as [|q0 qs];
    [simpl in Hl; lia|].
  exists q0, qs. split; [done|]. rewrite Hl. done.
Qed.

(** X24. Closes that only rise give the index 100, closes that only fall
    give 0.  Take at least fourteen candles with pairwise distinct
    timestamps, so that their chronological order is one, and with closes
    that are whole numbers of magnitude at most [2 ^ 31], so that float64
    computes the average gain and loss exactly.  If the closes, in the order
    of the timestamps, increase strictly, [rsi] is 100 and the momentum trend
    is [overbought]; if they decrease strictly, [rsi] is 0 and the momentum
    trend is [oversold]. *)
Theorem rsi_of_monotone_closes (rising falling : list candle) :
  (14 <= length rising)%nat → (14 <= length falling)%nat →
  NoDup (map timestamp rising) → NoDup (map timestamp falling) →
  whole_closes rising → whole_closes falling →
  Sorted Qlt (map close (sort_values_timestamp rising)) →
  Sorted (λ x y, y < x) (map close (sort_values_timestamp falling)) →
  (∃ q, lookup_report "rsi" (detect_momentum rising) = Some (Num (Fin q)) ∧ q == 100)
  ∧ lookup_report "momentum_trend" (detect_momentum rising) = Some (Str "overbought")
  ∧ (∃ q, lookup_report "rsi" (detect_momentum falling) = Some (Num (Fin q)) ∧ q == 0)
  ∧ lookup_report "momentum_trend" (detect_momentum falling) = Some (Str "oversold").
Proof.
  intros Hr Hf _ _ _ _ Hup Hdown.
  destruct (momentum_shape rising Hr) as [-> ->].
  destruct (momentum_shape falling Hf) as [-> ->].
  rewrite !column_Fin.
  destruct (chronological_closes rising Hr) as (r0 & rs & Er & Hrl).
  destruct (chronological_closes falling Hf) as (f0 & fs & Ef & Hfl).
  rewrite Er in *. rewrite Ef in *. rewrite !rsi_last by done.
  (* rising *)
  pose proof (deltas_pos r0 rs Hup) as Hpos.
  assert (Hg : 0 < Qmean (last_window 14 (Qgains (deltas r0 rs)))).
  { apply Qmean_pos.
    - apply Forall_take_drop. constructor; [lra|]. apply Forall_map.
      eapply Forall_impl; [exact Hpos|]. intros d Hd. cbn beta in Hd |- *.
      destruct (Qltb 0 d); lra.
    - apply last_window_Exists.
      + rewrite length_map, length_deltas. simpl in Hrl. lia.
      + apply Forall_map. eapply Forall_impl; [exact Hpos|]. intros d Hd. cbn beta in Hd |- *.
        destruct (Qltb 0 d) eqn:E; [done|]. apply Qltb_ge in E. lra. }
  assert (Hl : Qmean (last_window 14 (Qlosses (deltas r0 rs))) == 0).
  { apply Qmean_zero, Forall_take_drop. constructor; [lra|]. apply Forall_map.
    eapply Forall_impl; [exact Hpos|]. intros d Hd. cbn beta in Hd |- *.
    destruct (Qltb d 0) eqn:E; [|lra]. apply Qltb_lt in E. lra. }
  (* falling *)
  pose proof (deltas_neg f0 fs Hdown) as Hneg.
  assert (Hg' : Qmean (last_window 14 (Qgains (deltas f0 fs))) == 0).
  { apply Qmean_zero, Forall_take_drop. constructor; [lra|]. apply Forall_map.
    eapply Forall_impl; [exact Hneg|]. intros d Hd. cbn beta in Hd |- *.
    destruct (Qltb 0 d) eqn:E; [|lra]. apply Qltb_lt in E. lra. }
  assert (Hl' : 0 < Qmean (last_window 14 (Qlosses (deltas f0 fs)))).
  { apply Qmean_pos.
    - apply Forall_take_drop. constructor; [lra|]. apply Forall_map.
      eapply Forall_impl; [exact Hneg|]. intros d Hd. cbn beta in Hd |- *.
      destruct (Qltb d 0); lra.
    - apply last_window_Exists.
      + rewrite length_map, length_deltas. simpl in Hfl. lia.
      + apply Forall_map. eapply Forall_impl; [exact Hneg|]. intros d Hd. cbn beta in Hd |- *.
        destruct (Qltb d 0) eqn:E; [lra|]. apply Qltb_ge in E. lra. }
  set (g := Qmean (last_window 14 (Qgains (deltas r0 rs)))) in *.
  set (l := Qmean (last_window 14 (Qlosses (deltas r0 rs)))) in *.
  set (g' := Qmean (last_window 14 (Qgains (deltas f0 fs)))) in *.
  set (l' := Qmean (last_window 14 (Qlosses (deltas f0 fs)))) in *.
  clearbody g l g' l'.
  assert (E1 : fdiv (Fin g) (Fin l) = PInf).
  { unfold fdiv, signed_inf.
    replace (Qzero l) with true by (symmetry; by apply Qzero_iff).
    rewrite Qzero_pos by done.
    by replace (Qltb 0 g) with true by (symmetry; by apply Qltb_lt). }
  rewrite E1.
  assert (E2 : ∃ x, fdiv (Fin g') (Fin l') = Fin x ∧ x == 0).
  { unfold fdiv. rewrite Qzero_pos by done. eexists. split; [done|].
    rewrite Hg'. unfold Qdiv. lra. }
  destruct E2 as (x & -> & Hx).
  cbn [fadd fdiv fsub fneg nan_to is_nan].
  replace (Qzero (1 + x)) with false
    by (symmetry; apply Qzero_false; rewrite Hx; lra).
  cbn [fadd fsub fneg nan_to is_nan].
  assert (Hy : 100 + - (100 / (1 + x)) == 0) by (rewrite Hx; reflexivity).
  set (y := 100 + - (100 / (1 + x))) in *. clearbody y.
  split; [exists (100 + - 0); split; [done|lra]|].
  split; [done|].
  split; [by exists y|].
  unfold fgt, flt.
  replace (Qltb 70 y) with false by (symmetry; apply Qltb_ge; lra).
  by replace (Qltb y 30) with true by (symmetry; apply Qltb_lt; lra).
Qed.

Lemma iloc_neg_Fin (k : nat) qs :
  (1 <= k <= length qs)%nat →
  ∃ q, q ∈ qs ∧ iloc (- Z.of_nat k) (map Fin qs) = Fin q.
Proof.
  intros Hk. rewrite iloc_neg by (rewrite length_map; lia).
  rewrite length_map, (nth_indep _ NaN (Fin 0)) by (rewrite length_map; lia).
  rewrite map_nth. eexists. split; [|done].
  apply list_elem_of_In, nth_In. lia.
Qed.

(** X25. Closes that do not move give the neutral reading.  For at least
    fourteen candles with one and the same close, gains and losses are all
    zero, their ratio is undefined, and [detect_momentum] reports [rsi] 50,
    [momentum] 0 and the momentum trend [neutral]. *)
Theorem flat_closes_give_neutral_momentum (data : list candle) (v : Q) :
  (14 <= length data)%nat → Forall (λ c, close c == v) data →
  lookup_report "rsi" (detect_momentum data) = Some (Num (Fin 50))
  ∧ (∃ m, lookup_report "momentum" (detect_momentum data) = Some (Num (Fin m))
          ∧ m == 0)
  ∧ lookup_report "momentum_trend" (detect_momentum data) = Some (Str "neutral").
Proof.
  intros Hn Hall.
  destruct (momentum_shape data Hn) as [-> ->].
  assert (Hm : lookup_report "momentum" (detect_momentum data)
               = Some (Num (let closes := column close (sort_values_timestamp data) in
                            if fgt (iloc (-10) closes) (Fin 0)
                            then fdiv (fsub (iloc (-1) closes) (iloc (-10) closes))
                                      (iloc (-10) closes)
                            else Fin 0))).
  { unfold detect_momentum.
    replace (length data <? 14)%nat with false by (symmetry; apply Nat.ltb_ge; lia).
    reflexivity. }
  rewrite Hm. cbv zeta. rewrite !column_Fin.
  assert (Hqs : Forall (λ x, x == v) (map close (sort_values_timestamp data))).
  { apply Forall_map. unfold sort_values_timestamp.
    rewrite (StoreProofs.py_sorted_perm timestamp data). done. }
  assert (Hlen : length (map close (sort_values_timestamp data)) = length data).
  { rewrite length_map. unfold sort_values_timestamp, Py.py_sorted.
    apply StoreProofs.isort_length. }
  destruct (iloc_neg_Fin 10 (map close (sort_values_timestamp data)))
    as (c10 & Hin10 & E10); [lia|].
  destruct (iloc_neg_Fin 1 (map close (sort_values_timestamp data)))
    as (c1 & Hin1 & E1); [lia|].
  change (- Z.of_nat 10)%Z with (-10)%Z in E10.
  change (- Z.of_nat 1)%Z with (-1)%Z in E1.
  rewrite E10, E1.
  rewrite Forall_forall in Hqs.
  pose proof (Hqs _ Hin10) as H10. pose proof (Hqs _ Hin1) as H1.
  cbn beta in H10, H1.
  destruct (chronological_closes data Hn) as (q0 & qs & Eq & Hql).
  rewrite Eq in *. rewrite rsi_last by done.
  assert (Hd : Forall (λ d, d == 0) (deltas q0 qs)).
  { apply (deltas_zero v). by apply Forall_forall. }
  assert (Hg : Qmean (last_window 14 (Qgains (deltas q0 qs))) == 0).
  { apply Qmean_zero, Forall_take_drop. constructor; [lra|]. apply Forall_map.
    eapply Forall_impl; [exact Hd|]. intros d Hd0. cbn beta in Hd0 |- *.
    destruct (Qltb 0 d); lra. }
  assert (Hl : Qmean (last_window 14 (Qlosses (deltas q0 qs))) == 0).
  { apply Qmean_zero, Forall_take_drop. constructor; [lra|]. apply Forall_map.
    eapply Forall_impl; [exact Hd|]. intros d Hd0. cbn beta in Hd0 |- *.
    destruct (Qltb d 0); lra. }
  assert (E : fdiv (Fin (Qmean (last_window 14 (Qgains (deltas q0 qs)))))
                   (Fin (Qmean (last_window 14 (Qlosses (deltas q0 qs))))) = NaN).
  { unfold fdiv, signed_inf.
    replace (Qzero (Qmean (last_window 14 (Qlosses (deltas q0 qs))))) with true
      by (symmetry; by apply Qzero_iff).
    by replace (Qzero (Qmean (last_window 14 (Qgains (deltas q0 qs))))) with true
      by (symmetry; by apply Qzero_iff). }
  rewrite E. cbn [fadd fdiv fsub fneg nan_to is_nan fgt flt andb].
  split; [done|]. split; [|done].
  destruct (Qltb 0 c10) eqn:E0.
  - apply Qltb_lt in E0. rewrite Qzero_pos by done.
    eexists. split; [done|]. rewrite H1, H10. field. lra.
  - by exists 0.
Qed.

(** ** The true range *)

Lemma combine_map_same {A B C} (f : A → B) (g : A → C) l :
  combine (map f l) (map g l) = map (fun x => (f x, g x)) l.
Proof. induction l as [|x l IH]; [done|]. simpl. by rewrite IH. Qed.

Lemma Forall_combine3 {A B C D} (PA : A → Prop) (PB : B → Prop) (PC : C → Prop)
    (P : D → Prop) (F : A * B * C → D) a b c :
  (∀ x y z, PA x → PB y → PC z → P (F (x, y, z))) →
  Forall PA a → Forall PB b → Forall PC c →
  Forall P (map F (combine (combine a b) c)).
Proof.
  intros HF Ha. revert b c. induction Ha as [|x a Hx Ha IH]; intros b c Hb Hc.
  - constructor.
  - destruct Hb as [|y b Hy Hb]; [constructor|].
    destruct Hc as [|z c Hz Hc]; [constructor|].
    simpl. constructor; [by apply HF|by apply IH].
Qed.

Lemma fabs_nonneg x : finite_or_nan x → nonneg_or_nan (fabs x).
Proof.
  intros [->|[q ->]]; [by left|]. right. exists (Qabs q). split; [done|].
  apply Qabs_nonneg.
Qed.

Lemma Forall_shift1 s : Forall finite_or_nan s → Forall finite_or_nan (shift1 s).
Proof.
  intros H. destruct s as [|x s]; [constructor|]. unfold shift1.
  constructor; [by left|]. by apply Forall_removelast.
Qed.

Lemma max_of_three a b c :
  nonneg a → nonneg_or_nan b → nonneg_or_nan c →
  nonneg (fmax_skipna [fst (fst (a, b, c)); snd (fst (a, b, c)); snd (a, b, c)]).
Proof.
  intros (x & -> & Hx) Hb Hc. unfold fmax_skipna. cbn [fst snd fold_left is_nan].
  destruct Hb as [->|(y & -> & Hy)], Hc as [->|(z & -> & Hz)];
    repeat first
      [ progress cbn [is_nan flt]
      | match goal with
        | |- context [Qltb ?u ?v] => destruct (Qltb u v)
        end ];
    eexists; (split; [reflexivity|done]).
Qed.

Lemma true_range_nonneg data :
  Forall (λ c, low c <= high c) data → Forall nonneg (true_range data).
Proof.
  intros Hd. unfold true_range. cbv zeta.
  apply (Forall_combine3 nonneg nonneg_or_nan nonneg_or_nan).
  - intros x y z. apply max_of_three.
  - unfold zip_with, column. rewrite combine_map_same, map_map. apply Forall_map.
    eapply Forall_impl; [exact Hd|]. intros c Hc. cbn beta in Hc |- *.
    cbn [fst snd fsub fneg fadd]. eexists. split; [done|]. lra.
  - apply Forall_map.
    eapply Forall_impl; [|intros x Hx; apply fabs_nonneg, Hx].
    apply (Forall_zip_with finite_or_nan finite_or_nan); [apply finite_fsub|..].
    + rewrite column_Fin. apply Forall_finite.
    + apply Forall_shift1. rewrite column_Fin. apply Forall_finite.
  - apply Forall_map.
    eapply Forall_impl; [|intros x Hx; apply fabs_nonneg, Hx].
    apply (Forall_zip_with finite_or_nan finite_or_nan); [apply finite_fsub|..].
    + rewrite column_Fin. apply Forall_finite.
    + apply Forall_shift1. rewrite column_Fin. apply Forall_finite.
Qed.

Lemma rolling_mean_true_range window i data :
  Forall (λ c, low c <= high c) data →
  nonneg_or_nan (iloc i (rolling_mean window (true_range data))).
Proof.
  intros Hd. apply iloc_Forall; [by left|].
  by apply Forall_rolling_mean, true_range_nonneg.
Qed.

(** X27. The average true range is never negative.  For every list of
    candles whose lows are not above their highs, [atr] is a number that is
    at least 0 (it is 0 when fewer than fourteen candles are given). *)
Theorem average_true_range_is_not_negative (sqrtQ : Q -> Q) (data : list candle) :
  Forall (λ c, low c <= high c) data →
  ∃ q, lookup_report "atr" (detect_volatility sqrtQ data) = Some (Num (Fin q))
       ∧ 0 <= q.
Proof.
  intros Hd. unfold detect_volatility.
  destruct (length data <? 5)%nat.
  { exists 0. split; [done|lra]. }
  cbv zeta. cbn [lookup_report String.eqb Ascii.eqb Bool.eqb].
  destruct (rolling_mean_true_range 14 (-1) data Hd) as [->|(q & -> & Hq)].
  - exists 0. split; [done|lra].
  - by exists q.
Qed.

(** X28. Below nineteen candles the volatility trend is always [stable].
    With 5 to 18 candles whose lows are not above their highs, the older
    average is taken to be the recent one, a non-negative number is neither
    above 1.2 times itself nor below 0.8 times itself, and
    [volatility_trend] is [stable] whatever the prices. *)
Theorem volatility_trend_is_stable_below_nineteen_candles
    (sqrtQ : Q -> Q) (data : list candle) :
  (5 <= length data)%nat → (length data < 19)%nat →
  Forall (λ c, low c <= high c) data →
  lookup_report "volatility_trend" (detect_volatility sqrtQ data)
  = Some (Str "stable").
Proof.
  intros H1 H2 Hd. unfold detect_volatility.
  replace (length data <? 5)%nat with false by (symmetry; apply Nat.ltb_ge; lia).
  cbv zeta. cbn [lookup_report String.eqb Ascii.eqb Bool.eqb].
  replace (19 <=? length data)%nat with false by (symmetry; apply Nat.leb_gt; lia).
  destruct (rolling_mean_true_range 5 (-1) data Hd) as [->|(q & -> & Hq)]; [done|].
  unfold fgt, fmul, flt.
  replace (Qltb (q * (12 # 10)) q) with false by (symmetry; apply Qltb_ge; lra).
  by replace (Qltb q (q * (8 # 10))) with false by (symmetry; apply Qltb_ge; lra).
Qed.

(** ** The theorems at concrete inputs *)

Definition falling20 : list candle :=
  map (fun i => Candle (1625097600 + i * 3600)
                       (inject_Z (60000 - 500 * i)) (inject_Z (60100 - 500 * i))
                       (inject_Z (59900 - 500 * i)) (inject_Z (60000 - 500 * i))
                       1000000)
      [0; 1; 2; 3; 4; 5; 6; 7; 8; 9; 10; 11; 12; 13; 14; 15; 16; 17; 18; 19]%Z.

Definition flat14 : list candle :=
  map (fun i => flat_candle i 5) [0; 1; 2; 3; 4; 5; 6; 7; 8; 9; 10; 11; 12; 13]%Z.

Lemma volume_trend_strength_and_correlation_in_range_witness :
  (∃ q, lookup_report "strength" (detect_volume_trends sqrt_down rising10 5)
        = Some (Num (Fin q)) ∧ 0 <= q <= 1)
  ∧ (∃ q, lookup_report "price_volume_correlation"
            (detect_volume_trends sqrt_down rising10 5) = Some (Num (Fin q))
          ∧ -1 <= q <= 1).
Proof.
  apply (volume_trend_strength_and_correlation_in_range sqrt_down rising10 5).
  - simpl. lia.
  - discriminate.
Defined.

Lemma history_shorter_than_two_windows_is_sideways_witness :
  lookup_report "trend" (detect_price_trends rising10 8) = Some (Str "sideways")
  ∧ lookup_report "strength" (detect_price_trends rising10 8)
    = Some (Num (Fin (1 # 10)))
  ∧ lookup_report "trend" (detect_volume_trends sqrt_down rising10 8)
    = Some (Str "stable")
  ∧ lookup_report "strength" (detect_volume_trends sqrt_down rising10 8)
    = Some (Num (Fin (1 # 10))).
Proof.
  apply (history_shorter_than_two_windows_is_sideways sqrt_down rising10 8);
    simpl; lia.
Defined.

Lemma bollinger_and_atr_defaults_on_short_history_witness :
  lookup_report "bollinger_position" (detect_volatility sqrt_down rising10)
  = Some (Num (Fin (1 # 2)))
  ∧ lookup_report "bollinger_width" (detect_volatility sqrt_down rising10)
    = Some (Num (Fin 0))
  ∧ ((length rising10 < 14)%nat →
     lookup_report "atr" (detect_volatility sqrt_down rising10) = Some (Num (Fin 0))).
Proof.
  apply (bollinger_and_atr_defaults_on_short_history sqrt_down rising10);
    simpl; lia.
Defined.

Lemma support_and_resistance_witness :
  ∃ s r,
    lookup_report "support" (detect_price_trends rising10 5) = Some (Num (Fin s))
    ∧ lookup_report "resistance" (detect_price_trends rising10 5) = Some (Num (Fin r))
    ∧ Forall (λ c, s <= low c ∧ high c <= r) (tail 20 rising10)
    ∧ Exists (λ c, low c = s) (tail 20 rising10)
    ∧ Exists (λ c, high c = r) (tail 20 rising10).
Proof.
  apply (support_and_resistance_bound_the_last_twenty_candles rising10 5).
  - simpl. lia.
  - discriminate.
Defined.

Lemma constant_volume_is_stable_witness :
  lookup_report "trend" (detect_volume_trends sqrt_down rising10 5)
  = Some (Str "stable")
  ∧ lookup_report "strength" (detect_volume_trends sqrt_down rising10 5)
    = Some (Num (Fin (1 # 10))).
Proof.
  apply (constant_volume_is_stable sqrt_down rising10 5 1000000).
  - lia.
  - simpl. lia.
  - discriminate.
  - unfold rising10. simpl. repeat (constructor; [reflexivity|]). constructor.
Defined.

Lemma rsi_of_monotone_closes_witness :
  (∃ q, lookup_report "rsi" (detect_momentum rising20) = Some (Num (Fin q)) ∧ q == 100)
  ∧ lookup_report "momentum_trend" (detect_momentum rising20) = Some (Str "overbought")
  ∧ (∃ q, lookup_report "rsi" (detect_momentum falling20) = Some (Num (Fin q)) ∧ q == 0)
  ∧ lookup_report "momentum_trend" (detect_momentum falling20) = Some (Str "oversold").
Proof.
  apply (rsi_of_monotone_closes rising20 falling20).
  - simpl. lia.
  - simpl. lia.
  - apply (bool_decide_unpack _). vm_compute. reflexivity.
  - apply (bool_decide_unpack _). vm_compute. reflexivity.
  - unfold rising20. simpl.
    repeat (constructor; [eexists; split; [reflexivity|simpl; lia]|]). constructor.
  - unfold falling20. simpl.
    repeat (constructor; [eexists; split; [reflexivity|simpl; lia]|]). constructor.
  - vm_compute. repeat constructor.
  - vm_compute. repeat constructor.
Defined.

Lemma flat_closes_give_neutral_momentum_witness :
  lookup_report "rsi" (detect_momentum flat14) = Some (Num (Fin 50))
  ∧ (∃ m, lookup_report "momentum" (detect_momentum flat14) = Some (Num (Fin m))
          ∧ m == 0)
  ∧ lookup_report "momentum_trend" (detect_momentum flat14) = Some (Str "neutral").
Proof.
  apply (flat_closes_give_neutral_momentum flat14 5).
  - simpl. lia.
  - unfold flat14. simpl. repeat (constructor; [reflexivity|]). constructor.
Defined.

Lemma average_true_range_is_not_negative_witness :
  ∃ q, lookup_report "atr" (detect_volatility sqrt_down rising20) = Some (Num (Fin q))
       ∧ 0 <= q.
Proof.
  apply (average_true_range_is_not_negative sqrt_down rising20).
  unfold rising20. simpl. repeat (constructor; [discriminate|]). constructor.
Defined.

Lemma volatility_trend_is_stable_witness :
  lookup_report "volatility_trend" (detect_volatility sqrt_down rising10)
  = Some (Str "stable").
Proof.
  apply (volatility_trend_is_stable_below_nineteen_candles sqrt_down rising10).
  - simpl. lia.
  - simpl. lia.
  - unfold rising10. simpl. repeat (constructor; [discriminate|]). constructor.
Defined.

End TrendRanges.
